(** * mise-en-place: the dotfiles configuration parser, sync engine and
      template pipeline of [config_parser.py]

    A shallow embedding of [config_parser.py] and the properties of its
    sync/overlay engine and template-substitution pipeline.

    Conventions of the embedding.
    - A Python [str] is a list of Unicode code points ([text]); the
      predicates of the runtime that the program relies on ([str.strip],
      [\s] of [re]) are written out on code points.
    - The file system is a tree of directories and files; a path is the list
      of its segments from the root.  Symbolic links and permissions are not
      modelled, and a [..] segment is an ordinary name ([parse_config]
      rejects every path that contains one).
    - A file holds either text (the code points its bytes decode to as
      UTF-8) or bytes that do not decode; the locale encoding is UTF-8.
    - Functions that mutate the file system, print or read the terminal run
      in a state-and-exception monad [M]; every mutating library call and
      every message is recorded in the state's journal.
    - What the operating system decides (names of temporary files, the
      outcome of the [envsubst] subprocess, the time stamp of a written
      file) is a parameter of the model ([oracle]). *)

From Stdlib Require Import NArith ZArith List String Ascii Lia Bool.
From stdpp Require Import base option list gmap.
From Equations Require Import Equations.
From Equations.Prop Require Import Logic.
Import ListNotations.

Open Scope N_scope.

(* ===================================================================== *)
(** * Part I: definitions                                                 *)
(* ===================================================================== *)

(** ** Python strings *)

Module Py.

Definition char := N.
Definition text := list char.

(** A string literal of the source, as code points. *)
Definition T (s : string) : text :=
  List.map N_of_ascii (list_ascii_of_string s).

Definition LF : char := 10.
Definition CR : char := 13.
Definition HASH : char := 35.       (* # *)
Definition DOLLAR : char := 36.     (* $ *)
Definition SLASH : char := 47.      (* / *)
Definition COLON : char := 58.      (* : *)
Definition EQUALS : char := 61.     (* = *)
Definition LBRACE : char := 123.    (* { *)
Definition RBRACE : char := 125.    (* } *)

Definition in_range (lo hi c : char) : bool := (lo <=? c) && (c <=? hi).

(** [str.isspace] on one code point, which is also [\s] of [re] on [str]
    patterns: the characters of bidirectional type WS, B or S and of
    category Zs. *)
Definition isspace (c : char) : bool :=
  in_range 9 13 c || in_range 28 32 c || (c =? 133) || (c =? 160)
  || (c =? 5760) || in_range 8192 8202 c || (c =? 8232) || (c =? 8233)
  || (c =? 8239) || (c =? 8287) || (c =? 12288).

(** [[A-Za-z_]] and [[A-Za-z0-9_]]. *)
Definition ident_start (c : char) : bool :=
  in_range 65 90 c || in_range 97 122 c || (c =? 95).
Definition ident_char (c : char) : bool :=
  ident_start c || in_range 48 57 c.

Fixpoint eqb_text (a b : text) : bool :=
  match a, b with
  | [], [] => true
  | x :: a', y :: b' => (x =? y) && eqb_text a' b'
  | _, _ => false
  end.

Fixpoint lstrip (s : text) : text :=
  match s with
  | c :: s' => if isspace c then lstrip s' else s
  | [] => []
  end.

Definition rstrip (s : text) : text := rev (lstrip (rev s)).

(** [s.strip()] *)
Definition strip (s : text) : text := rstrip (lstrip s).

(** [s.startswith(p)] *)
Fixpoint startswith (p s : text) : bool :=
  match p, s with
  | [], _ => true
  | x :: p', y :: s' => (x =? y) && startswith p' s'
  | _ :: _, [] => false
  end.

(** [sub in s] *)
Fixpoint contains (sub s : text) : bool :=
  startswith sub s ||
  match s with
  | [] => false
  | _ :: s' => contains sub s'
  end.

(** [s.split(sep)] for a one-character separator: never empty, the empty
    string gives one empty piece. *)
Fixpoint split (sep : char) (s : text) : list text :=
  match s with
  | [] => [[]]
  | c :: s' =>
      if c =? sep then [] :: split sep s'
      else match split sep s' with
           | h :: t => (c :: h) :: t
           | [] => [[c]]
           end
  end.

(** [s.split(sep, 1)] when [sep in s]: the text before the first
    separator and the text after it. *)
Fixpoint split_first (sep : char) (s : text) : option (text * text) :=
  match s with
  | [] => None
  | c :: s' =>
      if c =? sep then Some ([], s')
      else match split_first sep s' with
           | Some (a, b) => Some (c :: a, b)
           | None => None
           end
  end.

(** [(s[:i], s[i+1:])] for [i = s.rfind(sep)], when [sep in s]. *)
Fixpoint split_last (sep : char) (s : text) : option (text * text) :=
  match s with
  | [] => None
  | c :: s' =>
      match split_last sep s' with
      | Some (a, b) => Some (c :: a, b)
      | None => if c =? sep then Some ([], s') else None
      end
  end.

(** The longest prefix of characters in [p], and the rest. *)
Fixpoint span (p : char -> bool) (s : text) : text * text :=
  match s with
  | c :: s' => if p c then let (a, b) := span p s' in (c :: a, b) else ([], s)
  | [] => ([], [])
  end.

(** What reading in text mode does to line ends (universal newlines):
    [\r\n] and a lone [\r] become [\n]. *)
Fixpoint universal_newlines (s : text) : text :=
  match s with
  | [] => []
  | c :: s' =>
      if c =? CR then
        LF :: match s' with
              | d :: s'' => if d =? LF then universal_newlines s''
                            else universal_newlines s'
              | [] => []
              end
      else c :: universal_newlines s'
  end.

(** [s.lower()], as far as the program can tell: the answers it compares
    the result with are ASCII letters, onto which only the ASCII capitals
    and the Kelvin sign (to [k]) are mapped. *)
Definition lower_char (c : char) : char :=
  if in_range 65 90 c then c + 32
  else if c =? 8490 then 107
  else c.
Definition lower (s : text) : text := List.map lower_char s.

Definition is_empty {A} (l : list A) : bool :=
  match l with [] => true | _ => false end.

(** An insertion-ordered [dict]: assigning to a key that is present keeps
    its place. *)
Section Dict.
Context {K V : Type} (eqb : K -> K -> bool).

Fixpoint dict_get (k : K) (d : list (K * V)) : option V :=
  match d with
  | [] => None
  | (k', v) :: d' => if eqb k k' then Some v else dict_get k d'
  end.

Fixpoint dict_set (k : K) (v : V) (d : list (K * V)) : list (K * V) :=
  match d with
  | [] => [(k, v)]
  | (k', v') :: d' =>
      if eqb k k' then (k, v) :: d' else (k', v') :: dict_set k v d'
  end.
End Dict.

End Py.
Export Py.

(** ** The fragment of [re] the program uses *)

Module Re.

(** One element of a pattern: a character class, a starred or plussed
    class, or the anchor [$]. *)
Inductive atom :=
| One (p : char -> bool)
| Star (p : char -> bool)
| Plus (p : char -> bool)
| Eos.

Definition regex := list atom.

(** Where [$] matches without [re.MULTILINE]: at the end of the string and
    before a line feed that ends it. *)
Definition at_end (s : text) : bool :=
  match s with
  | [] => true
  | [c] => c =? LF
  | _ => false
  end.

(** [match_star p k s]: a greedy run of [p] followed by the continuation
    [k], with backtracking. *)
Fixpoint match_star (p : char -> bool) (k : text -> bool) (s : text) : bool :=
  match s with
  | c :: s' => (p c && match_star p k s') || k s
  | [] => k s
  end.

(** Does the pattern match at the start of [s]? *)
Fixpoint match_here (r : regex) : text -> bool :=
  match r with
  | [] => fun _ => true
  | One p :: r' =>
      fun s => match s with
               | c :: s' => p c && match_here r' s'
               | [] => false
               end
  | Star p :: r' => match_star p (match_here r')
  | Plus p :: r' =>
      fun s => match s with
               | c :: s' => p c && match_star p (match_here r') s'
               | [] => false
               end
  | Eos :: r' => fun s => at_end s && match_here r' s
  end.

(** [re.search(r, s)] as a truth value. *)
Fixpoint search (r : regex) (s : text) : bool :=
  match_here r s ||
  match s with
  | [] => false
  | _ :: s' => search r s'
  end.

Definition chr (c : char) : atom := One (N.eqb c).
Definition lit (s : string) : regex := List.map chr (T s).
(** [.] without [re.DOTALL] *)
Definition dot (c : char) : bool := negb (c =? LF).

End Re.

(** ** Template detection *)

(** One match of the pattern of [detect_template_variables] at the start
    of [s]: a dollar sign, an opening brace, the captured name (one of
    [A-Za-z_], then any number of [A-Za-z0-9_]) and a closing brace.  The
    result is the name and the text after the match. *)
Definition match_template_var (s : text) : option (text * text) :=
  match s with
  | d :: b :: c :: s' =>
      if (d =? DOLLAR) && (b =? LBRACE) && ident_start c then
        let (name_tl, rest) := span ident_char s' in
        match rest with
        | e :: rest' => if e =? RBRACE then Some (c :: name_tl, rest') else None
        | [] => None
        end
      else None
  | _ => None
  end.

(** [re.findall(pattern, content)] for the pattern above: the captured
    names of the successive non-overlapping matches, left to right. *)
Equations? findall_template_vars (s : text) : list text by wf (length s) lt :=
  findall_template_vars [] := [];
  findall_template_vars (c :: s') with inspect (match_template_var (c :: s')) := {
    | exist _ (Some (name, rest)) _ => name :: findall_template_vars rest
    | exist _ None _ => findall_template_vars s' }.
Proof.
  (* the text after a match is shorter than the text matched *)
  assert (Hspan : forall p (s : text), (length (span p s).2 <= length s)%nat).
  { intros p s; induction s as [|x s IH]; simpl; [lia|].
    destruct (p x); simpl; [|lia]. destruct (span p s); simpl in *; lia. }
  destruct s' as [|b [|c0 s'']]; simpl in *; try discriminate.
  destruct (_ && _); [|discriminate].
  specialize (Hspan ident_char s'').
  destruct (span ident_char s'') as [a r]; simpl in Hspan.
  destruct r as [|x r']; [discriminate|].
  destruct (x =? RBRACE); [|discriminate].
  match goal with H : Some _ = Some _ |- _ => injection H as _ <- end.
  simpl in Hspan. lia.
Qed.

(** ** Environment-file validation: the text part *)

Definition is_shell_meta (c : char) : bool :=
  (c =? 59) || (c =? 38) || (c =? 124) || (c =? 96) || (c =? 36)
  || (c =? 40) || (c =? 41) || (c =? 123) || (c =? 125).

(** [dangerous_patterns], in the order of the source. *)
Definition dangerous_patterns : list Re.regex :=
  [ [Re.One is_shell_meta]                                   (* [;&|`$(){}] *)
  ; Re.lit "$("                                              (* \$\(        *)
  ; Re.lit "`"                                               (* `           *)
  ; Re.lit "eval" ++ [Re.One isspace]                        (* eval\s      *)
  ; Re.lit "exec" ++ [Re.One isspace]                        (* exec\s      *)
  ; Re.lit "|" ++ [Re.Star isspace] ++ Re.lit "sh"           (* \|\s*sh     *)
  ; Re.lit ">" ++ [Re.Star isspace] ++ Re.lit "/dev/"        (* >\s*/dev/   *)
  ; Re.lit "rm" ++ [Re.Plus isspace] ++ Re.lit "-rf"         (* rm\s+-rf    *)
  ].

(** [^[A-Za-z_][A-Za-z0-9_]*=.*$] *)
Definition re_assignment : Re.regex :=
  [Re.One ident_start; Re.Star ident_char; Re.chr EQUALS; Re.Star Re.dot; Re.Eos].

(** [^export\s+[A-Za-z_][A-Za-z0-9_]*=.*$] *)
Definition re_export_assignment : Re.regex :=
  Re.lit "export" ++ [Re.Plus isspace] ++ re_assignment.

(** The lines [validate_env_file] counts: stripped, non-blank, not a
    comment. *)
Definition env_lines (content : text) : list text :=
  List.map strip
    (List.filter (fun line => negb (is_empty (strip line))
                              && negb (startswith (T "#") (strip line)))
       (split LF content)).

Definition env_line_valid (line : text) : bool :=
  Re.match_here re_assignment line || Re.match_here re_export_assignment line.

(** The loop over [dangerous_patterns]. *)
Definition has_dangerous_pattern (content : text) : bool :=
  existsb (fun pattern => Re.search pattern content) dangerous_patterns.

Inductive env_verdict := Dangerous | NotEnvFile | Safe.

Definition verdict_ok (v : env_verdict) : bool :=
  match v with Safe => true | _ => false end.

(** The checks of [validate_env_file] on the text that was read.  The source
    compares the quotient [valid_lines / len(lines)] of two machine integers,
    computed in binary64, with the literal [0.8]; for every line count below
    2^50 that comparison is the exact one [5 * valid_lines < 4 * len(lines)],
    which the model uses. *)
Definition classify_env_content (content : text) : env_verdict :=
  if has_dangerous_pattern content
  then Dangerous
  else
    let lines := env_lines content in
    let valid_lines := length (List.filter env_line_valid lines) in
    if negb (is_empty lines) && (5 * valid_lines <? 4 * length lines)%nat
    then NotEnvFile
    else Safe.

(** ** The file system *)

Module FS.

Definition name := text.
(** An absolute path: its segments from the root. *)
Definition path := list name.
(** What [shutil.copy2] preserves and a plain write does not: mode and
    time stamps, as one opaque value. *)
Definition meta := N.

(** The bytes of a file: text, when they decode as UTF-8, or bytes that do
    not decode. *)
Inductive data :=
| Utf8 (t : text)
| Undecodable (bytes : list N).

#[warnings="-register-all"] Inductive node :=
| File (d : data) (m : meta)
| Dir (entries : list (name * node)).

Fixpoint assoc (k : name) (es : list (name * node)) : option node :=
  match es with
  | [] => None
  | (k', v) :: es' => if eqb_text k k' then Some v else assoc k es'
  end.

Fixpoint assoc_set (k : name) (v : node) (es : list (name * node))
  : list (name * node) :=
  match es with
  | [] => [(k, v)]
  | (k', v') :: es' =>
      if eqb_text k k' then (k, v) :: es' else (k', v') :: assoc_set k v es'
  end.

Fixpoint assoc_del (k : name) (es : list (name * node)) : list (name * node) :=
  match es with
  | [] => []
  | (k', v') :: es' =>
      if eqb_text k k' then assoc_del k es' else (k', v') :: assoc_del k es'
  end.

(** The node at a path, if there is one. *)
Fixpoint lookup (n : node) (p : path) : option node :=
  match p with
  | [] => Some n
  | s :: p' =>
      match n with
      | Dir es => match assoc s es with
                  | Some c => lookup c p'
                  | None => None
                  end
      | File _ _ => None
      end
  end.

(** Create or replace the node at a path whose parent is a directory. *)
Fixpoint put (n : node) (p : path) (v : node) : option node :=
  match p with
  | [] => Some v
  | s :: p' =>
      match n with
      | Dir es =>
          match p', assoc s es with
          | [], _ => Some (Dir (assoc_set s v es))
          | _ :: _, Some c =>
              match put c p' v with
              | Some c' => Some (Dir (assoc_set s c' es))
              | None => None
              end
          | _ :: _, None => None
          end
      | File _ _ => None
      end
  end.

(** Remove the node at a path. *)
Fixpoint remove (n : node) (p : path) : option node :=
  match p with
  | [] => None
  | s :: p' =>
      match n with
      | Dir es =>
          match assoc s es with
          | Some c =>
              match p' with
              | [] => Some (Dir (assoc_del s es))
              | _ :: _ =>
                  match remove c p' with
                  | Some c' => Some (Dir (assoc_set s c' es))
                  | None => None
                  end
              end
          | None => None
          end
      | File _ _ => None
      end
  end.

(** [Path.mkdir(parents=True, exist_ok=True)]: fails when a component of
    the path is a file. *)
Fixpoint mkdir_p (n : node) (p : path) : option node :=
  match n with
  | File _ _ => None
  | Dir es =>
      match p with
      | [] => Some n
      | s :: p' =>
          match mkdir_p (match assoc s es with
                         | Some c => c
                         | None => Dir []
                         end) p' with
          | Some c' => Some (Dir (assoc_set s c' es))
          | None => None
          end
      end
  end.

Definition exists_ (n : node) (p : path) : bool :=
  match lookup n p with Some _ => true | None => false end.
Definition is_dir (n : node) (p : path) : bool :=
  match lookup n p with Some (Dir _) => true | _ => false end.
Definition is_file (n : node) (p : path) : bool :=
  match lookup n p with Some (File _ _) => true | _ => false end.

(** [Path.parent] and [Path.name] *)
Definition parent (p : path) : path := removelast p.
Definition basename (p : path) : name := List.last p [].

Fixpoint eqb_path (a b : path) : bool :=
  match a, b with
  | [], [] => true
  | x :: a', y :: b' => eqb_text x y && eqb_path a' b'
  | _, _ => false
  end.

(** [q.relative_to(p)] succeeds. *)
Fixpoint is_prefix (p q : path) : bool :=
  match p, q with
  | [], _ => true
  | x :: p', y :: q' => eqb_text x y && is_prefix p' q'
  | _ :: _, [] => false
  end.

(** The segments of a path written as text: empty segments and [.] are
    dropped, as [pathlib] does. *)
Definition segments (s : text) : list name :=
  List.filter (fun x => negb (is_empty x) && negb (eqb_text x (T ".")))
    (split SLASH s).

(** [base / s]: an absolute [s] replaces [base]. *)
Definition joinpath (base : path) (s : text) : path :=
  if startswith (T "/") s then segments s else base ++ segments s.

End FS.
Export FS.

(** ** Effects: state, exceptions, journal *)

Module Run.

(** The exceptions the program can meet.  All of them are subclasses of
    [Exception]; those of the file system are subclasses of [OSError]. *)
Inductive exn :=
| FileNotFoundError
| FileExistsError
| IsADirectoryError
| NotADirectoryError
| SameFileError
| UnicodeDecodeError
| TimeoutExpired
| EOFError
| ValueError (msg : text).

Definition is_OSError (e : exn) : bool :=
  match e with
  | FileNotFoundError | FileExistsError | IsADirectoryError
  | NotADirectoryError | SameFileError => true
  | _ => false
  end.

(** The library calls that change the file system. *)
Inductive fsop :=
| OpMkdir (p : path)
| OpCopy2 (src dst : path)
| OpCopytree (src dst : path)
| OpRmtree (p : path)
| OpMkstemp (p : path)
| OpWriteText (p : path) (t : text)
| OpUnlink (p : path)
| OpShell (env_files : list path) (template output : path).

(** The messages of the program that the properties below speak of; the
    other lines it prints are not recorded. *)
Inductive message :=
| WarnInvalidFormat (line_num : nat)
| WarnInvalidCustomFormat (line_num : nat)
| WarnEmptyCustomFilename (line_num : nat)
| WarnEmptyValues (line_num : nat)
| ErrDangerousSystemPath (line_num : nat) (system_path : text)
| ErrPathTraversal (line_num : nat)
| ErrValidation (n_errors : nat)
| ErrException (e : exn)
| WarnCustomNotFound (custom_file : path)
| ErrSourceNotFound (repo_path : text)
| ErrRefuseHome
| ErrOutsideHome (dest_file : path)
| MsgAllUpToDate
| MsgSyncCancelled
| MsgBackingUp (dest_path : text)
| MsgSyncing (repo_path dest_path : text)
| MsgSyncCompleted
| WarnDangerousPattern (env_file : path)
| WarnNotEnvFile (env_file : path)
| WarnCannotValidate (env_file : path) (e : exn)
| WarnEnvsubstUnavailable (file : path)
| WarnTemplateNotFound (file : path)
| WarnUnsafeEnvFile (env_file : path)
| WarnTemplateFailed (file : path)
| WarnNoOutput (file : path)
| MsgTemplateProcessed (file : path)
| ErrTemplateTimeout (file : path)
| ErrTemplate (file : path) (e : exn)
| WarnNoRollback (file : path) (e : exn)
| MsgRollbackAvailable (file rollback : path)
| MsgTemplatesCompleted (processed found : nat).

Inductive event :=
| Called (op : fsop)
| Printed (m : message).

Record state := mkState {
  fs : node;
  journal : list event;
  stdin : list text          (* the lines [input()] will read *)
}.

(** What the shell command ([source ...; envsubst < file > output]) did:
    it raised in [subprocess.run] (time-out, no shell), or it exited with a
    return code and left the output file absent or with some data. *)
Inductive shell_outcome :=
| ShellRaised (e : exn)
| ShellExited (returncode : Z) (output : option data).

(** The decisions of the environment. *)
Record oracle := mkOracle {
  home : path;                                  (* [Path.home()] *)
  stamp : meta;                                 (* metadata of a written file *)
  tmpname : node -> path -> text -> name;       (* [NamedTemporaryFile] *)
  envsubst_help : option exn;                   (* [envsubst --help] *)
  shell : node -> list path -> path -> shell_outcome
}.

Definition M (A : Type) : Type := state -> (exn + A) * state.

Definition ret {A} (a : A) : M A := fun st => (inr a, st).
Definition bind {A B} (m : M A) (k : A -> M B) : M B :=
  fun st => match m st with
            | (inr a, st') => k a st'
            | (inl e, st') => (inl e, st')
            end.
Definition raise {A} (e : exn) : M A := fun st => (inl e, st).

(** [try: m  except <handles>: h] *)
Definition try_except {A} (m : M A) (handles : exn -> bool) (h : exn -> M A)
  : M A :=
  fun st => match m st with
            | (inl e, st') => if handles e then h e st' else (inl e, st')
            | r => r
            end.

(** [try: m  finally: c] *)
Definition try_finally {A} (m : M A) (c : M unit) : M A :=
  fun st => match m st with
            | (r, st') => match c st' with
                          | (inr _, st'') => (r, st'')
                          | (inl e, st'') => (inl e, st'')
                          end
            end.

Definition get_fs : M node := fun st => (inr (fs st), st).
Definition set_fs (n : node) : M unit :=
  fun st => (inr tt, mkState n (journal st) (stdin st)).
Definition emit (ev : event) : M unit :=
  fun st => (inr tt, mkState (fs st) (journal st ++ [ev]) (stdin st)).
Definition print (m : message) : M unit := emit (Printed m).
Definition call (op : fsop) : M unit := emit (Called op).
Definition lift {A} (r : exn + A) : M A := fun st => (r, st).

End Run.
Export Run.

Declare Scope M_scope.
Delimit Scope M_scope with M.
Notation "x <- m ;; k" := (bind m (fun x => k))
  (at level 100, m at next level, k at level 200, right associativity,
   only parsing) : M_scope.
Notation "m ;;; k" := (bind m (fun _ => k))
  (at level 100, k at level 200, right associativity, only parsing) : M_scope.
Open Scope M_scope.

Definition all_exceptions (_ : exn) : bool := true.

(** ** Library calls on the file system *)

(** [Path.read_text]: decodes, and translates line ends. *)
Definition read_text (n : node) (p : path) : exn + text :=
  match lookup n p with
  | Some (File (Utf8 t) _) => inr (universal_newlines t)
  | Some (File (Undecodable _) _) => inl UnicodeDecodeError
  | Some (Dir _) => inl IsADirectoryError
  | None => inl FileNotFoundError
  end.

Section Os.

Variable os : oracle.

Definition store (r : option node) (e : exn) : M unit :=
  match r with
  | Some n => set_fs n
  | None => raise e
  end.

(** [p.mkdir(parents=True, exist_ok=True)] *)
Definition mkdir (p : path) : M unit :=
  call (OpMkdir p);;;
  n <- get_fs;;
  store (mkdir_p n p)
    (if is_file n p then FileExistsError else NotADirectoryError).

(** [shutil.copy2(src, dst)]: data and metadata; into [dst] when it is a
    directory. *)
Definition copy2 (src dst : path) : M unit :=
  call (OpCopy2 src dst);;;
  n <- get_fs;;
  let target := if is_dir n dst then dst ++ [basename src] else dst in
  match lookup n src with
  | None => raise FileNotFoundError
  | Some (Dir _) => raise IsADirectoryError
  | Some (File d m) =>
      if eqb_path src target then raise SameFileError
      else if is_dir n target then raise IsADirectoryError
      else if negb (is_dir n (parent target)) then raise FileNotFoundError
      else store (put n target (File d m)) FileNotFoundError
  end.

(** [shutil.copytree(src, dst)]: [dst] must not exist, its parents are
    created.  The tree copied is the one [src] had when the call was made
    (a [dst] inside [src] is outside the model). *)
Definition copytree (src dst : path) : M unit :=
  call (OpCopytree src dst);;;
  n <- get_fs;;
  match lookup n src with
  | None => raise FileNotFoundError
  | Some (File _ _) => raise NotADirectoryError
  | Some (Dir es) =>
      if exists_ n dst then raise FileExistsError
      else match mkdir_p n (parent dst) with
           | None => raise NotADirectoryError
           | Some n1 => store (put n1 dst (Dir es)) FileNotFoundError
           end
  end.

(** [shutil.rmtree(p)] *)
Definition rmtree (p : path) : M unit :=
  call (OpRmtree p);;;
  n <- get_fs;;
  match lookup n p with
  | None => raise FileNotFoundError
  | Some (File _ _) => raise NotADirectoryError
  | Some (Dir _) => store (remove n p) FileNotFoundError
  end.

(** [p.unlink()] *)
Definition unlink (p : path) : M unit :=
  call (OpUnlink p);;;
  n <- get_fs;;
  match lookup n p with
  | None => raise FileNotFoundError
  | Some (Dir _) => raise IsADirectoryError
  | Some (File _ _) => store (remove n p) FileNotFoundError
  end.

(** [p.write_text(t)], and [f.write(t)] on a file opened for writing. *)
Definition write_text (p : path) (t : text) : M unit :=
  call (OpWriteText p t);;;
  n <- get_fs;;
  if is_dir n p then raise IsADirectoryError
  else if negb (is_dir n (parent p)) then raise FileNotFoundError
  else store (put n p (File (Utf8 t) (stamp os))) FileNotFoundError.

(** [tempfile.NamedTemporaryFile(mode='w', suffix=..., dir=..., delete=False)]:
    a new, empty file under a name of the system's choice. *)
Definition mkstemp (dir : path) (suffix : text) : M path :=
  n <- get_fs;;
  let p := dir ++ [tmpname os n dir suffix] in
  call (OpMkstemp p);;;
  if negb (is_dir n dir) then raise FileNotFoundError
  else if exists_ n p then raise FileExistsError
  else store (put n p (File (Utf8 []) (stamp os))) FileNotFoundError;;;
       ret p.

(** [input(...)]: the next line of the terminal. *)
Definition input : M text :=
  fun st => match stdin st with
            | [] => (inl EOFError, st)
            | l :: rest => (inr l, mkState (fs st) (journal st) rest)
            end.

End Os.

(** ** [DotfilesConfig] *)

Record DotfilesConfig := mkConfig {
  config_file : path;
  repo_dir : path;
  dotfiles : list text;
  file_map : list (text * text);       (* repo path -> system path *)
  custom_map : gmap text text;         (* system path -> custom source *)
  backup_dir : path;
  custom_dir : path
}.

(** [DotfilesConfig(config_file)]; [script_dir] is the directory of
    [config_parser.py], [BACKUP_DIR] and [CUSTOM_DIR] are under the home
    directory. *)
Definition new_config (os : oracle) (script_dir : path)
    (config : option path) : DotfilesConfig :=
  let cf := match config with
            | Some f => f
            | None => script_dir ++ [T "dotfiles.conf"]
            end in
  {| config_file := cf;
     repo_dir := match config with Some f => parent f | None => script_dir end;
     dotfiles := [];
     file_map := [];
     custom_map := ∅;
     backup_dir := home os ++ [T ".config"; T "dotfiles.bak"];
     custom_dir := home os ++ [T ".config"; T "dotfiles.custom"] |}.

(** What one turn of the loop of [parse_config] does with its line. *)
Inductive line_outcome :=
| LineSkipped
| LineWarned (w : message)
| LineFatal (m : option message) (e : exn)
| LineCustom (system_path custom_path : text)
| LineRegular (repo_path system_path : text).

Definition parse_line (line_num : nat) (raw : text) : line_outcome :=
  let line := strip raw in
  if is_empty line || startswith (T "#") line then LineSkipped
  else if negb (contains (T ":") line) then
    LineWarned (WarnInvalidFormat line_num)
  else
    let parts : line_outcome + (text * text) :=
      if startswith (T "custom:") line then
        let prefix_and_file := drop 7 line in
        match split_last COLON prefix_and_file with
        | None => inl (LineWarned (WarnInvalidCustomFormat line_num))
        | Some (custom_filename, system_path) =>
            if is_empty (strip custom_filename) then
              inl (LineWarned (WarnEmptyCustomFilename line_num))
            else inr (T "custom:" ++ custom_filename, system_path)
        end
      else
        match split_first COLON line with
        | Some parts => inr parts
        | None =>
            inl (LineFatal None (ValueError (T "not enough values to unpack")))
        end in
    match parts with
    | inl outcome => outcome
    | inr (repo_path, system_path) =>
        let repo_path := strip repo_path in
        let system_path := strip system_path in
        if is_empty repo_path || is_empty system_path then
          LineWarned (WarnEmptyValues line_num)
        else if eqb_text system_path (T "/") || eqb_text system_path (T "~") then
          LineFatal (Some (ErrDangerousSystemPath line_num system_path))
            (ValueError (T "Refusing to manage root or home directory: "
                         ++ system_path))
        else if startswith (T "custom:") repo_path then
          let custom_path := strip (drop 7 repo_path) in
          if contains (T "..") custom_path || contains (T "..") system_path then
            LineFatal (Some (ErrPathTraversal line_num))
              (ValueError (T "Path traversal not allowed: " ++ line))
          else LineCustom system_path custom_path
        else
          if contains (T "..") repo_path || contains (T "..") system_path then
            LineFatal (Some (ErrPathTraversal line_num))
              (ValueError (T "Path traversal not allowed: " ++ line))
          else LineRegular repo_path system_path
    end.

Definition add_custom (self : DotfilesConfig) (system_path custom_path : text)
    : DotfilesConfig :=
  {| config_file := config_file self; repo_dir := repo_dir self;
     dotfiles := dotfiles self; file_map := file_map self;
     custom_map := <[system_path := custom_path]> (custom_map self);
     backup_dir := backup_dir self; custom_dir := custom_dir self |}.

Definition add_regular (self : DotfilesConfig) (repo_path system_path : text)
    : DotfilesConfig :=
  {| config_file := config_file self; repo_dir := repo_dir self;
     dotfiles := dotfiles self ++ [repo_path];
     file_map := dict_set eqb_text repo_path system_path (file_map self);
     custom_map := custom_map self;
     backup_dir := backup_dir self; custom_dir := custom_dir self |}.

(** The loop of [parse_config] over the lines of the file, from line number
    [line_num]: the messages printed, the exception raised if any, and the
    fields of the object when the loop ends or is left by the exception. *)
Fixpoint parse_lines (self : DotfilesConfig) (line_num : nat)
    (lines : list text) : list message * option exn * DotfilesConfig :=
  match lines with
  | [] => ([], None, self)
  | raw :: rest =>
      match parse_line line_num raw with
      | LineSkipped => parse_lines self (S line_num) rest
      | LineWarned w =>
          let '(ms, r, c) := parse_lines self (S line_num) rest in
          (w :: ms, r, c)
      | LineFatal m e => (option_list m, Some e, self)
      | LineCustom system_path custom_path =>
          parse_lines (add_custom self system_path custom_path)
            (S line_num) rest
      | LineRegular repo_path system_path =>
          parse_lines (add_regular self repo_path system_path)
            (S line_num) rest
      end
  end.

(** The lines a file opened for reading iterates over.  Each is stripped at
    once, so the line feed that ends it is left out. *)
Definition file_lines (content : text) : list text := split LF content.

Fixpoint print_all (ms : list message) : M unit :=
  match ms with
  | [] => ret tt
  | m :: ms' => print m;;; print_all ms'
  end.

(** [self.parse_config()]: the result is the object after the call. *)
Definition parse_config (self : DotfilesConfig) : M DotfilesConfig :=
  n <- get_fs;;
  if negb (exists_ n (config_file self)) then raise FileNotFoundError
  else
    content <- lift (read_text n (config_file self));;
    let '(ms, r, self') := parse_lines self 1 (file_lines content) in
    print_all ms;;;
    match r with
    | Some e => raise e
    | None => ret self'
    end.

Inductive validation_error :=
| NoDotfiles
| NoFileMappings
| SourceNotFound (repo_path : text)
| CustomNotFound (custom_path : text)
| DuplicateEntries.

Fixpoint has_duplicates (l : list text) : bool :=
  match l with
  | [] => false
  | x :: l' => existsb (eqb_text x) l' || has_duplicates l'
  end.

(** [self.validate()].  The errors about custom files come in the order of
    the keys of [custom_map]. *)
Definition validate (self : DotfilesConfig) (n : node) : list validation_error :=
  (if is_empty (dotfiles self) then [NoDotfiles] else [])
  ++ (if is_empty (file_map self) then [NoFileMappings] else [])
  ++ flat_map (fun repo_path =>
                 if exists_ n (joinpath (repo_dir self) repo_path) then []
                 else [SourceNotFound repo_path]) (dotfiles self)
  ++ flat_map (fun kv : text * text =>
                 if exists_ n (joinpath (custom_dir self) kv.2) then []
                 else [CustomNotFound kv.2]) (map_to_list (custom_map self))
  ++ (if has_duplicates (dotfiles self) then [DuplicateEntries] else []).

(** ** The template pipeline *)

(** [detect_template_variables(file_path)].  Every exception [read_text] can
    raise here is a [UnicodeDecodeError] or an [OSError], which the function
    catches. *)
Definition detect_template_variables (n : node) (file_path : path) : gset text :=
  match read_text n file_path with
  | inr content => list_to_set (findall_template_vars content)
  | inl _ => ∅
  end.

(** [get_secrets_files()], lower priority first. *)
Definition get_secrets_files (os : oracle) : list path :=
  [ home os ++ [T ".env"];
    home os ++ [T ".config"; T "dotfiles"; T ".env"] ].

Section Templates.

Variable os : oracle.

(** [validate_env_file(env_file_path)] *)
Definition validate_env_file (env_file_path : path) : M bool :=
  try_except
    (n <- get_fs;;
     if negb (exists_ n env_file_path) || negb (is_file n env_file_path)
     then ret false
     else
       content <- lift (read_text n env_file_path);;
       match classify_env_content content with
       | Dangerous => print (WarnDangerousPattern env_file_path);;; ret false
       | NotEnvFile => print (WarnNotEnvFile env_file_path);;; ret false
       | Safe => ret true
       end)
    all_exceptions
    (fun e => print (WarnCannotValidate env_file_path e);;; ret false).

(** The loop of [process_template_file] that keeps the environment files
    that exist and validate. *)
Fixpoint select_env_files (env_files : list path) : M (list path) :=
  match env_files with
  | [] => ret []
  | env_path :: rest =>
      n <- get_fs;;
      ok <- (if exists_ n env_path then validate_env_file env_path
             else ret false);;
      (if negb ok && exists_ n env_path
       then print (WarnUnsafeEnvFile env_path) else ret tt);;;
      valid <- select_env_files rest;;
      ret (if ok then env_path :: valid else valid)
  end.

(** [subprocess.run(full_cmd, shell=True, ..., timeout=30)]: the command
    sources the valid environment files and redirects [envsubst] from the
    template into the output file. *)
Definition run_envsubst (valid_env_files : list path)
    (file_path temp_output_path : path) : M Z :=
  call (OpShell valid_env_files file_path temp_output_path);;;
  n <- get_fs;;
  match shell os n valid_env_files file_path with
  | ShellRaised e => raise e
  | ShellExited returncode output =>
      match output with
      | Some d =>
          store (put n temp_output_path (File d (stamp os))) FileNotFoundError
      | None =>
          if exists_ n temp_output_path
          then store (remove n temp_output_path) FileNotFoundError
          else ret tt
      end;;;
      ret returncode
  end.

Definition is_TimeoutExpired (e : exn) : bool :=
  match e with TimeoutExpired => true | _ => false end.

(** [process_template_file(file_path, env_files)] *)
Definition process_template_file (file_path : path) (env_files : list path)
    : M bool :=
  try_except
    (try_except
       (match envsubst_help os with
        | Some TimeoutExpired | Some FileNotFoundError =>
            print (WarnEnvsubstUnavailable file_path);;; ret false
        | Some e => raise e
        | None =>
            n <- get_fs;;
            if negb (exists_ n file_path) || negb (is_file n file_path) then
              print (WarnTemplateNotFound file_path);;; ret false
            else
              (* the backup, kept for the user *)
              backup_path <- mkstemp os (parent file_path)
                               (T ".template_backup");;
              n0 <- get_fs;;
              original <- lift (read_text n0 file_path);;
              write_text os backup_path original;;;
              valid_env_files <- select_env_files env_files;;
              temp_output_path <- mkstemp os (parent file_path) (T ".tmp");;
              try_finally
                (returncode <- run_envsubst valid_env_files file_path
                                 temp_output_path;;
                 if negb (returncode =? 0)%Z then
                   print (WarnTemplateFailed file_path);;; ret false
                 else
                   n1 <- get_fs;;
                   if negb (exists_ n1 temp_output_path) then
                     print (WarnNoOutput file_path);;; ret false
                   else
                     processed_content <- lift (read_text n1 temp_output_path);;
                     write_text os file_path processed_content;;;
                     print (MsgTemplateProcessed file_path);;;
                     ret true)
                (n2 <- get_fs;;
                 if exists_ n2 temp_output_path then unlink temp_output_path
                 else ret tt)
        end)
       is_TimeoutExpired
       (fun _ => print (ErrTemplateTimeout file_path);;; ret false))
    all_exceptions
    (fun e => print (ErrTemplate file_path e);;; ret false).

(** The first loop of [process_synced_templates]: the templates among the
    synced files, and a rollback copy of each. *)
Fixpoint scan_templates (synced_files : list (text * text))
    (templates_found : list (path * gset text))
    (rollback_info : list (path * path))
    : M (list (path * gset text) * list (path * path)) :=
  match synced_files with
  | [] => ret (templates_found, rollback_info)
  | (repo_path, dest_path) :: rest =>
      let dest_file := joinpath (home os) dest_path in
      n <- get_fs;;
      if negb (exists_ n dest_file) || is_dir n dest_file then
        scan_templates rest templates_found rollback_info
      else
        let variables := detect_template_variables n dest_file in
        if bool_decide (variables = ∅) then
          scan_templates rest templates_found rollback_info
        else
          rollback_info' <-
            try_except
              (rollback_path <- mkstemp os (parent dest_file)
                                  (T ".rollback_backup");;
               n1 <- get_fs;;
               content <- lift (read_text n1 dest_file);;
               write_text os rollback_path content;;;
               ret (dict_set eqb_path dest_file rollback_path rollback_info))
              all_exceptions
              (fun e => print (WarnNoRollback dest_file e);;;
                        ret rollback_info);;
          scan_templates rest (templates_found ++ [(dest_file, variables)])
            rollback_info'
  end.

(** The second loop: each template is processed, whatever happened to the
    ones before it.  (The analysis printed before each one reads the
    environment files and changes nothing; it is left out.) *)
Fixpoint process_found (env_files : list path)
    (templates_found : list (path * gset text))
    (templates_processed : nat) (failed_templates : list path)
    : M (nat * list path) :=
  match templates_found with
  | [] => ret (templates_processed, failed_templates)
  | (template_file, _) :: rest =>
      ok <- process_template_file template_file env_files;;
      if ok then
        process_found env_files rest (S templates_processed) failed_templates
      else
        process_found env_files rest templates_processed
          (failed_templates ++ [template_file])
  end.

Fixpoint report_rollbacks (failed_templates : list path)
    (rollback_info : list (path * path)) : M unit :=
  match failed_templates with
  | [] => ret tt
  | failed_template :: rest =>
      match dict_get eqb_path failed_template rollback_info with
      | Some rollback_path =>
          print (MsgRollbackAvailable failed_template rollback_path)
      | None => ret tt
      end;;;
      report_rollbacks rest rollback_info
  end.

Fixpoint cleanup_rollbacks (failed_templates : list path)
    (rollback_info : list (path * path)) : M unit :=
  match rollback_info with
  | [] => ret tt
  | (template_file, rollback_path) :: rest =>
      (if existsb (eqb_path template_file) failed_templates then ret tt
       else try_except (unlink rollback_path) all_exceptions
              (fun _ => ret tt));;;
      cleanup_rollbacks failed_templates rest
  end.

(** [process_synced_templates(synced_files, config)]: the number of
    templates processed. *)
Definition process_synced_templates (synced_files : list (text * text))
    : M nat :=
  if is_empty synced_files then ret 0%nat
  else
    let env_files := get_secrets_files os in
    found <- scan_templates synced_files [] [];;
    let '(templates_found, rollback_info) := found in
    if is_empty templates_found then ret 0%nat
    else
      done <- process_found env_files templates_found 0 [];;
      let '(templates_processed, failed_templates) := done in
      (if negb (is_empty failed_templates) && negb (is_empty rollback_info)
       then report_rollbacks failed_templates rollback_info
       else ret tt);;;
      cleanup_rollbacks failed_templates rollback_info;;;
      print (MsgTemplatesCompleted templates_processed
               (length templates_found));;;
      ret templates_processed.

End Templates.

(** ** The sync engine *)

Inductive choice := keep | replace | backup_replace | view | quit | skip.

Inductive status := new | modified | binary | directory.

Inductive strategy := ask | replace_all | skip_all.

Definition eqb_status (a b : status) : bool :=
  match a, b with
  | new, new | modified, modified | binary, binary | directory, directory => true
  | _, _ => false
  end.

(** One answer at the prompt of [prompt_user_choice]; [None] is an invalid
    choice, after which the prompt is shown again. *)
Definition read_answer (line : text) : option choice :=
  let c := strip (lower line) in
  if is_empty c || eqb_text c (T "k") then Some keep
  else if eqb_text c (T "r") then Some replace
  else if eqb_text c (T "b") then Some backup_replace
  else if eqb_text c (T "v") then Some view
  else if eqb_text c (T "q") then Some quit
  else None.

(** The prompt loop of [prompt_user_choice(file_path, True)] on the lines
    the terminal holds: the choice, or [EOFError] when the lines run out, and
    the lines left. *)
Fixpoint prompt_loop (lines : list text) : (exn + choice) * list text :=
  match lines with
  | [] => (inl EOFError, [])
  | l :: rest =>
      match read_answer l with
      | Some c => (inr c, rest)
      | None => prompt_loop rest
      end
  end.

(** [prompt_user_choice(file_path, has_diff)] *)
Definition prompt_user_choice (has_diff : bool) : M choice :=
  if negb has_diff then ret skip
  else fun st =>
         let (r, rest) := prompt_loop (stdin st) in
         (r, mkState (fs st) (journal st) rest).

(** The review loop of [sync_from_repo] for one modified file: the diff is
    shown again for as long as the answer is [view]. *)
Equations? review_loop (lines : list text) : (exn + choice) * list text
    by wf (length lines) lt :=
  review_loop lines with inspect (prompt_loop lines) := {
    | exist _ (inr view, rest) _ => review_loop rest
    | exist _ r _ => r }.
Proof.
  (* an answer was read, so the lines left are fewer *)
  match goal with H : prompt_loop _ = _ |- _ => revert H end.
  clear review_loop. revert rest.
  induction lines as [|l lines IH]; simpl; intros rest; [discriminate|].
  destruct (read_answer l).
  - intros [= _ <-]. lia.
  - intros H. specialize (IH _ H). lia.
Qed.

Definition review : M choice :=
  fun st =>
    let (r, rest) := review_loop (stdin st) in
    (r, mkState (fs st) (journal st) rest).

Section Sync.

Variable os : oracle.

(** The source [sync_from_repo] takes for one entry of [file_map], and
    the repo path it shows for it. *)
Definition resolve_source (config : DotfilesConfig)
    (repo_path dest_path : text) : M (path * text) :=
  match custom_map config !! dest_path with
  | Some custom_path =>
      let custom_file := joinpath (custom_dir config) custom_path in
      n <- get_fs;;
      if exists_ n custom_file then
        ret (custom_file, T "custom:" ++ custom_path)
      else
        print (WarnCustomNotFound custom_file);;;
        ret (joinpath (repo_dir config) repo_path, repo_path)
  | None => ret (joinpath (repo_dir config) repo_path, repo_path)
  end.

(** The source the later passes take for the repo path shown. *)
Definition source_of (config : DotfilesConfig) (repo_path : text) : path :=
  if startswith (T "custom:") repo_path
  then joinpath (custom_dir config) (drop 7 repo_path)
  else joinpath (repo_dir config) repo_path.

Definition compare_files (n : node) (source_file dest_file : path)
    : option status :=
  if is_dir n source_file || is_dir n dest_file then Some directory
  else
    match read_text n source_file, read_text n dest_file with
    | inr source_content, inr dest_content =>
        if eqb_text source_content dest_content then None
        else Some modified
    | _, _ => Some binary
    end.

(** First pass: either the status the function returns at once, or the
    files to sync and the identical ones. *)
Fixpoint analyze (config : DotfilesConfig) (items : list (text * text))
    (files_to_sync : list (text * text * status))
    (files_identical : list (text * text))
    : M (Z + list (text * text * status) * list (text * text)) :=
  match items with
  | [] => ret (inr (files_to_sync, files_identical))
  | (repo_path0, dest_path) :: rest =>
      src <- resolve_source config repo_path0 dest_path;;
      let '(source_file, repo_path) := src in
      let dest_file := joinpath (home os) dest_path in
      n <- get_fs;;
      if negb (exists_ n source_file) then
        print (ErrSourceNotFound repo_path);;;
        analyze config rest files_to_sync files_identical
      else if eqb_path dest_file (home os) then
        print ErrRefuseHome;;; ret (inl 1%Z)
      else if negb (is_prefix (home os) dest_file) then
        print (ErrOutsideHome dest_file);;; ret (inl 1%Z)
      else if exists_ n dest_file then
        match compare_files n source_file dest_file with
        | Some st =>
            analyze config rest
              (files_to_sync ++ [(repo_path, dest_path, st)]) files_identical
        | None =>
            analyze config rest files_to_sync
              (files_identical ++ [(repo_path, dest_path)])
        end
      else
        analyze config rest (files_to_sync ++ [(repo_path, dest_path, new)])
          files_identical
  end.

(** The preview loop: [None] when the user quits. *)
Fixpoint preview_loop (config : DotfilesConfig) (strat : strategy)
    (files_to_sync : list (text * text * status))
    (actions : gmap text choice) : M (option (gmap text choice)) :=
  match files_to_sync with
  | [] => ret (Some actions)
  | (repo_path, dest_path, st) :: rest =>
      let source_file := source_of config repo_path in
      let dest_file := joinpath (home os) dest_path in
      match st, strat with
      | modified, ask =>
          c <- try_except
                 (n <- get_fs;;
                  source_content <- lift (read_text n source_file);;
                  dest_content <- lift (read_text n dest_file);;
                  c <- review;;
                  ret (Some c))
                 all_exceptions
                 (fun _ => ret None);;
          match c with
          | Some quit => print MsgSyncCancelled;;; ret None
          | Some c => preview_loop config strat rest (<[repo_path := c]> actions)
          | None =>
              preview_loop config strat rest (<[repo_path := replace]> actions)
          end
      | _, _ =>
          preview_loop config strat rest
            (<[repo_path := match strat with
                            | skip_all => keep
                            | _ => replace
                            end]> actions)
      end
  end.

(** The confirmation before any change. *)
Definition confirm (strat : strategy) : M bool :=
  match strat with
  | ask =>
      answer <- input;;
      if eqb_text (strip (lower answer)) (T "y") then ret true
      else print MsgSyncCancelled;;; ret false
  | _ => ret true
  end.

Definition default_actions (strat : strategy)
    (files_to_sync : list (text * text * status)) : gmap text choice :=
  foldl (fun actions (e : text * text * status) =>
           <[e.1.1 := match strat with skip_all => keep | _ => replace end]>
             actions)
    ∅ files_to_sync.

(** Is the destination copied to the backup directory first? *)
Definition wants_backup (n : node) (dest_file : path) (action : choice)
    (st : status) (force : bool) : bool :=
  exists_ n dest_file
  && match action with backup_replace | replace => true | _ => false end
  && (match action with backup_replace => true | _ => false end
      || (eqb_status st modified && negb force)).

Definition backup_existing (backup : path) (force : bool)
    (dest_path : text) (st : status) (action : choice) : M unit :=
  let dest_file := joinpath (home os) dest_path in
  n <- get_fs;;
  if wants_backup n dest_file action st force then
    let backup_path := joinpath backup dest_path in
    mkdir (parent backup_path);;;
    print (MsgBackingUp dest_path);;;
    n1 <- get_fs;;
    if is_dir n1 dest_file then
      (if exists_ n1 backup_path then rmtree backup_path else ret tt);;;
      copytree dest_file backup_path
    else copy2 dest_file backup_path
  else ret tt.

Definition copy_to_destination (config : DotfilesConfig)
    (repo_path dest_path : text) : M unit :=
  let source_file := source_of config repo_path in
  let dest_file := joinpath (home os) dest_path in
  mkdir (parent dest_file);;;
  print (MsgSyncing repo_path dest_path);;;
  n <- get_fs;;
  if is_dir n source_file then
    (if exists_ n dest_file then rmtree dest_file else ret tt);;;
    copytree source_file dest_file
  else copy2 source_file dest_file.

(** The apply loop: the files that were skipped and the files that were
    synced. *)
Fixpoint apply_changes (config : DotfilesConfig) (backup : path)
    (force : bool) (actions : gmap text choice)
    (files_to_sync : list (text * text * status))
    (files_skipped : list text) (files_synced : list (text * text))
    : M (list text * list (text * text)) :=
  match files_to_sync with
  | [] => ret (files_skipped, files_synced)
  | (repo_path, dest_path, st) :: rest =>
      let action := default keep (actions !! repo_path) in
      match action with
      | keep =>
          apply_changes config backup force actions rest
            (files_skipped ++ [repo_path]) files_synced
      | _ =>
          backup_existing backup force dest_path st action;;;
          copy_to_destination config repo_path dest_path;;;
          apply_changes config backup force actions rest files_skipped
            (files_synced ++ [(repo_path, dest_path)])
      end
  end.

(** The part of [sync_from_repo] under "Preview mode or interactive mode":
    the actions to apply, or [None] when the user quits a review or declines
    the confirmation. *)
Definition plan_changes (config : DotfilesConfig) (preview : bool)
    (strat : strategy) (force : bool)
    (files_to_sync : list (text * text * status))
    : M (option (gmap text choice)) :=
  if preview && negb force then
    actions <- preview_loop config strat files_to_sync ∅;;
    match actions with
    | None => ret None
    | Some actions =>
        go <- confirm strat;;
        ret (if go then Some actions else None)
    end
  else ret (Some (default_actions strat files_to_sync)).

(** The part under "Apply changes", to the end of the function. *)
Definition apply_and_finish (config : DotfilesConfig) (backup : path)
    (force : bool) (process_templates : bool) (actions : gmap text choice)
    (files_to_sync : list (text * text * status)) : M Z :=
  applied <- apply_changes config backup force actions files_to_sync [] [];;
  let '(files_skipped, files_synced) := applied in
  (if process_templates && negb (is_empty files_synced)
   then process_synced_templates os files_synced
   else ret 0%nat);;;
  print MsgSyncCompleted;;;
  ret 0%Z.

(** [sync_from_repo(config, backup_dir, preview, strategy, force,
    process_templates)]: the status returned. *)
Definition sync_from_repo (config : DotfilesConfig)
    (backup_dir_arg : option path) (preview : bool) (strat : strategy)
    (force : bool) (process_templates : bool) : M Z :=
  let backup := match backup_dir_arg with
                | None => backup_dir config
                | Some b => b
                end in
  let preview := if force then false else preview in
  mkdir backup;;;
  analysis <- analyze config (file_map config) [] [];;
  match analysis with
  | inl code => ret code
  | inr (files_to_sync, files_identical) =>
      if is_empty files_to_sync then print MsgAllUpToDate;;; ret 0%Z
      else
        plan <- plan_changes config preview strat force files_to_sync;;
        match plan with
        | None => ret 0%Z
        | Some actions =>
            apply_and_finish config backup force process_templates actions
              files_to_sync
        end
  end.

(** [main()] called with [--sync-from-repo]: the exit status of the
    process. *)
Definition main_sync_from_repo (script_dir : path) (config_arg : option path)
    (backup_dir_arg : option path) (arg_force arg_no_preview : bool)
    (strat : strategy) (process_templates : bool) : M Z :=
  try_except
    (config <- parse_config (new_config os script_dir config_arg);;
     n <- get_fs;;
     let errors := validate config n in
     if negb (is_empty errors) then
       print (ErrValidation (length errors));;; ret 1%Z
     else
       let preview := negb (arg_force || arg_no_preview) in
       sync_from_repo config backup_dir_arg preview strat arg_force
         process_templates)
    all_exceptions
    (fun e => print (ErrException e);;; ret 1%Z).

End Sync.


(** ** The vocabulary of the specification *)

(** [sub] occurs in [s]. *)
Definition occurs (sub s : text) : Prop :=
  exists pre post, s = pre ++ sub ++ post.

(** A name: one of [A-Za-z_], then any number of [A-Za-z0-9_]. *)
Definition valid_name (nm : text) : Prop :=
  exists c tl, nm = c :: tl /\ ident_start c = true
               /\ forallb ident_char tl = true.

(** The literal text of a placeholder: a dollar sign, the name in braces. *)
Definition placeholder (nm : text) : text :=
  DOLLAR :: LBRACE :: nm ++ [RBRACE].

(** A character that text mode leaves alone. *)
Definition plain (c : char) : Prop := c <> CR /\ c <> LF.

Definition spaces (ws : text) : Prop := forallb isspace ws = true.

(** A destination the first pass accepts: under the home directory, and not
    the home directory itself. *)
Definition safe_destination (os : oracle) (dest_path : text) : bool :=
  negb (eqb_path (joinpath (home os) dest_path) (home os))
  && is_prefix (home os) (joinpath (home os) dest_path).

(** The dangerous patterns, said without the matcher. *)
Inductive dangerous_text (s : text) : Prop :=
| shell_metacharacter (c : char) :
    In c s -> is_shell_meta c = true -> dangerous_text s
| command_substitution : occurs (T "$(") s -> dangerous_text s
| backtick : occurs (T "`") s -> dangerous_text s
| eval_statement (w : char) :
    isspace w = true -> occurs (T "eval" ++ [w]) s -> dangerous_text s
| exec_statement (w : char) :
    isspace w = true -> occurs (T "exec" ++ [w]) s -> dangerous_text s
| pipe_to_shell (ws : text) :
    spaces ws -> occurs (T "|" ++ ws ++ T "sh") s -> dangerous_text s
| redirection_to_device (ws : text) :
    spaces ws -> occurs (T ">" ++ ws ++ T "/dev/") s -> dangerous_text s
| recursive_removal (ws : text) :
    spaces ws -> ws <> [] -> occurs (T "rm" ++ ws ++ T "-rf") s ->
    dangerous_text s.

(** The two shapes of a line that counts as valid: [KEY=VALUE] and
    [export KEY=VALUE]. *)
Definition assignment_line (l : text) : Prop :=
  exists key value, valid_name key /\ l = key ++ EQUALS :: value.

Definition export_line (l : text) : Prop :=
  exists ws key value,
    spaces ws /\ ws <> [] /\ valid_name key
    /\ l = T "export" ++ ws ++ key ++ EQUALS :: value.

(** ** Scenarios *)

(** A literal in which an apostrophe stands for a double quote. *)
Definition TQ (s : string) : text :=
  List.map (fun c => if c =? 39 then 34 else c) (T s).

(** A disk that holds one file, [/f]. *)
Definition only_file : path := [T "f"].
Definition disk_with (d : data) : node := Dir [(T "f", File d 0)].
Definition on_disk (d : data) : state := mkState (disk_with d) [] [].

(** How a line of the mapping file reads, once stripped: [repoPath:destPath],
    split at the first colon, or [custom:customName:destPath], split at the
    last one; the parts are stripped and not empty. *)
Inductive mapping_entry :=
| RegularEntry (repoPath destPath : text)
| OverlayEntry (customName destPath : text).

Definition reads_as (raw : text) (e : mapping_entry) : Prop :=
  match e with
  | RegularEntry repoPath destPath =>
      startswith (T "#") (strip raw) = false
      /\ startswith (T "custom:") (strip raw) = false
      /\ exists r d,
           strip raw = r ++ COLON :: d /\ ~ In COLON r
           /\ repoPath = strip r /\ destPath = strip d
           /\ repoPath <> [] /\ destPath <> []
  | OverlayEntry customName destPath =>
      exists nm d,
        strip raw = T "custom:" ++ nm ++ COLON :: d /\ ~ In COLON d
        /\ customName = strip nm /\ destPath = strip d
        /\ customName <> [] /\ destPath <> []
  end.

(** A path with a [..] segment. *)
Definition has_dotdot_segment (p : text) : Prop := In (T "..") (split SLASH p).

Definition unsafe_entry (e : mapping_entry) : Prop :=
  match e with
  | RegularEntry src destPath | OverlayEntry src destPath =>
      destPath = T "/" \/ destPath = T "~"
      \/ has_dotdot_segment src \/ has_dotdot_segment destPath
  end.

(** The state after some messages were printed. *)
Definition printed (st : state) (ms : list message) : state :=
  mkState (fs st) (journal st ++ List.map Printed ms) (stdin st).

(** An environment: the home directory is [/home/u], [envsubst] is there,
    and the substitution step answers every template with the output
    [output] and the status [returncode]. *)
Definition env_with (returncode : Z) (output : option data) : oracle :=
  {| home := [T "home"; T "u"];
     stamp := 9;
     tmpname := fun _ _ suffix => T "tmp" ++ suffix;
     envsubst_help := None;
     shell := fun _ _ _ => ShellExited returncode output |}.

Definition demo_os : oracle := env_with 0 (Some (Utf8 [])).

(** A disk with a repository [/repo] that holds [dotfiles.conf] and the
    sources [HOME/...], and a home directory [/home/u]. *)
Definition disk (conf : text) (sources home_files : list (name * node)) : node :=
  Dir [ (T "repo", Dir [ (T "dotfiles.conf", File (Utf8 conf) 1);
                         (T "HOME", Dir sources) ]);
        (T "home", Dir [ (T "u", Dir home_files) ]) ].

Definition conf_path : path := [T "repo"; T "dotfiles.conf"].
Definition backup_root : path := [T "bk"].

(** The library calls among some events, in order. *)
Definition calls (evs : list event) : list fsop :=
  flat_map (fun ev => match ev with Called op => [op] | Printed _ => [] end) evs.

(** The state after a call was recorded and the file system changed. *)
Definition called (st : state) (op : fsop) (n : node) : state :=
  mkState n (journal st ++ [Called op]) (stdin st).

(** [m] takes every state to one that [R] relates to it. *)
Definition steps (R : state -> state -> Prop) {A} (m : M A) : Prop :=
  forall st, R st (m st).2.

(** From [s] to [s'] the file system changes as [Q] allows, and the journal
    grows by events that satisfy [P]. *)
Definition grows (Q : node -> node -> Prop) (P : event -> Prop)
    (s s' : state) : Prop :=
  Q (fs s) (fs s')
  /\ exists evs, journal s' = journal s ++ evs /\ Forall P evs.

Definition any_change (_ _ : node) : Prop := True.
Definition not_cancelled (ev : event) : Prop := ev <> Printed MsgSyncCancelled.
Definition no_call (ev : event) : Prop := forall op, ev <> Called op.

(** The scenario of the tests: the mapping [HOME/testfile:.testfile], the
    repository file holds "repo content", the destination "system content". *)
Definition scenario_conf : text := T "HOME/testfile:.testfile" ++ [LF].
Definition repo_content : text := T "repo content" ++ [LF].
Definition system_content : text := T "system content" ++ [LF].

Definition scenario_disk : node :=
  disk scenario_conf
    [(T "testfile", File (Utf8 repo_content) 2)]
    [(T ".testfile", File (Utf8 system_content) 3)].

Definition scenario_config : DotfilesConfig :=
  (parse_lines (new_config demo_os [T "repo"] (Some conf_path)) 1
     (file_lines scenario_conf)).2.

(** The scenario, with the answers the user will type. *)
Definition scenario (answers : list text) : state :=
  mkState scenario_disk [] answers.

Definition dest_testfile : path := [T "home"; T "u"; T ".testfile"].
Definition backup_testfile : path := backup_root ++ [T ".testfile"].

(** The same mapping with a repository file that is a template. *)
Definition template_disk : node :=
  disk scenario_conf [(T "testfile", File (Utf8 (T "${V}")) 2)] [].

(** The same mapping with no source in the repository. *)
Definition missing_disk : node := disk scenario_conf [] [].

(** A configuration whose only entry has no source in the repository. *)
Definition missing_config : DotfilesConfig :=
  add_regular (new_config demo_os [T "repo"] (Some conf_path))
    (T "missing/file") (T ".missing").

(** A destination with a regular entry and an overlay entry; the overlay
    directory holds [custom_files]. *)
Definition overlay_conf : text :=
  T "HOME/testfile:.testfile" ++ [LF]
  ++ T "custom:my-custom.txt:.testfile" ++ [LF].

Definition overlay_config : DotfilesConfig :=
  (parse_lines (new_config demo_os [T "repo"] (Some conf_path)) 1
     (file_lines overlay_conf)).2.

Definition overlay_disk (custom_files : list (name * node)) : node :=
  disk overlay_conf
    [(T "testfile", File (Utf8 repo_content) 2)]
    [(T ".config", Dir [(T "dotfiles.custom", Dir custom_files)])].

Definition custom_content : text := T "custom content" ++ [LF].
Definition my_custom : path :=
  [T "home"; T "u"; T ".config"; T "dotfiles.custom"; T "my-custom.txt"].

(** Computations that may change the file system and do not print that the
    sync was cancelled. *)
Abbreviation quiet := (steps (grows any_change not_cancelled)).

(** Computations that leave the file system alone, make no call and do not
    print that the sync was cancelled. *)
Abbreviation readonly :=
  (steps (grows eq (fun ev => no_call ev /\ not_cancelled ev))).

(** ** The terminal *)

(** The lines left on the terminal are an end of the lines there were. *)
Definition reads (s s' : state) : Prop :=
  exists used, stdin s = used ++ stdin s'.

(** The terminal is not read. *)
Definition silent (s s' : state) : Prop := stdin s' = stdin s.

(** ** The shell arrays *)

(** [sep.join(items)] *)
Fixpoint join (sep : text) (items : list text) : text :=
  match items with
  | [] => []
  | [x] => x
  | x :: rest => x ++ sep ++ join sep rest
  end.

(** The item between double quotes, as the f-strings of
    [generate_shell_arrays] write it. *)
Definition quoted (item : text) : text := TQ "'" ++ item ++ TQ "'".

Inductive shell_arrays_error :=
| UnsupportedShell (shell : text)        (* the [ValueError] *)
| KeyError (item : text).               (* [self.file_map[item]] *)

(** [[self.file_map[item] for item in self.dotfiles]] *)
Fixpoint dests_of (file_map : list (text * text)) (dotfiles : list text)
    : shell_arrays_error + list text :=
  match dotfiles with
  | [] => inr []
  | item :: rest =>
      match dict_get eqb_text item file_map with
      | None => inl (KeyError item)
      | Some dest =>
          match dests_of file_map rest with
          | inl e => inl e
          | inr dests => inr (dest :: dests)
          end
      end
  end.

(** [self.generate_shell_arrays(shell)] *)
Definition generate_shell_arrays (self : DotfilesConfig) (shell : text)
    : shell_arrays_error + text :=
  if existsb (eqb_text (lower shell)) [T "zsh"; T "bash"] then
    let repo_array :=
      T "DOTFILES_REPO_PATHS=(" ++ join (T " ") (List.map quoted (dotfiles self))
      ++ T ")" ++ [LF] in
    match dests_of (file_map self) (dotfiles self) with
    | inl e => inl e
    | inr dests =>
        let dest_array :=
          T "DOTFILES_DEST_PATHS=(" ++ join (T " ") (List.map quoted dests)
          ++ T ")" ++ [LF] in
        inr (repo_array ++ dest_array)
    end
  else inl (UnsupportedShell shell).

(** ** Collecting system files into the repository *)

Section Collect.

Variable os : oracle.

(** The loop of [sync_to_repo] over the entries of [file_map].  The lines
    it prints ([WARNING: System file not found], [Collecting]) are not
    recorded in the journal. *)
Fixpoint collect (config : DotfilesConfig) (items : list (text * text))
    : M unit :=
  match items with
  | [] => ret tt
  | (repo_path, dest_path) :: rest =>
      let source_file := joinpath (home os) dest_path in
      let repo_file := joinpath (repo_dir config) repo_path in
      n <- get_fs;;
      if negb (exists_ n source_file) then collect config rest
      else
        (if is_dir n source_file then
           (if exists_ n repo_file then rmtree repo_file else ret tt);;;
           copytree source_file repo_file
         else
           mkdir (parent repo_file);;;
           copy2 source_file repo_file);;;
        collect config rest
  end.

(** [sync_to_repo(config)] *)
Definition sync_to_repo (config : DotfilesConfig) : M Z :=
  collect config (file_map config);;;
  ret 0%Z.

End Collect.

(** Neither path is above the other, nor are they equal. *)
Definition apart (p q : path) : Prop :=
  is_prefix p q = false /\ is_prefix q p = false.

(** The node at [q] is the same in both states. *)
Definition keeps (q : path) (s s' : state) : Prop :=
  lookup (fs s') q = lookup (fs s) q.

(** Paths that lie apart two by two. *)
Fixpoint pairwise_apart (ps : list path) : Prop :=
  match ps with
  | [] => True
  | p :: rest => Forall (apart p) rest /\ pairwise_apart rest
  end.

(** From the file system [n0] to [n], every file of [n0] outside [written]
    is as it was, and whatever exists in [n] existed in [n0] or is one of
    [temps], which are no files of [n0]. *)
Definition untouched (n0 : node) (written temps : list path) (n : node)
    : Prop :=
  (forall q d m, lookup n0 q = Some (File d m) -> ~ In q written ->
                 lookup n q = Some (File d m))
  /\ (forall q, exists_ n q = true -> exists_ n0 q = true \/ In q temps)
  /\ Forall (fun p => is_file n0 p = false) temps.

(* ===================================================================== *)
(** * Part II: lemmas and theorems                                        *)
(* ===================================================================== *)

(** ** Facts on strings *)

Lemma eqb_text_eq (a b : text) : eqb_text a b = true <-> a = b.
Proof.
  revert b; induction a as [|x a IH]; intros [|y b]; simpl; try easy.
  rewrite andb_true_iff, N.eqb_eq, IH. split.
  - intros [-> ->]; reflexivity.
  - intros [= -> ->]; auto.
Qed.

Lemma span_spec (p : char -> bool) (s a b : text) :
  span p s = (a, b) ->
  s = a ++ b /\ forallb p a = true /\
  match b with c :: _ => p c = false | [] => True end.
Proof.
  revert a b; induction s as [|c s IH]; simpl; intros a b.
  - intros [= <- <-]; auto.
  - destruct (p c) eqn:Hc.
    + destruct (span p s) as [a' b'] eqn:Hs.
      intros [= <- <-]. destruct (IH _ _ eq_refl) as (-> & Ha & Hb).
      simpl; rewrite Hc, Ha; auto.
    + intros [= <- <-]; simpl; auto.
Qed.

Lemma span_app (p : char -> bool) (a : text) (c : char) (b : text) :
  forallb p a = true -> p c = false -> span p (a ++ c :: b) = (a, c :: b).
Proof.
  intros Ha Hc; induction a as [|x a IH]; simpl in *.
  - rewrite Hc; reflexivity.
  - apply andb_true_iff in Ha as [Hx Ha]. rewrite Hx, (IH Ha); reflexivity.
Qed.

(** ** Template detection *)

Lemma match_template_var_sound (s name rest : text) :
  match_template_var s = Some (name, rest) ->
  valid_name name /\ s = placeholder name ++ rest.
Proof.
  destruct s as [|d [|b [|c s']]]; simpl; try discriminate.
  destruct (d =? DOLLAR) eqn:Hd; [|discriminate].
  destruct (b =? LBRACE) eqn:Hb; [|discriminate].
  destruct (ident_start c) eqn:Hc; [|discriminate]. simpl.
  destruct (span ident_char s') as [a r] eqn:Hs.
  apply span_spec in Hs as (-> & Ha & _).
  destruct r as [|e r']; [discriminate|].
  destruct (e =? RBRACE) eqn:He; [|discriminate].
  intros [= <- <-].
  apply N.eqb_eq in Hd, Hb, He; subst.
  split; [exists c, a; auto|].
  unfold placeholder; simpl. rewrite <- app_assoc. reflexivity.
Qed.

Lemma match_template_var_complete (name post : text) :
  valid_name name ->
  match_template_var (placeholder name ++ post) = Some (name, post).
Proof.
  intros (c & tl & -> & Hc & Htl). unfold placeholder; simpl.
  rewrite Hc; simpl. rewrite <- app_assoc; simpl.
  rewrite (span_app ident_char tl RBRACE post Htl eq_refl). reflexivity.
Qed.

Lemma ident_char_not_dollar (c : char) : ident_char c = true -> c <> DOLLAR.
Proof. intros H ->. vm_compute in H. discriminate H. Qed.

Lemma forallb_ident_not_dollar (a : text) :
  forallb ident_char a = true -> Forall (fun c => c <> DOLLAR) a.
Proof.
  induction a as [|c a IH]; simpl; [constructor|].
  intros [Hc Ha]%andb_true_iff.
  constructor; [now apply ident_char_not_dollar | now apply IH].
Qed.

Lemma app_eq_skip (d : char) (a rest pre x : text) :
  Forall (fun c => c <> d) a ->
  a ++ rest = pre ++ d :: x ->
  exists pre', pre = a ++ pre' /\ rest = pre' ++ d :: x.
Proof.
  intros Ha; revert pre; induction Ha as [|c a Hc Ha IH]; intros pre; simpl.
  - intros ->. now exists pre.
  - destruct pre as [|y pre]; simpl; intros [= E1 E2]; [congruence|].
    subst y. destruct (IH _ E2) as (pre' & -> & ->). now exists pre'.
Qed.

Lemma placeholder_skip (name rest pre x : text) :
  valid_name name -> pre <> [] ->
  placeholder name ++ rest = pre ++ DOLLAR :: x ->
  exists pre', pre = placeholder name ++ pre' /\ rest = pre' ++ DOLLAR :: x.
Proof.
  intros (c & tl & -> & Hc & Htl) Hpre.
  destruct pre as [|y pre]; [congruence|].
  unfold placeholder; simpl. intros [= <- E].
  assert (Hno : Forall (fun c0 => c0 <> DOLLAR) (LBRACE :: c :: tl ++ [RBRACE])).
  { constructor; [discriminate|]. constructor.
    - apply ident_char_not_dollar. unfold ident_char. now rewrite Hc.
    - apply Forall_app; split; [now apply forallb_ident_not_dollar|].
      constructor; [discriminate|constructor]. }
  change (LBRACE :: (c :: tl ++ [RBRACE]) ++ rest)
    with ((LBRACE :: c :: tl ++ [RBRACE]) ++ rest) in E.
  destruct (app_eq_skip _ _ _ _ _ Hno E) as (pre' & -> & ->).
  now exists pre'.
Qed.

Lemma findall_template_vars_sound (s name : text) :
  In name (findall_template_vars s) ->
  valid_name name /\ occurs (placeholder name) s.
Proof.
  revert name. funelim (findall_template_vars s); intros nm.
  - intros [].
  - clear Heqcall H0. apply match_template_var_sound in e as [Hv Hs].
    intros [<- | Hin].
    + split; [assumption|]. exists [], rest. now rewrite Hs.
    + destruct (H _ Hin) as (Hv' & pre & post & ->).
      split; [assumption|]. exists (placeholder name0 ++ pre), post.
      rewrite Hs. now rewrite <- app_assoc.
  - clear Heqcall H0. intros Hin.
    destruct (H _ Hin) as (Hv' & pre & post & ->).
    split; [assumption|]. now exists (c :: pre), post.
Qed.

Lemma placeholder_inj (a b x y : text) :
  valid_name a -> valid_name b ->
  placeholder a ++ x = placeholder b ++ y -> a = b.
Proof.
  intros Ha Hb E.
  pose proof (match_template_var_complete a x Ha) as H1.
  pose proof (match_template_var_complete b y Hb) as H2.
  rewrite E in H1. congruence.
Qed.

Lemma findall_template_vars_complete (s nm : text) :
  valid_name nm -> occurs (placeholder nm) s ->
  In nm (findall_template_vars s).
Proof.
  intros Hv. funelim (findall_template_vars s); intros (pre & post & E).
  - destruct pre; discriminate E.
  - clear Heqcall H0. pose proof e as e'.
    apply match_template_var_sound in e' as [Hv0 Hs].
    destruct pre as [|y pre].
    + change (c :: s' = placeholder nm ++ post) in E. rewrite E in Hs.
      left. symmetry. exact (placeholder_inj nm name0 post rest Hv Hv0 Hs).
    + right. apply H; [assumption|].
      rewrite Hs in E.
      destruct (placeholder_skip name0 rest (y :: pre)
                  (LBRACE :: nm ++ [RBRACE] ++ post) Hv0) as (pre' & _ & ->);
        [discriminate| |].
      * rewrite E. unfold placeholder. simpl. now rewrite <- !app_assoc.
      * exists pre', post. unfold placeholder. simpl. now rewrite <- !app_assoc.
  - clear Heqcall H0. destruct pre as [|y pre].
    + change (c :: s' = placeholder nm ++ post) in E. rewrite E in e.
      rewrite (match_template_var_complete _ _ Hv) in e. discriminate.
    + injection E as -> ->. apply H; [assumption|]. now exists pre, post.
Qed.

Theorem findall_template_vars_spec (s name : text) :
  In name (findall_template_vars s) <->
  valid_name name /\ occurs (placeholder name) s.
Proof.
  split; [apply findall_template_vars_sound|].
  intros [Hv Ho]; now apply findall_template_vars_complete.
Qed.

(** Reading in text mode neither adds nor removes a placeholder. *)

Lemma universal_newlines_ind (P : text -> Prop) :
  P [] ->
  (forall c s, c <> CR -> P s -> P (c :: s)) ->
  P [CR] ->
  (forall s, P s -> P (CR :: LF :: s)) ->
  (forall d s, d <> LF -> P (d :: s) -> P (CR :: d :: s)) ->
  forall s, P s.
Proof.
  intros H0 H1 H2 H3 H4 s.
  assert (Hlen : forall k s, (length s <= k)%nat -> P s).
  { clear s. induction k as [|k IH]; intros [|c s] Hl; simpl in Hl;
      try assumption; try lia.
    destruct (N.eq_dec c CR) as [->|Hc].
    - destruct s as [|d s]; [assumption|].
      destruct (N.eq_dec d LF) as [->|Hd].
      + apply H3, IH. simpl in Hl. lia.
      + apply H4; [assumption|]. apply IH. lia.
    - apply H1; [assumption|]. apply IH. lia. }
  apply (Hlen (length s)). lia.
Qed.

Lemma universal_newlines_other (c : char) (s : text) :
  c <> CR -> universal_newlines (c :: s) = c :: universal_newlines s.
Proof. intros Hc. simpl. apply N.eqb_neq in Hc. now rewrite Hc. Qed.

Lemma universal_newlines_crlf (s : text) :
  universal_newlines (CR :: LF :: s) = LF :: universal_newlines s.
Proof. reflexivity. Qed.

Lemma universal_newlines_cr (d : char) (s : text) :
  d <> LF ->
  universal_newlines (CR :: d :: s) = LF :: universal_newlines (d :: s).
Proof.
  intros Hd. apply N.eqb_neq in Hd.
  change (universal_newlines (CR :: d :: s))
    with (LF :: (if d =? LF then universal_newlines s
                 else universal_newlines (d :: s))).
  now rewrite Hd.
Qed.

Lemma universal_newlines_plain_app (pat s : text) :
  Forall plain pat ->
  universal_newlines (pat ++ s) = pat ++ universal_newlines s.
Proof.
  induction 1 as [|c pat [Hc _] _ IH]; [reflexivity|].
  rewrite <- app_comm_cons, universal_newlines_other by assumption.
  now rewrite IH.
Qed.

Lemma universal_newlines_app (a b : text) :
  match b with d :: _ => d <> LF | [] => True end ->
  universal_newlines (a ++ b) = universal_newlines a ++ universal_newlines b.
Proof.
  intros Hb. induction a as [| c a Hc IH | | a IH | d a Hd IH]
    using universal_newlines_ind.
  - reflexivity.
  - rewrite <- app_comm_cons, !universal_newlines_other by assumption.
    now rewrite IH.
  - destruct b as [|d b]; [reflexivity|].
    change ([CR] ++ d :: b) with (CR :: d :: b).
    now rewrite universal_newlines_cr.
  - change ((CR :: LF :: a) ++ b) with (CR :: LF :: (a ++ b)).
    rewrite !universal_newlines_crlf. now rewrite IH.
  - change ((CR :: d :: a) ++ b) with (CR :: (d :: a) ++ b).
    change ((d :: a) ++ b) with (d :: (a ++ b)) in *.
    rewrite !universal_newlines_cr by assumption.
    now rewrite IH.
Qed.

Lemma universal_newlines_prefix (pat s post' : text) :
  Forall plain pat ->
  universal_newlines s = pat ++ post' ->
  exists post, s = pat ++ post.
Proof.
  intros Hp; revert s; induction Hp as [|x pat [Hx1 Hx2] _ IH]; intros s E.
  - now exists s.
  - destruct s as [|c s]; [discriminate E|].
    destruct (N.eq_dec c CR) as [->|Hc].
    + exfalso. destruct s as [|d s]; [injection E; congruence|].
      simpl in E. destruct (d =? LF); injection E; congruence.
    + rewrite universal_newlines_other in E by assumption.
      injection E as -> E. destruct (IH _ E) as [post ->]. now exists post.
Qed.

Lemma occurs_universal_newlines (pat s : text) :
  Forall plain pat -> pat <> [] ->
  occurs pat (universal_newlines s) <-> occurs pat s.
Proof.
  intros Hp Hne. split.
  - intros (pre & post & E). revert pre E.
    induction s as [| c s Hc IH | | s IH | d s Hd IH]
      using universal_newlines_ind; intros pre E.
    + destruct pre, pat; try discriminate E. congruence.
    + destruct pre as [|y pre].
      * destruct (universal_newlines_prefix pat (c :: s) post Hp E) as [q ->].
        now exists [], q.
      * rewrite universal_newlines_other in E by assumption.
        injection E as <- E. destruct (IH _ E) as (a & b & ->).
        now exists (c :: a), b.
    + destruct pre as [|y pre].
      * destruct Hp as [|x pat [_ Hx] _]; [congruence|].
        injection E; congruence.
      * injection E as _ E. destruct pre, pat; try discriminate E. congruence.
    + rewrite universal_newlines_crlf in E. destruct pre as [|y pre].
      * destruct Hp as [|x pat [_ Hx] _]; [congruence|].
        injection E; congruence.
      * injection E as _ E. destruct (IH _ E) as (a & b & ->).
        now exists (CR :: LF :: a), b.
    + rewrite universal_newlines_cr in E by assumption.
      destruct pre as [|y pre].
      * destruct Hp as [|x pat [_ Hx] _]; [congruence|].
        injection E; congruence.
      * injection E as _ E. destruct (IH _ E) as (a & b & E').
        exists (CR :: a), b. simpl. now rewrite E'.
  - intros (pre & post & ->).
    rewrite universal_newlines_app.
    + rewrite universal_newlines_plain_app by assumption.
      now exists (universal_newlines pre), (universal_newlines post).
    + destruct Hp as [|x pat [_ Hx] _]; [congruence|]. exact Hx.
Qed.

Lemma placeholder_plain (nm : text) : valid_name nm -> Forall plain (placeholder nm).
Proof.
  intros (c & tl & -> & Hc & Htl).
  assert (Hid : forall x, ident_char x = true -> plain x).
  { intros x Hx. split; intros ->; vm_compute in Hx; discriminate. }
  unfold placeholder.
  constructor; [split; discriminate|].
  constructor; [split; discriminate|].
  apply Forall_app; split.
  - constructor.
    + apply Hid. unfold ident_char. now rewrite Hc.
    + clear Hc. induction tl as [|x tl IH]; [constructor|].
      simpl in Htl. apply andb_true_iff in Htl as [Hx Htl].
      constructor; [now apply Hid | now apply IH].
  - constructor; [split; discriminate|constructor].
Qed.

(** ** Facts on the pattern matcher *)

Module ReFacts.
Import Re.

Lemma match_star_intro (p : char -> bool) (k : text -> bool) (a b : text) :
  forallb p a = true -> k b = true -> match_star p k (a ++ b) = true.
Proof.
  intros Ha Hb; induction a as [|c a IH]; simpl in *.
  - destruct b; simpl; [assumption|]. rewrite Hb. apply orb_true_r.
  - apply andb_true_iff in Ha as [Hc Ha]. now rewrite Hc, (IH Ha).
Qed.

Lemma match_star_elim (p : char -> bool) (k : text -> bool) (s : text) :
  match_star p k s = true ->
  exists a b, s = a ++ b /\ forallb p a = true /\ k b = true.
Proof.
  induction s as [|c s IH]; simpl.
  - intros H. now exists [], [].
  - intros [[Hc H]%andb_true_iff | H]%orb_true_iff.
    + destruct (IH H) as (a & b & -> & Ha & Hb).
      exists (c :: a), b. simpl. now rewrite Hc, Ha.
    + now exists [], (c :: s).
Qed.

Lemma match_here_lit (t : text) (r : regex) (x : text) :
  match_here (List.map chr t ++ r) (t ++ x) = match_here r x.
Proof.
  induction t as [|c t IH]; simpl; [reflexivity|].
  now rewrite N.eqb_refl, IH.
Qed.

Lemma match_here_lit_inv (t : text) (r : regex) (x : text) :
  match_here (List.map chr t ++ r) x = true ->
  exists y, x = t ++ y /\ match_here r y = true.
Proof.
  revert x; induction t as [|c t IH]; simpl; intros x.
  - intros H. now exists x.
  - destruct x as [|d x]; [discriminate|].
    intros [Hc H]%andb_true_iff. apply N.eqb_eq in Hc as <-.
    destruct (IH _ H) as (y & -> & Hy). now exists y.
Qed.

Lemma search_intro (r : regex) (pre x : text) :
  match_here r x = true -> search r (pre ++ x) = true.
Proof.
  intros H; induction pre as [|c pre IH]; simpl.
  - destruct x; simpl; now rewrite H.
  - now rewrite IH, orb_true_r.
Qed.

Lemma search_elim (r : regex) (s : text) :
  search r s = true -> exists pre x, s = pre ++ x /\ match_here r x = true.
Proof.
  induction s as [|c s IH]; simpl.
  - rewrite orb_false_r. intros H. now exists [], [].
  - intros [H | H]%orb_true_iff.
    + now exists [], (c :: s).
    + destruct (IH H) as (pre & x & -> & Hx). now exists (c :: pre), x.
Qed.

Lemma search_class (p : char -> bool) (s : text) :
  search [One p] s = existsb p s.
Proof.
  induction s as [|c s IH]; simpl; [reflexivity|].
  now rewrite andb_true_r, IH.
Qed.

End ReFacts.

(** ** Environment-file validation *)

Lemma existsb_In (p : char -> bool) (s : text) :
  existsb p s = true <-> exists c, In c s /\ p c = true.
Proof. apply List.existsb_exists. Qed.

Lemma occurs_search (r : Re.regex) (m s : text) :
  (forall post, Re.match_here r (m ++ post) = true) ->
  occurs m s -> Re.search r s = true.
Proof.
  intros Hm (pre & post & ->). apply ReFacts.search_intro, Hm.
Qed.

Lemma match_here_lit_only (t x : text) :
  Re.match_here (List.map Re.chr t) (t ++ x) = true.
Proof.
  rewrite <- (app_nil_r (List.map _ _)). now rewrite ReFacts.match_here_lit.
Qed.

Lemma has_dangerous_pattern_complete (s : text) :
  dangerous_text s -> has_dangerous_pattern s = true.
Proof.
  unfold has_dangerous_pattern, dangerous_patterns.
  intros H. cbn [existsb]. destruct H as
    [c Hin Hc | H | H | w Hw H | w Hw H | ws Hws H | ws Hws H | ws Hws Hne H].
  - rewrite ReFacts.search_class.
    replace (existsb is_shell_meta s) with true; [reflexivity|].
    symmetry. apply existsb_In. eauto.
  - rewrite (occurs_search (Re.lit "$(") (T "$(") s);
      [now rewrite ?orb_true_r| |assumption].
    intros post. apply match_here_lit_only.
  - rewrite (occurs_search (Re.lit "`") (T "`") s);
      [now rewrite ?orb_true_r| |assumption].
    intros post. apply match_here_lit_only.
  - rewrite (occurs_search (Re.lit "eval" ++ [Re.One isspace])
               (T "eval" ++ [w]) s); [now rewrite ?orb_true_r| |assumption].
    intros post. unfold Re.lit. rewrite <- app_assoc, ReFacts.match_here_lit.
    simpl. now rewrite Hw.
  - rewrite (occurs_search (Re.lit "exec" ++ [Re.One isspace])
               (T "exec" ++ [w]) s); [now rewrite ?orb_true_r| |assumption].
    intros post. unfold Re.lit. rewrite <- app_assoc, ReFacts.match_here_lit.
    simpl. now rewrite Hw.
  - rewrite (occurs_search (Re.lit "|" ++ [Re.Star isspace] ++ Re.lit "sh")
               (T "|" ++ ws ++ T "sh") s);
      [now rewrite ?orb_true_r| |assumption].
    intros post. unfold Re.lit. rewrite <- !app_assoc, ReFacts.match_here_lit.
    cbn [app Re.match_here]. apply ReFacts.match_star_intro; [assumption|].
    apply match_here_lit_only.
  - rewrite (occurs_search (Re.lit ">" ++ [Re.Star isspace] ++ Re.lit "/dev/")
               (T ">" ++ ws ++ T "/dev/") s);
      [now rewrite ?orb_true_r| |assumption].
    intros post. unfold Re.lit. rewrite <- !app_assoc, ReFacts.match_here_lit.
    cbn [app Re.match_here]. apply ReFacts.match_star_intro; [assumption|].
    apply match_here_lit_only.
  - rewrite (occurs_search (Re.lit "rm" ++ [Re.Plus isspace] ++ Re.lit "-rf")
               (T "rm" ++ ws ++ T "-rf") s);
      [now rewrite ?orb_true_r| |assumption].
    intros post. unfold Re.lit. rewrite <- !app_assoc, ReFacts.match_here_lit.
    destruct ws as [|w ws]; [congruence|].
    apply andb_true_iff in Hws as [Hw Hws].
    cbn [app Re.match_here]. rewrite Hw. cbn [andb].
    apply ReFacts.match_star_intro; [assumption|].
    apply match_here_lit_only.
Qed.

Lemma search_occurs (r : Re.regex) (s : text) (P : text -> Prop) :
  (forall x, Re.match_here r x = true -> exists m post, x = m ++ post /\ P m) ->
  Re.search r s = true -> exists m, P m /\ occurs m s.
Proof.
  intros Hr H. apply ReFacts.search_elim in H as (pre & x & -> & Hx).
  destruct (Hr _ Hx) as (m & post & -> & Hm).
  exists m. split; [assumption|]. now exists pre, post.
Qed.

Lemma has_dangerous_pattern_sound (s : text) :
  has_dangerous_pattern s = true -> dangerous_text s.
Proof.
  unfold has_dangerous_pattern, dangerous_patterns. cbn [existsb].
  rewrite orb_false_r, !orb_true_iff.
  intros [H | [H | [H | [H | [H | [H | [H | H]]]]]]].
  - rewrite ReFacts.search_class in H. apply existsb_In in H as (c & Hin & Hc).
    eapply shell_metacharacter; eassumption.
  - apply command_substitution.
    apply (search_occurs _ _ (fun m => m = T "$(")) in H as (m & -> & H);
      [assumption|].
    intros x Hx. unfold Re.lit in Hx. rewrite <- (app_nil_r (List.map _ _)) in Hx.
    apply ReFacts.match_here_lit_inv in Hx as (y & -> & _). eauto.
  - apply backtick.
    apply (search_occurs _ _ (fun m => m = T "`")) in H as (m & -> & H);
      [assumption|].
    intros x Hx. unfold Re.lit in Hx. rewrite <- (app_nil_r (List.map _ _)) in Hx.
    apply ReFacts.match_here_lit_inv in Hx as (y & -> & _). eauto.
  - apply (search_occurs _ _
             (fun m => exists w, isspace w = true /\ m = T "eval" ++ [w]))
      in H as (m & (w & Hw & ->) & H); [eapply eval_statement; eassumption|].
    intros x Hx. unfold Re.lit in Hx.
    apply ReFacts.match_here_lit_inv in Hx as (y & -> & Hy).
    destruct y as [|w y]; [discriminate|]. simpl in Hy.
    apply andb_true_iff in Hy as [Hw _].
    exists (T "eval" ++ [w]), y. rewrite <- app_assoc. eauto.
  - apply (search_occurs _ _
             (fun m => exists w, isspace w = true /\ m = T "exec" ++ [w]))
      in H as (m & (w & Hw & ->) & H); [eapply exec_statement; eassumption|].
    intros x Hx. unfold Re.lit in Hx.
    apply ReFacts.match_here_lit_inv in Hx as (y & -> & Hy).
    destruct y as [|w y]; [discriminate|]. simpl in Hy.
    apply andb_true_iff in Hy as [Hw _].
    exists (T "exec" ++ [w]), y. rewrite <- app_assoc. eauto.
  - apply (search_occurs _ _
             (fun m => exists ws, spaces ws /\ m = T "|" ++ ws ++ T "sh"))
      in H as (m & (ws & Hws & ->) & H); [eapply pipe_to_shell; eassumption|].
    intros x Hx. unfold Re.lit in Hx.
    apply ReFacts.match_here_lit_inv in Hx as (y & -> & Hy).
    cbn [app Re.match_here] in Hy.
    apply ReFacts.match_star_elim in Hy as (ws & b & -> & Hws & Hb).
    rewrite <- (app_nil_r (List.map _ _)) in Hb.
    apply ReFacts.match_here_lit_inv in Hb as (z & -> & _).
    exists (T "|" ++ ws ++ T "sh"), z. rewrite <- !app_assoc. eauto.
  - apply (search_occurs _ _
             (fun m => exists ws, spaces ws /\ m = T ">" ++ ws ++ T "/dev/"))
      in H as (m & (ws & Hws & ->) & H);
      [eapply redirection_to_device; eassumption|].
    intros x Hx. unfold Re.lit in Hx.
    apply ReFacts.match_here_lit_inv in Hx as (y & -> & Hy).
    cbn [app Re.match_here] in Hy.
    apply ReFacts.match_star_elim in Hy as (ws & b & -> & Hws & Hb).
    rewrite <- (app_nil_r (List.map _ _)) in Hb.
    apply ReFacts.match_here_lit_inv in Hb as (z & -> & _).
    exists (T ">" ++ ws ++ T "/dev/"), z. rewrite <- !app_assoc. eauto.
  - apply (search_occurs _ _
             (fun m => exists ws, spaces ws /\ ws <> []
                                  /\ m = T "rm" ++ ws ++ T "-rf"))
      in H as (m & (ws & Hws & Hne & ->) & H);
      [eapply recursive_removal; eassumption|].
    intros x Hx. unfold Re.lit in Hx.
    apply ReFacts.match_here_lit_inv in Hx as (y & -> & Hy).
    cbn [app Re.match_here] in Hy.
    destruct y as [|w y]; [discriminate|].
    apply andb_true_iff in Hy as [Hw Hy].
    apply ReFacts.match_star_elim in Hy as (ws & b & -> & Hws & Hb).
    rewrite <- (app_nil_r (List.map _ _)) in Hb.
    apply ReFacts.match_here_lit_inv in Hb as (z & -> & _).
    exists (T "rm" ++ (w :: ws) ++ T "-rf"), z. split.
    + simpl. now rewrite <- !app_assoc.
    + exists (w :: ws). repeat split; [|discriminate].
      unfold spaces. simpl. now rewrite Hw, Hws.
Qed.

Lemma has_dangerous_pattern_spec (s : text) :
  has_dangerous_pattern s = true <-> dangerous_text s.
Proof.
  split; [apply has_dangerous_pattern_sound|apply has_dangerous_pattern_complete].
Qed.

Lemma match_rest_of_line (value : text) :
  ~ In LF value ->
  Re.match_star Re.dot (Re.match_here [Re.Eos]) value = true.
Proof.
  intros H. rewrite <- (app_nil_r value).
  apply ReFacts.match_star_intro; [|reflexivity].
  apply forallb_forall. intros c Hc. unfold Re.dot.
  apply negb_true_iff, N.eqb_neq. intros ->. contradiction.
Qed.

Lemma re_assignment_spec (l : text) :
  ~ In LF l -> Re.match_here re_assignment l = true <-> assignment_line l.
Proof.
  intros Hlf. unfold re_assignment. split.
  - destruct l as [|c l]; [discriminate|]. cbn [Re.match_here].
    intros [Hc H]%andb_true_iff.
    apply ReFacts.match_star_elim in H as (a & b & -> & Ha & Hb).
    destruct b as [|e v]; [discriminate|]. cbn [Re.match_here Re.chr] in Hb.
    apply andb_true_iff in Hb as [He _]. apply N.eqb_eq in He as <-.
    exists (c :: a), v. split; [now exists c, a|reflexivity].
  - intros (key & value & (c & tl & -> & Hc & Htl) & ->).
    cbn [app Re.match_here]. rewrite Hc. cbn [andb].
    apply ReFacts.match_star_intro; [assumption|].
    cbn [Re.match_here Re.chr]. rewrite N.eqb_refl. cbn [andb].
    apply match_rest_of_line. intros Hin. apply Hlf.
    right. apply in_or_app. right. now right.
Qed.

Lemma re_export_assignment_spec (l : text) :
  ~ In LF l -> Re.match_here re_export_assignment l = true <-> export_line l.
Proof.
  intros Hlf. unfold re_export_assignment, Re.lit. split.
  - intros H. apply ReFacts.match_here_lit_inv in H as (y & -> & Hy).
    cbn [app Re.match_here] in Hy.
    destruct y as [|w y]; [discriminate|].
    apply andb_true_iff in Hy as [Hw Hy].
    apply ReFacts.match_star_elim in Hy as (ws & b & -> & Hws & Hb).
    apply re_assignment_spec in Hb as (key & value & Hk & ->).
    + exists (w :: ws), key, value.
      split; [unfold spaces; simpl; now rewrite Hw, Hws|].
      split; [discriminate|]. split; [assumption|].
      reflexivity.
    + intros Hin. apply Hlf. apply in_or_app. right. right.
      apply in_or_app. now right.
  - intros (ws & key & value & Hws & Hne & Hk & ->).
    rewrite ReFacts.match_here_lit. cbn [app Re.match_here].
    destruct ws as [|w ws]; [congruence|].
    apply andb_true_iff in Hws as [Hw Hws].
    cbn [app]. rewrite Hw. cbn [andb].
    apply ReFacts.match_star_intro; [assumption|].
    apply re_assignment_spec.
    + intros Hin. apply Hlf. apply in_or_app. right. right.
      apply in_or_app. now right.
    + now exists key, value.
Qed.

Lemma env_line_valid_spec (l : text) :
  ~ In LF l ->
  env_line_valid l = true <-> assignment_line l \/ export_line l.
Proof.
  intros Hlf. unfold env_line_valid.
  now rewrite orb_true_iff, re_assignment_spec, re_export_assignment_spec.
Qed.

Lemma split_no_sep (sep : char) (s l : text) :
  In l (split sep s) -> ~ In sep l.
Proof.
  revert l; induction s as [|c s IH]; simpl; intros l.
  - intros [<- | []]. intros [].
  - destruct (c =? sep) eqn:Hc.
    + intros [<- | Hin]; [intros [] | now apply IH].
    + destruct (split sep s) as [|h t] eqn:Hs.
      * intros [<- | []]. apply N.eqb_neq in Hc. intros [-> | []]. congruence.
      * intros [<- | Hin].
        -- apply N.eqb_neq in Hc. intros [-> | Hh]; [congruence|].
           revert Hh. apply IH. now left.
        -- apply IH. now right.
Qed.

Lemma lstrip_incl (c : char) (s : text) : In c (lstrip s) -> In c s.
Proof.
  induction s as [|d s IH]; simpl; [easy|].
  destruct (isspace d); [intros H; right; now apply IH | easy].
Qed.

Lemma strip_incl (c : char) (s : text) : In c (strip s) -> In c s.
Proof.
  unfold strip, rstrip. intros H.
  apply in_rev, lstrip_incl, in_rev in H. now apply lstrip_incl.
Qed.

Lemma env_lines_no_lf (content l : text) :
  In l (env_lines content) -> ~ In LF l.
Proof.
  unfold env_lines. intros (raw & <- & Hraw)%in_map_iff.
  apply List.filter_In in Hraw as [Hraw _].
  intros H%strip_incl. revert H. now apply (split_no_sep LF content).
Qed.

Lemma in_universal_newlines (c : char) (s : text) :
  plain c -> In c s -> In c (universal_newlines s).
Proof.
  intros [Hcr Hlf].
  induction s as [| d s Hd IH | | s IH | d s Hd IH]
    using universal_newlines_ind.
  - easy.
  - rewrite universal_newlines_other by assumption.
    intros [-> | H]; [now left | right; now apply IH].
  - intros [E | []]. congruence.
  - rewrite universal_newlines_crlf.
    intros [E | [E | H]]; try congruence. right; now apply IH.
  - rewrite universal_newlines_cr by assumption.
    intros [E | H]; [congruence|]. right; now apply IH.
Qed.

Lemma is_shell_meta_spec (c : char) :
  is_shell_meta c = true <-> In c (T ";&|`$(){}").
Proof.
  unfold is_shell_meta. rewrite !orb_true_iff, !N.eqb_eq.
  change (T ";&|`$(){}") with [59; 38; 124; 96; 36; 40; 41; 123; 125].
  simpl. intuition congruence.
Qed.

Lemma shell_meta_plain (c : char) : is_shell_meta c = true -> plain c.
Proof. intros H; split; intros ->; vm_compute in H; discriminate. Qed.

(** What [validate_env_file] answers on a file whose bytes decode. *)
Lemma validate_env_file_text (n : node) (p : path) (t : text) (m : meta)
    (jr : list event) (inp : list text) :
  lookup n p = Some (File (Utf8 t) m) ->
  (validate_env_file p (mkState n jr inp)).1
  = inr (verdict_ok (classify_env_content (universal_newlines t))).
Proof.
  intros H. unfold validate_env_file, try_except, bind, get_fs, lift, read_text,
    exists_, is_file. cbn [fs]. rewrite H. cbn.
  destruct (classify_env_content (universal_newlines t)); reflexivity.
Qed.

(** On a file whose bytes do not decode, or that is absent, the answer is
    [False]. *)
Lemma validate_env_file_unreadable (n : node) (p : path)
    (jr : list event) (inp : list text) :
  match lookup n p with Some (File (Utf8 _) _) => False | _ => True end ->
  (validate_env_file p (mkState n jr inp)).1 = inr false.
Proof.
  intros H. unfold validate_env_file, try_except, bind, get_fs, lift, read_text,
    exists_, is_file. cbn [fs].
  destruct (lookup n p) as [[[t|b] m|es]|]; try contradiction; reflexivity.
Qed.

Lemma classify_env_content_dangerous (content : text) :
  classify_env_content content = Dangerous <-> dangerous_text content.
Proof.
  rewrite <- has_dangerous_pattern_spec.
  unfold classify_env_content, has_dangerous_pattern.
  destruct (existsb _ dangerous_patterns).
  - easy.
  - split; [|discriminate]. destruct (_ && _); discriminate.
Qed.

Lemma classify_env_content_safe (content : text) :
  classify_env_content content = Safe <->
  ~ dangerous_text content
  /\ (4 * length (env_lines content)
      <= 5 * length (List.filter env_line_valid (env_lines content)))%nat.
Proof.
  rewrite <- has_dangerous_pattern_spec.
  unfold classify_env_content, has_dangerous_pattern.
  destruct (existsb _ dangerous_patterns).
  - split; [discriminate|]. intros [H _]. now destruct H.
  - destruct (env_lines content) as [|l ls] eqn:E.
    + simpl. split; [|reflexivity]. intros _. split; [discriminate|lia].
    + cbn [is_empty negb andb].
      destruct (Nat.ltb_spec
                  (5 * length (List.filter env_line_valid (l :: ls)))
                  (4 * length (l :: ls))).
      * split; [discriminate|]. intros [_ H']. lia.
      * split; [|reflexivity]. intros _. split; [discriminate|lia].
Qed.

(** ** The claims on template detection and environment files *)

(** C7.  [detect_template_variables] returns exactly the names [N] such that
    the literal text of the placeholder of [N] occurs in the text of the
    file, [N] being a letter or underscore followed by letters, digits and
    underscores.  The JSON example gives HOME and API_KEY, an unclosed
    placeholder and an empty one give nothing, a placeholder wrapped in
    another gives the inner name, and a file that does not decode as UTF-8
    gives the empty set. *)
Theorem detect_template_variables_spec :
  (forall (n : node) (p : path) (t : text) (m : meta) (nm : text),
      lookup n p = Some (File (Utf8 t) m) ->
      nm ∈ detect_template_variables n p
      <-> valid_name nm /\ occurs (placeholder nm) t)
  /\ detect_template_variables
       (disk_with (Utf8 (TQ "{'a':'${HOME}','b':'${API_KEY}'}"))) only_file
     = {[ T "HOME"; T "API_KEY" ]}
  /\ detect_template_variables (disk_with (Utf8 (T "${INCOMPLETE"))) only_file
     = ∅
  /\ detect_template_variables (disk_with (Utf8 (T "${}"))) only_file = ∅
  /\ detect_template_variables (disk_with (Utf8 (T "${${NESTED}}"))) only_file
     = {[ T "NESTED" ]}
  /\ (forall (n : node) (p : path) (b : list N) (m : meta),
         lookup n p = Some (File (Undecodable b) m) ->
         detect_template_variables n p = ∅).
Proof.
  split; [|split; [|split; [|split; [|split]]]]; try (vm_compute; reflexivity).
  - intros n p t m nm H. unfold detect_template_variables, read_text.
    rewrite H. rewrite elem_of_list_to_set, list_elem_of_In.
    rewrite findall_template_vars_spec.
    assert (Hne : placeholder nm <> []) by (unfold placeholder; discriminate).
    split; intros [Hv Ho]; (split; [assumption|]);
      now apply (occurs_universal_newlines _ t (placeholder_plain nm Hv) Hne).
  - intros n p b m H. unfold detect_template_variables, read_text.
    now rewrite H.
Qed.

Lemma detect_template_variables_spec_witness :
  T "A" ∈ detect_template_variables (disk_with (Utf8 (T "x${A}y"))) only_file.
Proof.
  apply (proj1 detect_template_variables_spec
           (disk_with (Utf8 (T "x${A}y"))) only_file (T "x${A}y") 0 (T "A")
           eq_refl).
  split.
  - exists 65, []. repeat split.
  - exists (T "x"), (T "y"). reflexivity.
Defined.

(** C8.  On an existing file, [validate_env_file] answers [False] when the
    text matches a dangerous pattern (a shell metacharacter, a command
    substitution, a backtick, eval or exec before white space, a pipe to a
    shell, a redirection into a device path, rm -rf) and when fewer than 80%
    of the non-blank, non-comment lines are of the shape KEY=VALUE or export
    KEY=VALUE; it answers [True] on an empty file and on a file without a
    dangerous pattern whose lines all have that shape.  Altogether the answer
    is [True] exactly when there is no dangerous pattern and at least 80% of
    the lines have the shape. *)
Theorem validate_env_file_classification
    (n : node) (p : path) (t : text) (m : meta)
    (jr : list event) (inp : list text) :
  lookup n p = Some (File (Utf8 t) m) ->
  let content := universal_newlines t in
  let lines := env_lines content in
  let valid_lines := length (List.filter env_line_valid lines) in
  let answer := (validate_env_file p (mkState n jr inp)).1 in
  (forall l, In l lines ->
             env_line_valid l = true <-> assignment_line l \/ export_line l)
  /\ (dangerous_text content -> answer = inr false)
  /\ ((5 * valid_lines < 4 * length lines)%nat -> answer = inr false)
  /\ (t = [] -> answer = inr true)
  /\ (~ dangerous_text content ->
      (forall l, In l lines -> assignment_line l \/ export_line l) ->
      answer = inr true)
  /\ (answer = inr true <->
      ~ dangerous_text content /\ (4 * length lines <= 5 * valid_lines)%nat).
Proof.
  intros H content lines valid_lines answer.
  assert (Hans : answer = inr (verdict_ok (classify_env_content content)))
    by (apply (validate_env_file_text n p t m jr inp H)).
  assert (Hempty : t = [] -> answer = inr true).
  { intros E. rewrite Hans. subst content. rewrite E. reflexivity. }
  clearbody answer content. subst lines valid_lines.
  assert (Hspec : forall l, In l (env_lines content) ->
            env_line_valid l = true <-> assignment_line l \/ export_line l).
  { intros l Hl. apply env_line_valid_spec. eapply env_lines_no_lf, Hl. }
  assert (Hsafe : answer = inr true <->
            ~ dangerous_text content
            /\ (4 * length (env_lines content)
                <= 5 * length (List.filter env_line_valid (env_lines content)))%nat).
  { rewrite Hans, <- classify_env_content_safe.
    destruct (classify_env_content content); simpl; split; congruence. }
  split; [exact Hspec|]. split; [|split; [|split; [|split]]].
  - intros Hd. apply classify_env_content_dangerous in Hd.
    rewrite Hans, Hd. reflexivity.
  - intros Hlt. rewrite Hans.
    destruct (classify_env_content content) eqn:E; try reflexivity.
    apply classify_env_content_safe in E as [_ E]. lia.
  - exact Hempty.
  - intros Hnd Hall. apply Hsafe. split; [assumption|].
    enough (length (List.filter env_line_valid (env_lines content))
            = length (env_lines content)) by lia.
    f_equal.
    assert (Hv : forall l, In l (env_lines content) -> env_line_valid l = true)
      by (intros l Hl; apply Hspec; auto).
    clear -Hv. induction (env_lines content) as [|l ls IH]; [reflexivity|].
    simpl. rewrite (Hv l) by now left. f_equal. apply IH.
    intros x Hx. apply Hv. now right.
  - exact Hsafe.
Qed.

Lemma validate_env_file_classification_witness :
  (validate_env_file only_file (on_disk (Utf8 (T "API_KEY=$(rm -rf /)")))).1
  = inr false.
Proof.
  destruct (validate_env_file_classification
              (disk_with (Utf8 (T "API_KEY=$(rm -rf /)"))) only_file
              (T "API_KEY=$(rm -rf /)") 0 [] [] eq_refl) as (_ & Hd & _).
  apply Hd. apply command_substitution. exists (T "API_KEY="), (T "rm -rf /)").
  reflexivity.
Defined.

(** C10.  [validate_env_file] answers [False] on every file whose text
    holds one of the characters ; & | ` $ ( ) { } anywhere, whatever the
    shape of its lines: an assignment such as KEY=$HOME or KEY={x} is
    enough. *)
Theorem validate_env_file_rejects_metacharacters
    (n : node) (p : path) (t : text) (m : meta)
    (jr : list event) (inp : list text) (c : char) :
  lookup n p = Some (File (Utf8 t) m) ->
  In c t -> In c (T ";&|`$(){}") ->
  (validate_env_file p (mkState n jr inp)).1 = inr false.
Proof.
  intros H Hin Hc. apply is_shell_meta_spec in Hc.
  rewrite (validate_env_file_text n p t m jr inp H).
  replace (classify_env_content (universal_newlines t)) with Dangerous;
    [reflexivity|].
  symmetry. apply classify_env_content_dangerous.
  apply (shell_metacharacter _ c); [|assumption].
  apply in_universal_newlines; [now apply shell_meta_plain | assumption].
Qed.

Lemma validate_env_file_rejects_metacharacters_witness :
  (validate_env_file only_file (on_disk (Utf8 (T "KEY=$HOME")))).1 = inr false
  /\ (validate_env_file only_file (on_disk (Utf8 (T "KEY={x}")))).1 = inr false
  /\ Forall (fun l => env_line_valid l = true)
       (env_lines (T "KEY=$HOME") ++ env_lines (T "KEY={x}")).
Proof.
  split; [|split].
  - apply (validate_env_file_rejects_metacharacters
             (disk_with (Utf8 (T "KEY=$HOME"))) only_file (T "KEY=$HOME") 0
             [] [] DOLLAR eq_refl).
    + vm_compute. tauto.
    + vm_compute. tauto.
  - apply (validate_env_file_rejects_metacharacters
             (disk_with (Utf8 (T "KEY={x}"))) only_file (T "KEY={x}") 0
             [] [] LBRACE eq_refl).
    + vm_compute. tauto.
    + vm_compute. tauto.
  - vm_compute. repeat constructor.
Defined.

(** ** More facts on strings *)

Lemma startswith_spec (p s : text) :
  startswith p s = true <-> exists post, s = p ++ post.
Proof.
  revert s; induction p as [|x p IH]; intros s; simpl.
  - split; [intros _; now exists s | reflexivity].
  - destruct s as [|y s].
    + split; [discriminate | intros [post E]; discriminate E].
    + rewrite andb_true_iff, N.eqb_eq, IH. split.
      * intros [-> [post ->]]. now exists post.
      * intros [post [= -> ->]]. split; [reflexivity | now exists post].
Qed.

Lemma contains_spec (sub s : text) : contains sub s = true <-> occurs sub s.
Proof.
  induction s as [|c s IH]; simpl.
  - rewrite orb_false_r, startswith_spec. split.
    + intros [post E]. now exists [], post.
    + intros (pre & post & E). destruct pre; [now exists post|discriminate E].
  - rewrite orb_true_iff, startswith_spec, IH. split.
    + intros [[post E] | (pre & post & ->)].
      * now exists [], post.
      * now exists (c :: pre), post.
    + intros ([|y pre] & post & E).
      * left. now exists post.
      * right. injection E as _ ->. now exists pre, post.
Qed.

Lemma split_shape (sep : char) (s : text) :
  exists h t, split sep s = h :: t
              /\ (exists post, s = h ++ post)
              /\ forall seg, In seg t -> occurs seg s.
Proof.
  induction s as [|c s (h & t & E & [post Hh] & Ht)]; simpl.
  - exists [], []. split; [reflexivity|]. split; [now exists []|intros ? []].
  - rewrite E. destruct (c =? sep).
    + exists [], (h :: t). split; [reflexivity|].
      split; [now exists (c :: s)|].
      intros seg [<- | Hin].
      * exists [c], post. simpl. now rewrite Hh at 1.
      * destruct (Ht _ Hin) as (a & b & ->). now exists (c :: a), b.
    + exists (c :: h), t. split; [reflexivity|]. split.
      * exists post. simpl. now rewrite Hh at 1.
      * intros seg Hin. destruct (Ht _ Hin) as (a & b & ->).
        now exists (c :: a), b.
Qed.

Lemma segment_occurs (sep : char) (seg s : text) :
  In seg (split sep s) -> occurs seg s.
Proof.
  destruct (split_shape sep s) as (h & t & -> & [post Hh] & Ht).
  intros [<- | Hin]; [now exists [], post | now apply Ht].
Qed.

Lemma lstrip_suffix (s : text) : exists ws, s = ws ++ lstrip s.
Proof.
  induction s as [|c s [ws IH]]; simpl; [now exists []|].
  destruct (isspace c).
  - exists (c :: ws). simpl. now rewrite <- IH.
  - now exists [].
Qed.

Lemma rstrip_prefix (s : text) : exists ws, s = rstrip s ++ ws.
Proof.
  unfold rstrip. destruct (lstrip_suffix (rev s)) as [ws E].
  exists (rev ws). rewrite <- rev_app_distr, <- E. now rewrite rev_involutive.
Qed.

Lemma occurs_rev (sub s : text) : occurs sub s -> occurs (rev sub) (rev s).
Proof.
  intros (pre & post & ->). exists (rev post), (rev pre).
  now rewrite !rev_app_distr, app_assoc.
Qed.

Lemma occurs_lstrip (sub s : text) :
  match sub with c :: _ => isspace c = false | [] => False end ->
  occurs sub s -> occurs sub (lstrip s).
Proof.
  destruct sub as [|c sub]; [easy|]. intros Hc (pre & post & ->).
  induction pre as [|x pre IH]; simpl.
  - rewrite Hc. now exists [], post.
  - destruct (isspace x); [assumption|]. now exists (x :: pre), post.
Qed.

Lemma occurs_dotdot_strip (s : text) :
  occurs (T "..") (strip s) <-> occurs (T "..") s.
Proof.
  split.
  - intros (pre & post & E). unfold strip in E.
    destruct (lstrip_suffix s) as [w1 E1].
    destruct (rstrip_prefix (lstrip s)) as [w2 E2].
    rewrite E in E2. rewrite E2 in E1.
    exists (w1 ++ pre), (post ++ w2). rewrite E1. now rewrite <- !app_assoc.
  - intros H. unfold strip, rstrip.
    apply (occurs_lstrip (T "..")) in H; [|reflexivity].
    apply occurs_rev in H. apply (occurs_lstrip (T "..")) in H; [|reflexivity].
    apply occurs_rev in H. exact H.
Qed.

Lemma occurs_dotdot_rstrip (s : text) :
  occurs (T "..") s -> occurs (T "..") (rstrip s).
Proof.
  intros H. unfold rstrip. apply occurs_rev in H.
  apply (occurs_lstrip (T "..")) in H; [|reflexivity].
  apply occurs_rev in H. exact H.
Qed.

Lemma lstrip_app (x y : text) :
  lstrip x <> [] -> lstrip (x ++ y) = lstrip x ++ y.
Proof.
  induction x as [|c x IH]; simpl; [congruence|].
  destruct (isspace c); [exact IH | reflexivity].
Qed.

Lemma rstrip_app (a b : text) :
  rstrip b <> [] -> rstrip (a ++ b) = a ++ rstrip b.
Proof.
  unfold rstrip. intros H. rewrite rev_app_distr, lstrip_app.
  - now rewrite rev_app_distr, rev_involutive.
  - intros E. rewrite E in H. now apply H.
Qed.

Lemma lstrip_nil (s : text) : lstrip s = [] <-> forallb isspace s = true.
Proof.
  induction s as [|c s IH]; simpl; [easy|].
  destruct (isspace c); simpl; [exact IH | easy].
Qed.

Lemma strip_nonempty_rstrip (s : text) : strip s <> [] -> rstrip s <> [].
Proof.
  intros H E. apply H. unfold strip, rstrip in *.
  assert (Hs : forallb isspace s = true).
  { apply (f_equal (@rev char)) in E. rewrite rev_involutive in E. simpl in E.
    apply lstrip_nil in E. rewrite forallb_forall in *.
    intros c Hc. apply E. now apply in_rev in Hc. }
  apply lstrip_nil in Hs. now rewrite Hs.
Qed.

Lemma split_first_spec (sep : char) (r d : text) :
  ~ In sep r -> split_first sep (r ++ sep :: d) = Some (r, d).
Proof.
  induction r as [|c r IH]; simpl; intros H.
  - now rewrite N.eqb_refl.
  - destruct (N.eqb_spec c sep) as [->|_]; [exfalso; apply H; now left|].
    rewrite IH; [reflexivity|]. intros Hin. apply H. now right.
Qed.

Lemma split_last_none (sep : char) (d : text) :
  ~ In sep d -> split_last sep d = None.
Proof.
  induction d as [|c d IH]; simpl; intros H; [reflexivity|].
  rewrite IH by (intros Hin; apply H; now right).
  destruct (N.eqb_spec c sep) as [->|_]; [exfalso; apply H; now left|].
  reflexivity.
Qed.

Lemma split_last_spec (sep : char) (nm d : text) :
  ~ In sep d -> split_last sep (nm ++ sep :: d) = Some (nm, d).
Proof.
  intros H. induction nm as [|c nm IH]; simpl.
  - rewrite (split_last_none sep d H). now rewrite N.eqb_refl.
  - now rewrite IH.
Qed.

Lemma is_empty_false {A} (l : list A) : l <> [] -> is_empty l = false.
Proof. destruct l; [congruence | reflexivity]. Qed.

Lemma dotdot_contains (p : text) :
  has_dotdot_segment p -> contains (T "..") p = true.
Proof. intros H. apply contains_spec. eapply segment_occurs, H. Qed.

(** ** Parsing the mapping file *)

Lemma unsafe_line_fatal (raw : text) (e : mapping_entry) (k : nat) :
  reads_as raw e -> unsafe_entry e ->
  exists m msg, parse_line k raw = LineFatal m (ValueError msg).
Proof.
  destruct e as [repoPath destPath | customName destPath];
    unfold reads_as, unsafe_entry.
  - intros (Hhash & Hcustom & r & d & Hline & Hr & -> & -> & Hrn & Hdn) Hu.
    unfold parse_line. rewrite Hhash, Hcustom.
    rewrite (is_empty_false (strip raw)) by (rewrite Hline; now destruct r).
    replace (contains (T ":") (strip raw)) with true
      by (symmetry; apply contains_spec; rewrite Hline; now exists r, d).
    cbn [orb negb]. rewrite Hline, split_first_spec by assumption.
    rewrite !is_empty_false by assumption. cbn [orb].
    destruct (eqb_text (strip d) (T "/") || eqb_text (strip d) (T "~")) eqn:Hroot;
      [eauto|].
    assert (Hnc : startswith (T "custom:") (strip r) = false).
    { destruct (startswith (T "custom:") (strip r)) eqn:E; [|reflexivity].
      apply startswith_spec in E as [post E]. exfalso. apply Hr.
      apply strip_incl. rewrite E. simpl. tauto. }
    rewrite Hnc.
    replace (contains (T "..") (strip r) || contains (T "..") (strip d))
      with true; [eauto|].
    symmetry. apply orb_true_iff.
    destruct Hu as [E | [E | [H | H]]].
    + rewrite E in Hroot. discriminate Hroot.
    + rewrite E in Hroot. discriminate Hroot.
    + left. now apply dotdot_contains.
    + right. now apply dotdot_contains.
  - intros (nm & d & Hline & Hd & -> & -> & Hnn & Hdn) Hu.
    unfold parse_line. rewrite Hline.
    change (is_empty (T "custom:" ++ nm ++ COLON :: d)) with false.
    change (startswith (T "#") (T "custom:" ++ nm ++ COLON :: d)) with false.
    replace (contains (T ":") (T "custom:" ++ nm ++ COLON :: d)) with true
      by (symmetry; apply contains_spec;
          exists (T "custom:" ++ nm), d; now rewrite <- app_assoc).
    replace (startswith (T "custom:") (T "custom:" ++ nm ++ COLON :: d))
      with true by (symmetry; apply startswith_spec; eauto).
    cbn [orb negb].
    change (drop 7 (T "custom:" ++ nm ++ COLON :: d)) with (nm ++ COLON :: d).
    rewrite split_last_spec by assumption.
    rewrite (is_empty_false (strip nm)) by assumption.
    assert (Hrepo : strip (T "custom:" ++ nm) = T "custom:" ++ rstrip nm).
    { unfold strip at 1. change (lstrip (T "custom:" ++ nm))
        with (T "custom:" ++ nm).
      apply rstrip_app. now apply strip_nonempty_rstrip. }
    rewrite Hrepo.
    change (is_empty (T "custom:" ++ rstrip nm)) with false.
    rewrite (is_empty_false (strip d)) by assumption. cbn [orb].
    destruct (eqb_text (strip d) (T "/") || eqb_text (strip d) (T "~")) eqn:Hroot;
      [eauto|].
    replace (startswith (T "custom:") (T "custom:" ++ rstrip nm))
      with true by (symmetry; apply startswith_spec; eauto).
    change (drop 7 (T "custom:" ++ rstrip nm)) with (rstrip nm).
    replace (contains (T "..") (strip (rstrip nm))
             || contains (T "..") (strip d)) with true; [eauto|].
    symmetry. apply orb_true_iff.
    destruct Hu as [E | [E | [H | H]]].
    + rewrite E in Hroot. discriminate Hroot.
    + rewrite E in Hroot. discriminate Hroot.
    + left. apply contains_spec. apply occurs_dotdot_strip.
      apply occurs_dotdot_rstrip. apply segment_occurs in H.
      exact (proj1 (occurs_dotdot_strip nm) H).
    + right. now apply dotdot_contains.
Qed.

Lemma parse_line_fatal_value_error (k : nat) (raw : text) (m : option message)
    (e : exn) :
  parse_line k raw = LineFatal m e -> exists msg, e = ValueError msg.
Proof.
  unfold parse_line.
  repeat match goal with
         | |- context [if ?b then _ else _] => destruct b
         | |- context [match split_last ?a ?b with _ => _ end] =>
             destruct (split_last a b) as [[? ?]|]
         | |- context [match split_first ?a ?b with _ => _ end] =>
             destruct (split_first a b) as [[? ?]|]
         end; intros [= <- <-] || discriminate || idtac; eauto.
Qed.

(** The loop is left at the first fatal line, with what the lines before it
    put into the object. *)
Lemma parse_lines_raises (lines : list text) (raw : text) :
  In raw lines ->
  (forall k, exists m msg, parse_line k raw = LineFatal m (ValueError msg)) ->
  forall (self : DotfilesConfig) (k : nat),
  exists before bad after ms msg,
    lines = before ++ bad :: after
    /\ parse_lines self k lines
       = (ms, Some (ValueError msg), (parse_lines self k before).2)
    /\ (parse_lines self k before).1.2 = None.
Proof.
  intros Hin Hfatal. induction lines as [|l lines IH]; [destruct Hin|].
  intros self k. simpl.
  destruct (parse_line k l) as [|w|m e|sp cp|rp sp] eqn:El.
  - destruct Hin as [-> | Hin].
    { destruct (Hfatal k) as (m & msg & E). congruence. }
    destruct (IH Hin self (S k)) as (before & bad & after & ms & msg & -> & E & Hb).
    exists (l :: before), bad, after, ms, msg. simpl. rewrite El. auto.
  - destruct Hin as [-> | Hin].
    { destruct (Hfatal k) as (m & msg & E). congruence. }
    destruct (IH Hin self (S k)) as (before & bad & after & ms & msg & -> & E & Hb).
    exists (l :: before), bad, after, (w :: ms), msg. simpl. rewrite El, E.
    destruct (parse_lines self (S k) before) as [[ms' r'] c'].
    simpl in *. auto.
  - destruct (parse_line_fatal_value_error _ _ _ _ El) as [msg ->].
    exists [], l, lines, (option_list m), msg. simpl. auto.
  - destruct Hin as [-> | Hin].
    { destruct (Hfatal k) as (m & msg & E). congruence. }
    destruct (IH Hin (add_custom self sp cp) (S k))
      as (before & bad & after & ms & msg & -> & E & Hb).
    exists (l :: before), bad, after, ms, msg. simpl. rewrite El. auto.
  - destruct Hin as [-> | Hin].
    { destruct (Hfatal k) as (m & msg & E). congruence. }
    destruct (IH Hin (add_regular self rp sp) (S k))
      as (before & bad & after & ms & msg & -> & E & Hb).
    exists (l :: before), bad, after, ms, msg. simpl. rewrite El. auto.
Qed.

(** ** Facts on the monad *)

Lemma print_all_run (ms : list message) (st : state) :
  print_all ms st = (inr tt, printed st ms).
Proof.
  revert st; induction ms as [|m ms IH]; intros st; simpl.
  - unfold ret, printed. simpl. rewrite app_nil_r. now destruct st.
  - unfold bind, print, emit. rewrite IH. unfold printed. simpl.
    now rewrite <- app_assoc.
Qed.

Lemma parse_config_run (self : DotfilesConfig) (st : state) (content : text) :
  read_text (fs st) (config_file self) = inr content ->
  parse_config self st
  = let '(ms, r, self') := parse_lines self 1 (file_lines content) in
    (match r with Some e => inl e | None => inr self' end, printed st ms).
Proof.
  intros H. unfold parse_config, bind, get_fs, lift.
  assert (Hex : exists_ (fs st) (config_file self) = true).
  { unfold read_text in H. unfold exists_.
    destruct (lookup (fs st) (config_file self)); [reflexivity|discriminate]. }
  rewrite Hex, H. simpl.
  destruct (parse_lines self 1 (file_lines content)) as [[ms r] self'].
  rewrite print_all_run. destruct r; reflexivity.
Qed.

(** Regular entries are never stored under a key that starts with
    [custom:]. *)
Lemma parse_line_regular_key (k : nat) (raw repo_path system_path : text) :
  parse_line k raw = LineRegular repo_path system_path ->
  startswith (T "custom:") repo_path = false.
Proof.
  unfold parse_line.
  repeat match goal with
         | |- context [if ?b then _ else _] => destruct b eqn:?
         | |- context [match split_last ?a ?b with _ => _ end] =>
             destruct (split_last a b) as [[? ?]|]
         | |- context [match split_first ?a ?b with _ => _ end] =>
             destruct (split_first a b) as [[? ?]|]
         end; try discriminate; intros [= <- <-]; assumption.
Qed.

Lemma parse_lines_regular_keys (lines : list text) (self : DotfilesConfig)
    (k : nat) :
  Forall (fun kv : text * text => startswith (T "custom:") kv.1 = false)
    (file_map self) ->
  Forall (fun kv : text * text => startswith (T "custom:") kv.1 = false)
    (file_map (parse_lines self k lines).2).
Proof.
  revert self k; induction lines as [|l lines IH]; intros self k Hself;
    simpl; [assumption|].
  destruct (parse_line k l) as [|w|m e|sp cp|rp sp] eqn:El.
  - now apply IH.
  - specialize (IH self (S k) Hself).
    destruct (parse_lines self (S k) lines) as [[ms r] c]. exact IH.
  - assumption.
  - now apply IH.
  - apply IH. simpl. apply parse_line_regular_key in El.
    clear -Hself El. induction Hself as [|[k0 v0] d Hk Hd IHd]; simpl.
    + now constructor.
    + destruct (eqb_text rp k0); constructor; auto.
Qed.

(** The cases of the test suite. *)
Example parse_config_examples :
  let parse content :=
    let '(_, r, c) := parse_lines (new_config demo_os [T "repo"] None) 1
                        (file_lines content) in
    (r, file_map c, map_to_list (custom_map c)) in
  parse (T "# a comment" ++ [LF; LF] ++ T "  " ++ [LF] ++ T "valid:path" ++ [LF])
  = (None, [(T "valid", T "path")], [])
  /\ parse (T "no_colon_here" ++ [LF] ++ T "valid:path" ++ [LF])
     = (None, [(T "valid", T "path")], [])
  /\ parse (T ":empty_repo" ++ [LF] ++ T "empty_dest:" ++ [LF] ++ T ":" ++ [LF])
     = (None, [], [])
  /\ parse (T "path:with:colons:.vimrc" ++ [LF])
     = (None, [(T "path", T "with:colons:.vimrc")], [])
  /\ parse (T "  spaces:  .profile  " ++ [LF])
     = (None, [(T "spaces", T ".profile")], [])
  /\ parse (T "custom:my:file.txt:.dest" ++ [LF])
     = (None, [], [(T ".dest", T "my:file.txt")])
  /\ parse (T "custom::.dest" ++ [LF] ++ T "custom:nodest" ++ [LF])
     = (None, [], [])
  /\ (parse (T "home:/" ++ [LF])).1.1
     = Some (ValueError (T "Refusing to manage root or home directory: /"))
  /\ (parse (T "home:~" ++ [LF])).1.1
     = Some (ValueError (T "Refusing to manage root or home directory: ~"))
  /\ (parse (T "../escape:.profile" ++ [LF])).1.1
     = Some (ValueError (T "Path traversal not allowed: ../escape:.profile"))
  /\ (parse (T "ok:.ok" ++ [LF] ++ T "home:../../../etc/passwd" ++ [LF]))
     = (Some (ValueError
                (T "Path traversal not allowed: home:../../../etc/passwd")),
        [(T "ok", T ".ok")], [])
  /\ (parse (T "custom:../../etc/passwd:.config/test" ++ [LF])).1.1
     = Some (ValueError
               (T "Path traversal not allowed: custom:../../etc/passwd:.config/test")).
Proof. vm_compute. repeat split. Qed.

(** C3.  When a line of the mapping file has the destination [/] or [~], or
    a [..] segment in its repo path, custom name or destination, the loop of
    [parse_config] is left by a [ValueError] at the first such line: this
    line and the lines after it add nothing to the object, [parse_config]
    returns no configuration, and [main] exits with status 1 without having
    touched the file system, so that nothing of the file is used. *)
Theorem parse_config_rejects_unsafe_lines
    (os : oracle) (script_dir : path) (config_arg backup_arg : option path)
    (arg_force arg_no_preview : bool) (strat : strategy)
    (process_templates : bool) (st : state) (content raw : text)
    (e : mapping_entry) :
  let self := new_config os script_dir config_arg in
  read_text (fs st) (config_file self) = inr content ->
  In raw (file_lines content) -> reads_as raw e -> unsafe_entry e ->
  (exists before bad after ms msg,
      file_lines content = before ++ bad :: after
      /\ parse_lines self 1 (file_lines content)
         = (ms, Some (ValueError msg), (parse_lines self 1 before).2)
      /\ (parse_lines self 1 before).1.2 = None)
  /\ (exists msg, (parse_config self st).1 = inl (ValueError msg))
  /\ let out := main_sync_from_repo os script_dir config_arg backup_arg
                  arg_force arg_no_preview strat process_templates st in
     out.1 = inr 1%Z
     /\ fs out.2 = fs st
     /\ forall op, In (Called op) (journal out.2) -> In (Called op) (journal st).
Proof.
  intros self Hread Hin Hreads Hunsafe.
  destruct (parse_lines_raises (file_lines content) raw Hin
              (fun k => unsafe_line_fatal raw e k Hreads Hunsafe) self 1)
    as (before & bad & after & ms & msg & Hsplit & Hrun & Hbefore).
  split; [now exists before, bad, after, ms, msg|].
  pose proof (parse_config_run self st content Hread) as Hcfg.
  rewrite Hrun in Hcfg.
  split; [exists msg; now rewrite Hcfg|].
  unfold main_sync_from_repo, try_except, bind. fold self. rewrite Hcfg.
  cbn. split; [reflexivity|]. split; [reflexivity|].
  intros op Hop. rewrite <- app_assoc in Hop.
  apply in_app_or in Hop as [Hop | Hop]; [assumption|].
  exfalso. apply in_app_or in Hop as [Hop | [Hop | []]]; [|discriminate Hop].
  apply in_map_iff in Hop as (m & Hm & _). discriminate Hm.
Qed.

Lemma parse_config_rejects_unsafe_lines_witness :
  (main_sync_from_repo demo_os [T "repo"] (Some conf_path) (Some backup_root)
     true false ask true
     (mkState (disk (T "a:b" ++ [LF] ++ T "home:/" ++ [LF]) [] []) [] [])).1
  = inr 1%Z.
Proof.
  refine (proj1 (proj2 (proj2
    (parse_config_rejects_unsafe_lines demo_os [T "repo"] (Some conf_path)
       (Some backup_root) true false ask true
       (mkState (disk (T "a:b" ++ [LF] ++ T "home:/" ++ [LF]) [] []) [] [])
       (T "a:b" ++ [LF] ++ T "home:/" ++ [LF]) (T "home:/")
       (RegularEntry (T "home") (T "/")) eq_refl _ _ _)))).
  - vm_compute. tauto.
  - split; [reflexivity|]. split; [reflexivity|].
    exists (T "home"), (T "/"). repeat split; try discriminate.
    vm_compute. intuition discriminate.
  - left. reflexivity.
Defined.

(** ** The sync engine *)

(** C6.  For a destination that has an overlay entry and a regular entry,
    [sync_from_repo] takes the overlay source when it exists on disk, and
    otherwise the source of the regular entry, printing a warning; it takes
    one of the two, and the later passes copy from the same one. *)
Theorem overlay_precedence
    (config : DotfilesConfig) (repo_path dest_path custom_path : text)
    (st : state) :
  In (repo_path, dest_path) (file_map config) ->
  custom_map config !! dest_path = Some custom_path ->
  startswith (T "custom:") repo_path = false ->
  let custom_file := joinpath (custom_dir config) custom_path in
  let repo_file := joinpath (repo_dir config) repo_path in
  let out := resolve_source config repo_path dest_path st in
  (exists_ (fs st) custom_file = true ->
   out = (inr (custom_file, T "custom:" ++ custom_path), st)
   /\ source_of config (T "custom:" ++ custom_path) = custom_file)
  /\ (exists_ (fs st) custom_file = false ->
      out = (inr (repo_file, repo_path),
             printed st [WarnCustomNotFound custom_file])
      /\ source_of config repo_path = repo_file)
  /\ (exists shown, out.1 = inr (custom_file, shown)
                    \/ out.1 = inr (repo_file, shown)).
Proof.
  intros _ Hcustom Hrepo custom_file repo_file out.
  subst out. unfold resolve_source. rewrite Hcustom.
  unfold bind, get_fs. fold custom_file. cbn [fs].
  split; [|split].
  - intros ->. split; [reflexivity|].
    unfold source_of.
    replace (startswith (T "custom:") (T "custom:" ++ custom_path)) with true
      by (symmetry; apply startswith_spec; eauto).
    reflexivity.
  - intros ->. split; [reflexivity|].
    unfold source_of. now rewrite Hrepo.
  - destruct (exists_ (fs st) custom_file).
    + exists (T "custom:" ++ custom_path). now left.
    + exists repo_path. now right.
Qed.

Lemma overlay_precedence_witness :
  (* the overlay file is there: it is the source *)
  (let st := mkState (overlay_disk
                        [(T "my-custom.txt", File (Utf8 custom_content) 4)])
               [] [] in
   resolve_source overlay_config (T "HOME/testfile") (T ".testfile") st
   = (inr (my_custom, T "custom:my-custom.txt"), st))
  (* it is not: the repository file is the source, with a warning *)
  /\ (let st := mkState (overlay_disk []) [] [] in
      resolve_source overlay_config (T "HOME/testfile") (T ".testfile") st
      = (inr ([T "repo"; T "HOME"; T "testfile"], T "HOME/testfile"),
         printed st [WarnCustomNotFound my_custom])).
Proof.
  split.
  - destruct (overlay_precedence overlay_config (T "HOME/testfile")
                (T ".testfile") (T "my-custom.txt")
                (mkState (overlay_disk
                            [(T "my-custom.txt", File (Utf8 custom_content) 4)])
                   [] []))
      as (H & _ & _).
    + vm_compute. tauto.
    + reflexivity.
    + reflexivity.
    + exact (proj1 (H eq_refl)).
  - destruct (overlay_precedence overlay_config (T "HOME/testfile")
                (T ".testfile") (T "my-custom.txt")
                (mkState (overlay_disk []) [] []))
      as (_ & H & _).
    + vm_compute. tauto.
    + reflexivity.
    + reflexivity.
    + exact (proj1 (H eq_refl)).
Defined.


(** ** Facts on the file system *)

Module FSFacts.

Lemma eqb_text_refl (a : text) : eqb_text a a = true.
Proof. now apply eqb_text_eq. Qed.

Lemma eqb_text_neq (a b : text) : eqb_text a b = false <-> a <> b.
Proof.
  rewrite <- eqb_text_eq. destruct (eqb_text a b); split; congruence.
Qed.

Lemma eqb_path_eq (a b : path) : eqb_path a b = true <-> a = b.
Proof.
  revert b; induction a as [|x a IH]; intros [|y b]; simpl; try easy.
  rewrite andb_true_iff, eqb_text_eq, IH. split.
  - intros [-> ->]; reflexivity.
  - intros [= -> ->]; auto.
Qed.

Lemma assoc_set_same (k : name) (v : node) (es : list (name * node)) :
  assoc k (assoc_set k v es) = Some v.
Proof.
  induction es as [|[k' v'] es IH]; simpl.
  - now rewrite eqb_text_refl.
  - destruct (eqb_text k k') eqn:E; simpl.
    + now rewrite eqb_text_refl.
    + now rewrite E.
Qed.

Lemma assoc_set_other (k k' : name) (v : node) (es : list (name * node)) :
  eqb_text k' k = false -> assoc k' (assoc_set k v es) = assoc k' es.
Proof.
  intros Hne. induction es as [|[k0 v0] es IH]; simpl.
  - now rewrite Hne.
  - destruct (eqb_text k k0) eqn:E; simpl.
    + apply eqb_text_eq in E as <-. now rewrite Hne.
    + now rewrite IH.
Qed.

Lemma assoc_del_other (k k' : name) (es : list (name * node)) :
  eqb_text k' k = false -> assoc k' (assoc_del k es) = assoc k' es.
Proof.
  intros Hne. induction es as [|[k0 v0] es IH]; simpl; [reflexivity|].
  destruct (eqb_text k k0) eqn:E; simpl.
  - apply eqb_text_eq in E as <-. now rewrite Hne.
  - now rewrite IH.
Qed.

Lemma assoc_del_same (k : name) (es : list (name * node)) :
  assoc k (assoc_del k es) = None.
Proof.
  induction es as [|[k0 v0] es IH]; simpl; [reflexivity|].
  destruct (eqb_text k k0) eqn:E; simpl; [assumption|]. now rewrite E.
Qed.

Lemma lookup_put_same (n n' : node) (p : path) (v : node) :
  put n p v = Some n' -> lookup n' p = Some v.
Proof.
  revert n n'; induction p as [|s p IH]; intros n n'; simpl.
  - now intros [= <-].
  - destruct n as [|es]; [discriminate|].
    destruct p as [|s' p'].
    + intros [= <-]. simpl. now rewrite assoc_set_same.
    + destruct (assoc s es) as [c|]; [|discriminate].
      destruct (put c (s' :: p') v) as [c'|] eqn:E; [|discriminate].
      intros [= <-]. cbn [lookup]. rewrite assoc_set_same. now apply (IH c).
Qed.

Lemma lookup_put_other (n n' : node) (p q : path) (v : node) :
  put n p v = Some n' ->
  is_prefix p q = false -> is_prefix q p = false ->
  lookup n' q = lookup n q.
Proof.
  revert n n' q; induction p as [|s p IH]; intros n n' q; simpl.
  - discriminate.
  - destruct n as [|es]; [discriminate|].
    destruct q as [|x q]; [discriminate|]. cbn [is_prefix lookup].
    destruct (eqb_text s x) eqn:Esx.
    + apply eqb_text_eq in Esx as <-. rewrite eqb_text_refl. cbn [andb].
      destruct p as [|s' p']; [discriminate|].
      destruct (assoc s es) as [c|] eqn:Ec; [|discriminate].
      destruct (put c (s' :: p') v) as [c'|] eqn:E; [|discriminate].
      intros [= <-] H1 H2. cbn [lookup]. rewrite assoc_set_same.
      now apply (IH c).
    + assert (Exs : eqb_text x s = false).
      { apply eqb_text_neq. apply eqb_text_neq in Esx. congruence. }
      intros Hput _ _.
      assert (exists c', n' = Dir (assoc_set s c' es)) as [c' ->].
      { destruct p as [|s' p'].
        - injection Hput as <-. eauto.
        - destruct (assoc s es) as [c|]; [|discriminate].
          destruct (put c (s' :: p') v) as [c'|]; [|discriminate].
          injection Hput as <-. eauto. }
      cbn [lookup]. now rewrite assoc_set_other.
Qed.

Lemma lookup_remove_other (n n' : node) (p q : path) :
  remove n p = Some n' ->
  is_prefix p q = false -> is_prefix q p = false ->
  lookup n' q = lookup n q.
Proof.
  revert n n' q; induction p as [|s p IH]; intros n n' q; simpl.
  - discriminate.
  - destruct n as [|es]; [discriminate|].
    destruct (assoc s es) as [c|] eqn:Ec; [|discriminate].
    destruct q as [|x q]; [discriminate|]. cbn [is_prefix lookup].
    destruct (eqb_text s x) eqn:Esx.
    + apply eqb_text_eq in Esx as <-. rewrite eqb_text_refl. cbn [andb].
      destruct p as [|s' p']; [discriminate|].
      destruct (remove c (s' :: p')) as [c'|] eqn:E; [|discriminate].
      intros [= <-] H1 H2. cbn [lookup]. rewrite assoc_set_same, Ec.
      now apply (IH c).
    + assert (Exs : eqb_text x s = false).
      { apply eqb_text_neq. apply eqb_text_neq in Esx. congruence. }
      intros Hrm _ _. destruct p as [|s' p'].
      * injection Hrm as <-. cbn [lookup]. now rewrite assoc_del_other.
      * destruct (remove c (s' :: p')) as [c'|]; [|discriminate].
        injection Hrm as <-. cbn [lookup]. now rewrite assoc_set_other.
Qed.

Lemma lookup_remove_same (n n' : node) (p : path) :
  remove n p = Some n' -> lookup n' p = None.
Proof.
  revert n n'; induction p as [|s p IH]; intros n n'; simpl; [discriminate|].
  destruct n as [|es]; [discriminate|].
  destruct (assoc s es) as [c|] eqn:Ec; [|discriminate].
  destruct p as [|s' p'].
  - intros [= <-]. now rewrite assoc_del_same.
  - destruct (remove c (s' :: p')) as [c'|] eqn:E; [|discriminate].
    intros [= <-]. rewrite assoc_set_same. now apply (IH c).
Qed.

Lemma remove_succeeds (n : node) (p : path) :
  p <> [] -> exists_ n p = true -> exists n', remove n p = Some n'.
Proof.
  unfold exists_. revert n; induction p as [|s p IH]; intros n Hne;
    [congruence|]. simpl.
  destruct n as [|es]; [discriminate|].
  destruct (assoc s es) as [c|]; [|discriminate].
  destruct p as [|s' p']; [eauto|]. intros Hc.
  destruct (IH c) as [c' ->]; [discriminate|assumption|eauto].
Qed.

Lemma is_prefix_siblings (d : path) (a b : name) :
  a <> b -> is_prefix (d ++ [a]) (d ++ [b]) = false.
Proof.
  intros Hab. induction d as [|x d IH]; simpl.
  - apply eqb_text_neq in Hab. now rewrite Hab.
  - now rewrite IH, andb_false_r.
Qed.

Lemma parent_basename (p : path) : p <> [] -> p = parent p ++ [basename p].
Proof. intros Hne. now apply app_removelast_last. Qed.

Lemma lookup_mkdir_p_other (n n' : node) (p q : path) :
  mkdir_p n p = Some n' -> is_prefix q p = false ->
  lookup n' q = lookup n q.
Proof.
  revert n n' q; induction p as [|s p IH]; intros n n' q.
  - destruct n; simpl; [discriminate|]. now intros [= <-].
  - destruct n as [|es]; [discriminate|]. cbn [mkdir_p].
    destruct (mkdir_p _ p) as [c'|] eqn:E; [|discriminate].
    intros [= <-]. destruct q as [|x q]; [discriminate|].
    cbn [is_prefix lookup]. destruct (eqb_text x s) eqn:Exs.
    + apply eqb_text_eq in Exs as ->. cbn [andb]. intros Hq.
      rewrite assoc_set_same, (IH _ _ q E Hq).
      destruct (assoc s es); [reflexivity|].
      destruct q; [discriminate Hq | reflexivity].
    + intros _. now rewrite assoc_set_other.
Qed.

Lemma mkdir_p_is_dir (n n' : node) (p : path) :
  mkdir_p n p = Some n' -> is_dir n' p = true.
Proof.
  unfold is_dir. revert n n'; induction p as [|s p IH]; intros n n'.
  - destruct n; simpl; [discriminate|]. now intros [= <-].
  - destruct n as [|es]; [discriminate|]. cbn [mkdir_p].
    destruct (mkdir_p _ p) as [c'|] eqn:E; [|discriminate].
    intros [= <-]. cbn [lookup]. rewrite assoc_set_same. now apply (IH _ _ E).
Qed.

Lemma put_succeeds (n : node) (p : path) (v : node) :
  p <> [] -> is_dir n (parent p) = true -> exists n', put n p v = Some n'.
Proof.
  unfold is_dir, parent. revert n; induction p as [|s p IH]; intros n Hne;
    [congruence|].
  destruct p as [|s' p'].
  - simpl. destruct n as [|es]; [discriminate|]. eauto.
  - change (removelast (s :: s' :: p')) with (s :: removelast (s' :: p')).
    destruct n as [|es]; [discriminate|]. cbn [lookup].
    change (put (Dir es) (s :: s' :: p') v)
      with (match assoc s es with
            | Some c => match put c (s' :: p') v with
                        | Some c' => Some (Dir (assoc_set s c' es))
                        | None => None
                        end
            | None => None
            end).
    destruct (assoc s es) as [c|]; [|discriminate].
    intros H. destruct (IH c ltac:(discriminate) H) as [c' ->]. eauto.
Qed.

Lemma is_prefix_parent (q p : path) :
  is_prefix q p = false -> is_prefix q (parent p) = false.
Proof.
  unfold parent. revert q; induction p as [|s p IH]; intros q.
  - destruct q; simpl; congruence.
  - destruct q as [|x q]; [discriminate|].
    destruct p as [|s' p'].
    + reflexivity.
    + change (removelast (s :: s' :: p')) with (s :: removelast (s' :: p')).
      cbn [is_prefix]. destruct (eqb_text x s); [|reflexivity].
      cbn [andb]. apply IH.
Qed.

End FSFacts.

(** ** The library calls, run *)

Lemma mkdir_run (p : path) (st : state) :
  mkdir p st
  = match mkdir_p (fs st) p with
    | Some n => (inr tt, called st (OpMkdir p) n)
    | None => (inl (if is_file (fs st) p then FileExistsError
                    else NotADirectoryError),
               called st (OpMkdir p) (fs st))
    end.
Proof.
  unfold mkdir, bind, call, emit, get_fs, store, set_fs, raise, called.
  cbn. destruct (mkdir_p (fs st) p); reflexivity.
Qed.

Lemma copy2_file_run (src dst : path) (st : state) (d : data) (m : meta) :
  lookup (fs st) src = Some (File d m) ->
  is_dir (fs st) dst = false ->
  eqb_path src dst = false ->
  is_dir (fs st) (parent dst) = true ->
  dst <> [] ->
  exists n, put (fs st) dst (File d m) = Some n
            /\ copy2 src dst st = (inr tt, called st (OpCopy2 src dst) n).
Proof.
  intros Hsrc Hdst Hne Hpar Hnil.
  destruct (FSFacts.put_succeeds (fs st) dst (File d m) Hnil Hpar) as [n Hn].
  exists n. split; [assumption|].
  unfold copy2, bind, call, emit, get_fs, store, set_fs, raise, called.
  cbn. rewrite Hdst, Hsrc, Hne, Hdst, Hpar. cbn. now rewrite Hn.
Qed.

Lemma rmtree_run (p : path) (st : state) (n : node) :
  is_dir (fs st) p = true -> remove (fs st) p = Some n ->
  rmtree p st = (inr tt, called st (OpRmtree p) n).
Proof.
  intros Hd Hr. unfold rmtree, bind, call, emit, get_fs, store, set_fs, called.
  cbn. unfold is_dir in Hd.
  destruct (lookup (fs st) p) as [[d m|es]|]; try discriminate. now rewrite Hr.
Qed.

Lemma rmtree_ok (p : path) (st st' : state) :
  rmtree p st = (inr tt, st') ->
  exists n, remove (fs st) p = Some n /\ st' = called st (OpRmtree p) n.
Proof.
  unfold rmtree, bind, call, emit, get_fs, store, set_fs, raise, called. cbn.
  destruct (lookup (fs st) p) as [[d m|es]|]; try discriminate.
  destruct (remove (fs st) p) as [n|]; [|discriminate].
  intros [= <-]. eauto.
Qed.

Lemma copytree_ok (src dst : path) (st st' : state) :
  copytree src dst st = (inr tt, st') ->
  exists es n1 n,
    lookup (fs st) src = Some (Dir es)
    /\ mkdir_p (fs st) (parent dst) = Some n1
    /\ put n1 dst (Dir es) = Some n
    /\ st' = called st (OpCopytree src dst) n.
Proof.
  unfold copytree, bind, call, emit, get_fs, store, set_fs, raise, called. cbn.
  destruct (lookup (fs st) src) as [[d m|es]|]; try discriminate.
  destruct (exists_ _ dst); [discriminate|].
  destruct (mkdir_p _ (parent dst)) as [n1|]; [|discriminate].
  destruct (put n1 dst (Dir es)) as [n|] eqn:E; [|discriminate].
  intros [= <-]. exists es, n1, n. auto.
Qed.

Lemma copy2_ok (src dst : path) (st st' : state) :
  copy2 src dst st = (inr tt, st') ->
  exists d m n,
    lookup (fs st) src = Some (File d m)
    /\ put (fs st) (if is_dir (fs st) dst then dst ++ [basename src] else dst)
         (File d m) = Some n
    /\ st' = called st (OpCopy2 src dst) n.
Proof.
  unfold copy2, bind, call, emit, get_fs, store, set_fs, raise, called. cbn.
  destruct (lookup (fs st) src) as [[d m|es]|]; try discriminate.
  set (target := if is_dir (fs st) dst then dst ++ [basename src] else dst).
  destruct (eqb_path src target); [discriminate|].
  destruct (is_dir (fs st) target); [discriminate|].
  destruct (negb _); [discriminate|].
  destruct (put (fs st) target (File d m)) as [n|] eqn:E; [|discriminate].
  intros [= <-]. exists d, m, n. auto.
Qed.

(** ** The backup step *)

Lemma is_prefix_self_parent (p : path) :
  p <> [] -> is_prefix p (parent p) = false.
Proof.
  unfold parent. induction p as [|s p IH]; [congruence|]. intros _.
  destruct p as [|s' p']; [reflexivity|].
  change (removelast (s :: s' :: p')) with (s :: removelast (s' :: p')).
  cbn [is_prefix]. rewrite FSFacts.eqb_text_refl. cbn [andb].
  apply IH. discriminate.
Qed.

Lemma wants_backup_spec (n : node) (dest_file : path) (action : choice)
    (st : status) (force : bool) :
  action = replace \/ action = backup_replace ->
  wants_backup n dest_file action st force = true
  <-> exists_ n dest_file = true
      /\ (action = backup_replace
          \/ (action = replace /\ st = modified /\ force = false)).
Proof.
  unfold wants_backup. intros [-> | ->]; destruct (exists_ n dest_file);
    destruct st, force; cbn; intuition congruence.
Qed.

(** C5.  In the apply loop, for a Replace or BackupReplace decision, the
    destination is copied into the backup directory, at the path of the
    destination relative to the home directory, before it is overwritten,
    exactly when it exists and the action is BackupReplace or the action is
    Replace of a Modified file without the force flag; a directory is copied
    with [copytree] (after an older backup was removed), a file with
    [copy2], data and metadata. *)
Theorem backup_before_overwrite
    (os : oracle) (config : DotfilesConfig) (backup : path) (force : bool)
    (repo_path dest_path : text) (status_ : status) (action : choice)
    (actions : gmap text choice) (rest : list (text * text * status))
    (files_skipped : list text) (files_synced : list (text * text))
    (s : state) :
  action = replace \/ action = backup_replace ->
  let dest_file := joinpath (home os) dest_path in
  let backup_path := joinpath backup dest_path in
  let decided :=
    exists_ (fs s) dest_file = true
    /\ (action = backup_replace
        \/ (action = replace /\ status_ = modified /\ force = false)) in
  let out := backup_existing os backup force dest_path status_ action s in
  (actions !! repo_path = Some action ->
   apply_changes os config backup force actions
     ((repo_path, dest_path, status_) :: rest) files_skipped files_synced
   = (backup_existing os backup force dest_path status_ action;;;
      copy_to_destination os config repo_path dest_path;;;
      apply_changes os config backup force actions rest files_skipped
        (files_synced ++ [(repo_path, dest_path)])))
  /\ (~ decided -> out = (inr tt, s))
  /\ (decided -> out.1 = inr tt ->
      is_prefix dest_file backup_path = false ->
      is_prefix backup_path dest_file = false ->
      exists evs,
        journal out.2 = journal s ++ evs
        /\ calls evs
           = OpMkdir (parent backup_path)
             :: (if is_dir (fs s) dest_file then
                   (if exists_ (fs s) backup_path
                    then [OpRmtree backup_path] else [])
                   ++ [OpCopytree dest_file backup_path]
                 else [OpCopy2 dest_file backup_path])
        /\ (is_dir (fs s) dest_file = true \/ is_dir (fs s) backup_path = false ->
            lookup (fs out.2) backup_path = lookup (fs s) dest_file))
  /\ (decided ->
      is_prefix dest_file backup_path = false ->
      is_prefix backup_path dest_file = false ->
      is_file (fs s) dest_file = true ->
      is_dir (fs s) backup_path = false ->
      mkdir_p (fs s) (parent backup_path) <> None ->
      out.1 = inr tt).
Proof.
  intros Hact dest_file backup_path decided out.
  pose proof (wants_backup_spec (fs s) dest_file action status_ force Hact)
    as Hwant. fold decided in Hwant.
  split; [|split; [|split]].
  - intros Hlook. cbn [apply_changes]. rewrite Hlook. cbn [default].
    destruct Hact as [-> | ->]; reflexivity.
  - intros Hno. subst out. unfold backup_existing, bind, get_fs.
    fold dest_file. cbn [fs].
    destruct (wants_backup (fs s) dest_file action status_ force);
      [exfalso; apply Hno; now apply Hwant|reflexivity].
  - intros Hyes Hok Hsep1 Hsep2. subst out.
    assert (Hbp : backup_path <> [])
      by (intros E; rewrite E in Hsep2; discriminate Hsep2).
    revert Hok. unfold backup_existing, bind, get_fs.
    fold dest_file backup_path. cbn [fs].
    rewrite (proj2 Hwant Hyes). rewrite mkdir_run.
    destruct (mkdir_p (fs s) (parent backup_path)) as [n1|] eqn:Hmk;
      [|discriminate].
    unfold print, emit. cbn [fs journal stdin called].
    assert (Hd1 : forall q, is_prefix q backup_path = false ->
                            lookup n1 q = lookup (fs s) q).
    { intros q Hq. apply (FSFacts.lookup_mkdir_p_other _ _ _ _ Hmk).
      now apply FSFacts.is_prefix_parent. }
    assert (Hdest : lookup n1 dest_file = lookup (fs s) dest_file)
      by now apply Hd1.
    assert (Hbk : lookup n1 backup_path = lookup (fs s) backup_path).
    { apply (FSFacts.lookup_mkdir_p_other _ _ _ _ Hmk).
      now apply is_prefix_self_parent. }
    assert (Hisdir : is_dir n1 dest_file = is_dir (fs s) dest_file)
      by (unfold is_dir; now rewrite Hdest).
    assert (Hexists : exists_ n1 backup_path = exists_ (fs s) backup_path)
      by (unfold exists_; now rewrite Hbk).
    rewrite Hisdir, Hexists.
    destruct (is_dir (fs s) dest_file) eqn:Hdir.
    + destruct (exists_ (fs s) backup_path) eqn:Hex.
      * (* the old backup is removed first *)
        match goal with
        | |- context [rmtree backup_path ?s1] =>
            destruct (rmtree backup_path s1) as [[e|[]] s2] eqn:Hrm
        end; [discriminate|].
        apply rmtree_ok in Hrm as (n2 & Hrem & ->).
        match goal with
        | |- context [copytree dest_file backup_path ?s2] =>
            destruct (copytree dest_file backup_path s2) as [[e|[]] s3] eqn:Hcp
        end; [discriminate|].
        apply copytree_ok in Hcp as (es & n3 & n4 & Hsrc & Hmk3 & Hput & ->).
        intros _. cbn [snd fs journal stdin called] in *.
        eexists. split; [rewrite <- !app_assoc; reflexivity|].
        split; [reflexivity|]. intros _. cbn [snd fs called].
        rewrite (FSFacts.lookup_put_same _ _ _ _ Hput).
        rewrite <- Hsrc, <- Hdest.
        now apply (FSFacts.lookup_remove_other _ _ _ _ Hrem).
      * unfold ret. cbv beta iota.
        match goal with
        | |- context [copytree dest_file backup_path ?s2] =>
            destruct (copytree dest_file backup_path s2) as [[e|[]] s3] eqn:Hcp
        end; [discriminate|].
        apply copytree_ok in Hcp as (es & n3 & n4 & Hsrc & Hmk3 & Hput & ->).
        intros _. cbn [snd fs journal stdin called] in *.
        eexists. split; [rewrite <- !app_assoc; reflexivity|].
        split; [reflexivity|]. intros _. cbn [snd fs called].
        rewrite (FSFacts.lookup_put_same _ _ _ _ Hput).
        now rewrite <- Hsrc, <- Hdest.
    + match goal with
      | |- context [copy2 dest_file backup_path ?s2] =>
          destruct (copy2 dest_file backup_path s2) as [[e|[]] s3] eqn:Hcp
      end; [discriminate|].
      apply copy2_ok in Hcp as (d & m & n & Hsrc & Hput & ->).
      intros _. cbn [snd fs journal stdin called] in *.
      eexists. split; [rewrite <- !app_assoc; reflexivity|].
      split; [reflexivity|]. intros [Hc | Hnd]; [discriminate Hc|].
      cbn [snd fs called].
      assert (Hnd1 : is_dir n1 backup_path = false)
        by (unfold is_dir in *; now rewrite Hbk).
      rewrite Hnd1 in Hput.
      rewrite (FSFacts.lookup_put_same _ _ _ _ Hput).
      now rewrite <- Hsrc, <- Hdest.
  - intros Hyes Hsep1 Hsep2 Hfile Hnd Hmk. subst out.
    assert (Hbp : backup_path <> [])
      by (intros E; rewrite E in Hsep2; discriminate Hsep2).
    unfold backup_existing, bind, get_fs.
    fold dest_file backup_path. cbn [fs].
    rewrite (proj2 Hwant Hyes). rewrite mkdir_run.
    destruct (mkdir_p (fs s) (parent backup_path)) as [n1|] eqn:Hmk1;
      [|congruence].
    unfold print, emit. cbn [fs journal stdin called].
    assert (Hdest : lookup n1 dest_file = lookup (fs s) dest_file).
    { apply (FSFacts.lookup_mkdir_p_other _ _ _ _ Hmk1).
      now apply FSFacts.is_prefix_parent. }
    assert (Hbk : lookup n1 backup_path = lookup (fs s) backup_path).
    { apply (FSFacts.lookup_mkdir_p_other _ _ _ _ Hmk1).
      now apply is_prefix_self_parent. }
    unfold is_file in Hfile.
    destruct (lookup (fs s) dest_file) as [[d m|es]|] eqn:Hl; try discriminate.
    assert (Hisdir : is_dir n1 dest_file = false)
      by (unfold is_dir; now rewrite Hdest).
    rewrite Hisdir.
    match goal with
    | |- (copy2 dest_file backup_path ?s2).1 = _ =>
        destruct (copy2_file_run dest_file backup_path s2 d m)
          as (n & _ & ->); [| | | | |reflexivity]
    end; cbn [fs].
    + exact Hdest.
    + unfold is_dir in *. now rewrite Hbk.
    + destruct (eqb_path dest_file backup_path) eqn:E; [|reflexivity].
      apply FSFacts.eqb_path_eq in E. rewrite <- E in Hsep1.
      clear -Hsep1. exfalso. induction dest_file as [|x p IH]; [discriminate|].
      cbn [is_prefix] in Hsep1. rewrite FSFacts.eqb_text_refl in Hsep1. auto.
    + now apply (FSFacts.mkdir_p_is_dir (fs s)).
    + exact Hbp.
Qed.

Lemma backup_before_overwrite_witness :
  let s := mkState (disk [] [(T "testfile", File (Utf8 (T "repo content")) 2)]
                      [(T ".testfile", File (Utf8 (T "system content")) 3)])
             [] [] in
  lookup (fs (backup_existing demo_os backup_root false (T ".testfile")
                modified replace s).2) [T "bk"; T ".testfile"]
  = Some (File (Utf8 (T "system content")) 3).
Proof.
  intros s.
  destruct (backup_before_overwrite demo_os
              (new_config demo_os [T "repo"] (Some conf_path)) backup_root
              false (T "HOME/testfile") (T ".testfile") modified replace
              ∅ [] [] [] s (or_introl eq_refl)) as (_ & _ & H & _).
  destruct H as (evs & _ & _ & Hcopy).
  - split; [reflexivity|]. right. repeat split.
  - reflexivity.
  - reflexivity.
  - reflexivity.
  - apply Hcopy. right. reflexivity.
Defined.

(** ** What a computation can do to the state *)

Section Grows.

Variable Q : node -> node -> Prop.
Variable P : event -> Prop.
Hypothesis Q_refl : forall n, Q n n.
Hypothesis Q_trans : forall a b c, Q a b -> Q b c -> Q a c.

Lemma grows_refl (s : state) : grows Q P s s.
Proof.
  split; [apply Q_refl|]. exists []. now rewrite app_nil_r.
Qed.

Lemma grows_trans (a b c : state) :
  grows Q P a b -> grows Q P b c -> grows Q P a c.
Proof.
  intros [Hq1 (e1 & E1 & F1)] [Hq2 (e2 & E2 & F2)].
  split; [eapply Q_trans; eauto|]. exists (e1 ++ e2).
  rewrite E2, E1, app_assoc. split; [reflexivity|]. now apply Forall_app.
Qed.

Lemma grows_ret {A} (a : A) : steps (grows Q P) (ret a).
Proof. intros st. apply grows_refl. Qed.

Lemma grows_raise {A} (e : exn) : steps (grows Q P) (@raise A e).
Proof. intros st. apply grows_refl. Qed.

Lemma grows_lift {A} (r : exn + A) : steps (grows Q P) (lift r).
Proof. intros st. apply grows_refl. Qed.

Lemma grows_get_fs : steps (grows Q P) get_fs.
Proof. intros st. apply grows_refl. Qed.

Lemma grows_bind {A B} (m : M A) (k : A -> M B) :
  steps (grows Q P) m -> (forall a, steps (grows Q P) (k a)) ->
  steps (grows Q P) (bind m k).
Proof.
  intros Hm Hk st. unfold bind. specialize (Hm st).
  destruct (m st) as [[e|a] st']; [exact Hm|].
  eapply grows_trans; [exact Hm | apply Hk].
Qed.

Lemma grows_try_except {A} (m : M A) (handles : exn -> bool) (h : exn -> M A) :
  steps (grows Q P) m -> (forall e, steps (grows Q P) (h e)) ->
  steps (grows Q P) (try_except m handles h).
Proof.
  intros Hm Hh st. unfold try_except. specialize (Hm st).
  destruct (m st) as [[e|a] st']; [|exact Hm].
  destruct (handles e); [|exact Hm].
  eapply grows_trans; [exact Hm | apply Hh].
Qed.

Lemma grows_try_finally {A} (m : M A) (c : M unit) :
  steps (grows Q P) m -> steps (grows Q P) c ->
  steps (grows Q P) (try_finally m c).
Proof.
  intros Hm Hc st. unfold try_finally. specialize (Hm st).
  destruct (m st) as [r st']. specialize (Hc st').
  destruct (c st') as [[e|u] st'']; eapply grows_trans; eauto.
Qed.

Lemma grows_emit (ev : event) : P ev -> steps (grows Q P) (emit ev).
Proof.
  intros Hev st. split; [apply Q_refl|]. exists [ev]. cbn. auto.
Qed.

Lemma grows_stdin (st : state) (rest : list text) :
  grows Q P st (mkState (fs st) (journal st) rest).
Proof.
  split; [apply Q_refl|]. exists []. cbn. now rewrite app_nil_r.
Qed.

Lemma grows_input : steps (grows Q P) input.
Proof.
  intros st. unfold input. destruct (stdin st); [apply grows_refl|].
  apply grows_stdin.
Qed.

Lemma grows_review : steps (grows Q P) review.
Proof.
  intros st. unfold review. destruct (review_loop (stdin st)).
  apply grows_stdin.
Qed.

End Grows.

Lemma quiet_set_fs (n : node) : quiet (set_fs n).
Proof.
  intros st. split; [exact I|]. exists []. cbn. now rewrite app_nil_r.
Qed.

Ltac side_goal :=
  solve [ intros; exact I
        | intros; reflexivity
        | intros; etransitivity; eassumption
        | unfold not_cancelled, no_call; intros; discriminate
        | split; unfold not_cancelled, no_call; intros; discriminate ].

Create HintDb steps.

Ltac steps_go :=
  repeat first
    [ solve [auto with steps]
    | apply grows_ret; side_goal
    | apply grows_raise; side_goal
    | apply grows_lift; side_goal
    | apply grows_get_fs; side_goal
    | apply grows_input; side_goal
    | apply grows_review; side_goal
    | apply grows_emit; side_goal
    | apply grows_bind; try side_goal; [ | intros ?]
    | apply grows_try_except; try side_goal; [ | intros ?]
    | apply grows_try_finally; try side_goal; [ | ]
    | match goal with
      | |- steps _ (match ?x with _ => _ end) => destruct x
      end ].

Lemma quiet_store (r : option node) (e : exn) : quiet (store r e).
Proof. destruct r; [apply quiet_set_fs | steps_go]. Qed.

#[export] Hint Resolve quiet_store : steps.

Lemma quiet_mkdir (p : path) : quiet (mkdir p).
Proof. unfold mkdir. steps_go. Qed.

Lemma quiet_copy2 (src dst : path) : quiet (copy2 src dst).
Proof. unfold copy2. steps_go. Qed.

Lemma quiet_copytree (src dst : path) : quiet (copytree src dst).
Proof. unfold copytree. steps_go. Qed.

Lemma quiet_rmtree (p : path) : quiet (rmtree p).
Proof. unfold rmtree. steps_go. Qed.

Lemma quiet_unlink (p : path) : quiet (unlink p).
Proof. unfold unlink. steps_go. Qed.

Lemma quiet_write_text (os : oracle) (p : path) (t : text) :
  quiet (write_text os p t).
Proof. unfold write_text. steps_go. Qed.

Lemma quiet_mkstemp (os : oracle) (dir : path) (suffix : text) :
  quiet (mkstemp os dir suffix).
Proof. unfold mkstemp. steps_go. Qed.

#[export] Hint Resolve quiet_mkdir quiet_copy2 quiet_copytree quiet_rmtree
  quiet_unlink quiet_write_text quiet_mkstemp : steps.

Lemma quiet_validate_env_file (p : path) : quiet (validate_env_file p).
Proof. unfold validate_env_file. steps_go. Qed.

#[export] Hint Resolve quiet_validate_env_file : steps.

Lemma quiet_select_env_files (env_files : list path) :
  quiet (select_env_files env_files).
Proof.
  induction env_files as [|p rest IH]; cbn [select_env_files]; steps_go.
Qed.

#[export] Hint Resolve quiet_select_env_files : steps.

Lemma quiet_run_envsubst (os : oracle) (vs : list path) (f o : path) :
  quiet (run_envsubst os vs f o).
Proof. unfold run_envsubst. steps_go. Qed.

#[export] Hint Resolve quiet_run_envsubst : steps.

Lemma quiet_process_template_file (os : oracle) (f : path) (env : list path) :
  quiet (process_template_file os f env).
Proof. unfold process_template_file. steps_go. Qed.

#[export] Hint Resolve quiet_process_template_file : steps.

Lemma quiet_scan_templates (os : oracle) (synced : list (text * text))
    (found : list (path * gset text)) (rb : list (path * path)) :
  quiet (scan_templates os synced found rb).
Proof.
  revert found rb; induction synced as [|[rp dp] rest IH]; intros found rb;
    cbn [scan_templates]; steps_go.
Qed.

Lemma quiet_process_found (os : oracle) (env : list path)
    (found : list (path * gset text)) (k : nat) (failed : list path) :
  quiet (process_found os env found k failed).
Proof.
  revert k failed; induction found as [|[f vs] rest IH]; intros k failed;
    cbn [process_found]; steps_go.
Qed.

Lemma quiet_report_rollbacks (failed : list path) (rb : list (path * path)) :
  quiet (report_rollbacks failed rb).
Proof.
  induction failed as [|f rest IH]; cbn [report_rollbacks]; steps_go.
Qed.

Lemma quiet_cleanup_rollbacks (failed : list path) (rb : list (path * path)) :
  quiet (cleanup_rollbacks failed rb).
Proof.
  induction rb as [|[f r] rest IH]; cbn [cleanup_rollbacks]; steps_go.
Qed.

#[export] Hint Resolve quiet_scan_templates quiet_process_found
  quiet_report_rollbacks quiet_cleanup_rollbacks : steps.

Lemma quiet_process_synced_templates (os : oracle) (synced : list (text * text)) :
  quiet (process_synced_templates os synced).
Proof. unfold process_synced_templates. steps_go. Qed.

Lemma quiet_backup_existing (os : oracle) (backup : path) (force : bool)
    (dest_path : text) (st : status) (action : choice) :
  quiet (backup_existing os backup force dest_path st action).
Proof. unfold backup_existing. steps_go. Qed.

Lemma quiet_copy_to_destination (os : oracle) (config : DotfilesConfig)
    (repo_path dest_path : text) :
  quiet (copy_to_destination os config repo_path dest_path).
Proof. unfold copy_to_destination. steps_go. Qed.

#[export] Hint Resolve quiet_process_synced_templates quiet_backup_existing
  quiet_copy_to_destination : steps.

Lemma quiet_apply_changes (os : oracle) (config : DotfilesConfig)
    (backup : path) (force : bool) (actions : gmap text choice)
    (files : list (text * text * status)) (skipped : list text)
    (synced : list (text * text)) :
  quiet (apply_changes os config backup force actions files skipped synced).
Proof.
  revert skipped synced; induction files as [|[[rp dp] st] rest IH];
    intros skipped synced; cbn [apply_changes]; steps_go.
Qed.

Lemma readonly_resolve_source (config : DotfilesConfig) (rp dp : text) :
  readonly (resolve_source config rp dp).
Proof. unfold resolve_source. steps_go. Qed.

#[export] Hint Resolve readonly_resolve_source : steps.

Lemma readonly_analyze (os : oracle) (config : DotfilesConfig)
    (items : list (text * text)) (to_sync : list (text * text * status))
    (identical : list (text * text)) :
  readonly (analyze os config items to_sync identical).
Proof.
  revert to_sync identical; induction items as [|[rp dp] rest IH];
    intros to_sync identical; cbn [analyze]; steps_go.
Qed.

(** The preview loop leaves the file system alone, and prints that the sync
    was cancelled only when it gives no plan. *)
Lemma preview_loop_cancel (os : oracle) (config : DotfilesConfig)
    (strat : strategy) (files : list (text * text * status))
    (actions : gmap text choice) (st : state)
    (r : exn + option (gmap text choice)) (s' : state) :
  preview_loop os config strat files actions st = (r, s') ->
  fs s' = fs st
  /\ exists evs, journal s' = journal st ++ evs
                 /\ Forall no_call evs
                 /\ (In (Printed MsgSyncCancelled) evs -> r = inr None).
Proof.
  revert actions st; induction files as [|[[rp dp] status_] rest IH];
    intros actions st; cbn [preview_loop].
  - intros [= <- <-]. split; [reflexivity|]. exists []. rewrite app_nil_r.
    split; [reflexivity|]. split; [constructor|]. intros [].
  - destruct status_, strat; try apply IH.
    (* a modified file, reviewed *)
    unfold bind at 1.
    match goal with
    | |- context [try_except ?m ?h ?k st] =>
        assert (Hro : readonly (try_except m h k)) by steps_go;
        specialize (Hro st);
        destruct (try_except m h k st) as [[e|c] s1]
    end; destruct Hro as [Hfs (evs & Hj & Hev)]; cbn [snd fst] in *;
      assert (Hnc : Forall no_call evs)
        by (eapply Forall_impl; [exact Hev|]; now intros ev [H _]);
      assert (Hcl : ~ In (Printed MsgSyncCancelled) evs)
        by (intros Hin; rewrite Forall_forall in Hev;
            apply list_elem_of_In in Hin; now destruct (Hev _ Hin) as [_ H]).
    + intros [= <- <-]. split; [now symmetry|]. exists evs.
      split; [assumption|]. split; [assumption|]. intros Hin. now destruct Hcl.
    + assert (Hrec : forall a,
        preview_loop os config ask rest (<[rp := a]> actions) s1 = (r, s') ->
        fs s' = fs st
        /\ exists evs', journal s' = journal st ++ evs'
                        /\ Forall no_call evs'
                        /\ (In (Printed MsgSyncCancelled) evs' -> r = inr None)).
      { intros a Ha. destruct (IH _ _ Ha) as [Hfs' (evs' & Hj' & Hnc' & Hc')].
        split; [congruence|]. exists (evs ++ evs').
        rewrite Hj', Hj, app_assoc. split; [reflexivity|].
        split; [now apply Forall_app|].
        intros [Hin | Hin]%in_app_or; [now destruct Hcl | now apply Hc']. }
      destruct c as [[]|]; try apply Hrec.
      (* quit *)
      unfold bind, print, emit, ret. cbn. intros [= <- <-]. cbn.
      split; [now symmetry|]. exists (evs ++ [Printed MsgSyncCancelled]).
      rewrite Hj, app_assoc. split; [reflexivity|].
      split; [|reflexivity].
      apply Forall_app. split; [assumption|].
      constructor; [intros op; discriminate|constructor].
Qed.

Lemma confirm_cancel (strat : strategy) (st : state) (r : exn + bool)
    (s' : state) :
  confirm strat st = (r, s') ->
  fs s' = fs st
  /\ exists evs, journal s' = journal st ++ evs
                 /\ Forall no_call evs
                 /\ (In (Printed MsgSyncCancelled) evs -> r = inr false).
Proof.
  assert (Hnil : forall r0, (r0, st) = (r, s') ->
    fs s' = fs st
    /\ exists evs, journal s' = journal st ++ evs
                   /\ Forall no_call evs
                   /\ (In (Printed MsgSyncCancelled) evs -> r = inr false)).
  { intros r0 [= <- <-]. split; [reflexivity|]. exists [].
    rewrite app_nil_r. split; [reflexivity|]. split; [constructor|intros []]. }
  destruct strat; cbn [confirm]; try apply Hnil.
  unfold bind, input. destruct (stdin st) as [|l rest]; [apply Hnil|].
  destruct (eqb_text (strip (lower l)) (T "y")).
  - intros [= <- <-]. cbn. split; [reflexivity|]. exists [].
    rewrite app_nil_r. split; [reflexivity|]. split; [constructor|intros []].
  - unfold print, emit, ret. cbn. intros [= <- <-]. cbn.
    split; [reflexivity|]. exists [Printed MsgSyncCancelled].
    split; [reflexivity|]. split; [|reflexivity].
    constructor; [intros op; discriminate|constructor].
Qed.

(** Planning leaves the file system alone, and prints that the sync was
    cancelled only when it gives no plan. *)
Lemma plan_changes_cancel (os : oracle) (config : DotfilesConfig)
    (preview : bool) (strat : strategy) (force : bool)
    (files : list (text * text * status)) (st : state)
    (r : exn + option (gmap text choice)) (s' : state) :
  plan_changes os config preview strat force files st = (r, s') ->
  fs s' = fs st
  /\ exists evs, journal s' = journal st ++ evs
                 /\ Forall no_call evs
                 /\ (In (Printed MsgSyncCancelled) evs -> r = inr None).
Proof.
  unfold plan_changes. destruct (preview && negb force).
  - unfold bind at 1.
    destruct (preview_loop os config strat files ∅ st) as [[e|actions] s1] eqn:Hp;
      apply preview_loop_cancel in Hp as [Hfs (evs & Hj & Hnc & Hc)].
    + intros [= <- <-]. split; [assumption|]. exists evs. auto.
    + destruct actions as [actions|].
      * unfold bind.
        destruct (confirm strat s1) as [[e|go] s2] eqn:Hgo;
          apply confirm_cancel in Hgo as [Hfs' (evs' & Hj' & Hnc' & Hc')];
          unfold ret; intros [= <- <-];
          (split; [congruence|]); exists (evs ++ evs');
          rewrite Hj', Hj, app_assoc; (split; [reflexivity|]);
          (split; [now apply Forall_app|]);
          intros [Hin | Hin]%in_app_or;
          try (specialize (Hc Hin); discriminate Hc);
          specialize (Hc' Hin); try discriminate Hc'.
        injection Hc' as ->. reflexivity.
      * unfold ret. intros [= <- <-]. split; [assumption|]. exists evs. auto.
  - unfold ret. intros [= <- <-]. split; [reflexivity|]. exists [].
    rewrite app_nil_r. split; [reflexivity|]. split; [constructor|intros []].
Qed.

#[export] Hint Resolve quiet_apply_changes : steps.

Lemma quiet_apply_and_finish (os : oracle) (config : DotfilesConfig)
    (backup : path) (force pt : bool) (actions : gmap text choice)
    (files : list (text * text * status)) :
  quiet (apply_and_finish os config backup force pt actions files).
Proof. unfold apply_and_finish. steps_go. Qed.

Lemma assoc_set_id (k : name) (v : node) (es : list (name * node)) :
  assoc k es = Some v -> assoc_set k v es = es.
Proof.
  induction es as [|[k' v'] es IH]; simpl; [discriminate|].
  destruct (eqb_text k k') eqn:E.
  - apply eqb_text_eq in E as ->. now intros [= ->].
  - intros H. now rewrite IH.
Qed.

Lemma mkdir_p_existing (n : node) (p : path) :
  is_dir n p = true -> mkdir_p n p = Some n.
Proof.
  unfold is_dir. revert n; induction p as [|s p IH]; intros n.
  - destruct n; simpl; [discriminate|reflexivity].
  - destruct n as [|es]; [discriminate|]. cbn [lookup mkdir_p].
    destruct (assoc s es) as [c|] eqn:Ec; [|discriminate].
    intros H. rewrite (IH c H). now rewrite assoc_set_id.
Qed.

Lemma not_cancelled_in (evs : list event) :
  Forall not_cancelled evs -> ~ In (Printed MsgSyncCancelled) evs.
Proof.
  intros H Hin. rewrite Forall_forall in H. apply list_elem_of_In in Hin.
  now apply (H _ Hin).
Qed.

Lemma no_call_calls (evs : list event) : Forall no_call evs -> calls evs = [].
Proof.
  induction 1 as [|ev evs Hev _ IH]; [reflexivity|].
  unfold calls in *. cbn. rewrite IH.
  destruct ev as [op|m]; [now destruct (Hev op)|reflexivity].
Qed.

Lemma calls_app (a b : list event) : calls (a ++ b) = calls a ++ calls b.
Proof. unfold calls. apply flat_map_app. Qed.

(** Closes a goal whose hypothesis [Hin] says that the cancellation was
    printed among events that do not hold it. *)
Ltac no_cancel Hin :=
  exfalso; rewrite ?in_app_iff in Hin; cbn [In] in Hin;
  repeat match goal with
         | H : _ \/ _ |- _ => destruct H
         | H : False |- _ => destruct H
         end;
  try discriminate; try contradiction;
  match goal with
  | Hc : In ?x ?l -> _ = _, H : In ?x ?l |- _ =>
      specialize (Hc H); discriminate Hc
  end.

(** C9, as the code has it.  In interactive mode, when the run prints that
    the sync was cancelled (the user quit a review, or declined the
    confirmation), it returns 0 and the only library call that changes the
    file system is the creation of the backup directory made at the start
    of every run: no path outside the way to the backup directory is
    touched, and nothing at all when the backup directory is there
    already. *)
Theorem cancelled_sync_only_makes_backup_dir
    (os : oracle) (config : DotfilesConfig) (backup_arg : option path)
    (process_templates : bool) (st : state) (evs : list event) :
  let backup := match backup_arg with
                | None => backup_dir config
                | Some b => b
                end in
  let out := sync_from_repo os config backup_arg true ask false
               process_templates st in
  journal out.2 = journal st ++ evs ->
  In (Printed MsgSyncCancelled) evs ->
  out.1 = inr 0%Z
  /\ calls evs = [OpMkdir backup]
  /\ mkdir_p (fs st) backup = Some (fs out.2)
  /\ (forall p, is_prefix p backup = false ->
                lookup (fs out.2) p = lookup (fs st) p)
  /\ (is_dir (fs st) backup = true -> fs out.2 = fs st).
Proof.
  intros backup out Hj Hin. subst out.
  destruct (sync_from_repo os config backup_arg true ask false
              process_templates st) as [r s'] eqn:Hrun.
  cbn [fst snd] in *.
  enough (Hmain : r = inr 0%Z /\ calls evs = [OpMkdir backup]
                  /\ mkdir_p (fs st) backup = Some (fs s')).
  { destruct Hmain as (H1 & H2 & H3). repeat split; try assumption.
    - intros p Hp. now apply (FSFacts.lookup_mkdir_p_other _ _ _ _ H3).
    - intros Hd. apply mkdir_p_existing in Hd. congruence. }
  revert Hrun. unfold sync_from_repo. fold backup.
  unfold bind at 1. rewrite mkdir_run.
  destruct (mkdir_p (fs st) backup) as [n0|] eqn:Hmk.
  2:{ intros [= <- <-]. cbn in Hj. apply app_inv_head in Hj. subst evs.
      no_cancel Hin. }
  set (s0 := called st (OpMkdir backup) n0).
  unfold bind at 1.
  pose proof (readonly_analyze os config (file_map config) [] [] s0) as Han.
  destruct (analyze os config (file_map config) [] [] s0) as [[e|an] s1].
  all: destruct Han as [Hfs1 (evs1 & Hj1 & Hev1)]; cbn [snd fst] in Hfs1, Hj1.
  all: assert (Hnc1 : Forall no_call evs1)
         by (eapply Forall_impl; [exact Hev1|]; now intros ev [H _]).
  all: assert (Hcl1 : ~ In (Printed MsgSyncCancelled) evs1)
         by (apply not_cancelled_in; eapply Forall_impl; [exact Hev1|];
             now intros ev [_ H]).
  all: assert (Hj0 : journal s1 = journal st ++ [Called (OpMkdir backup)] ++ evs1)
         by (rewrite Hj1; unfold s0; cbn; now rewrite <- app_assoc).
  - intros [= <- <-]. rewrite Hj0 in Hj. apply app_inv_head in Hj. subst evs.
    no_cancel Hin.
  - destruct an as [code | [files_to_sync files_identical]].
    + unfold ret. intros [= <- <-]. rewrite Hj0 in Hj.
      apply app_inv_head in Hj. subst evs. no_cancel Hin.
    + destruct (is_empty files_to_sync).
      * unfold bind, print, emit, ret. cbn. intros [= <- <-]. cbn in Hj.
        rewrite Hj0, <- app_assoc in Hj.
        apply app_inv_head in Hj. subst evs. no_cancel Hin.
      * unfold bind at 1.
        destruct (plan_changes os config true ask false files_to_sync s1)
          as [[e | plan] s2] eqn:Hplan;
          apply plan_changes_cancel in Hplan
            as [Hfs2 (evs2 & Hj2 & Hnc2 & Hc2)].
        -- intros [= <- <-]. rewrite Hj2, Hj0, <- !app_assoc in Hj.
           apply app_inv_head in Hj. subst evs. no_cancel Hin.
        -- destruct plan as [actions|].
           ++ pose proof (quiet_apply_and_finish os config backup false
                            process_templates actions files_to_sync s2) as Hq.
              destruct Hq as [_ (evs3 & Hj3 & Hev3)].
              apply not_cancelled_in in Hev3.
              intros Hrun. rewrite Hrun in Hj3. cbn [snd] in Hj3.
              rewrite Hj3, Hj2, Hj0, <- !app_assoc in Hj.
              apply app_inv_head in Hj. subst evs. no_cancel Hin.
           ++ unfold ret. intros [= <- <-].
              rewrite Hj2, Hj0, <- !app_assoc in Hj.
              apply app_inv_head in Hj. subst evs.
              split; [reflexivity|]. split.
              ** change (calls ([Called (OpMkdir backup)] ++ evs1 ++ evs2)
                         = [OpMkdir backup]).
                 rewrite !calls_app, (no_call_calls evs1), (no_call_calls evs2)
                   by assumption. reflexivity.
              ** f_equal. rewrite Hfs2, <- Hfs1. reflexivity.
Qed.

Lemma cancelled_sync_only_makes_backup_dir_witness :
  (* the user quits at the review of the modified file *)
  (let out := sync_from_repo demo_os scenario_config (Some backup_root)
                true ask false true (scenario [T "q"]) in
   out.1 = inr 0%Z /\ calls (journal out.2) = [OpMkdir backup_root])
  (* the user chooses to replace, then declines the confirmation *)
  /\ (let out := sync_from_repo demo_os scenario_config (Some backup_root)
                   true ask false true (scenario [T "r"; T "n"]) in
      out.1 = inr 0%Z /\ calls (journal out.2) = [OpMkdir backup_root]
      /\ lookup (fs out.2) dest_testfile
         = Some (File (Utf8 system_content) 3)).
Proof.
  split.
  - destruct (cancelled_sync_only_makes_backup_dir demo_os scenario_config
                (Some backup_root) true (scenario [T "q"])
                (journal (sync_from_repo demo_os scenario_config
                            (Some backup_root) true ask false true
                            (scenario [T "q"])).2))
      as (H1 & H2 & _).
    + reflexivity.
    + vm_compute. tauto.
    + split; assumption.
  - destruct (cancelled_sync_only_makes_backup_dir demo_os scenario_config
                (Some backup_root) true (scenario [T "r"; T "n"])
                (journal (sync_from_repo demo_os scenario_config
                            (Some backup_root) true ask false true
                            (scenario [T "r"; T "n"])).2))
      as (H1 & H2 & _ & H4 & _).
    + reflexivity.
    + vm_compute. tauto.
    + split; [assumption|]. split; [assumption|].
      rewrite H4; reflexivity.
Defined.

(** C9, as the specification has it, fails: a run in which the user quits at
    the first review has already created the backup directory, so the file
    system is not what it was. *)
Lemma quit_has_created_backup_dir :
  let st := scenario [T "q"] in
  let out := sync_from_repo demo_os scenario_config (Some backup_root)
               true ask false true st in
  out.1 = inr 0%Z
  /\ In (Printed MsgSyncCancelled) (journal out.2)
  /\ exists_ (fs st) backup_root = false
  /\ is_dir (fs out.2) backup_root = true
  /\ fs out.2 <> fs st.
Proof.
  intros st out.
  assert (H3 : exists_ (fs st) backup_root = false) by reflexivity.
  assert (H4 : is_dir (fs out.2) backup_root = true) by reflexivity.
  split; [reflexivity|]. split; [vm_compute; tauto|].
  split; [assumption|]. split; [assumption|].
  intros E. rewrite E in H4. unfold is_dir, exists_ in *.
  destruct (lookup (fs st) backup_root); discriminate.
Qed.

(** ** The scenario of a replaced file *)

(** C4, as the specification has it, fails: with the force flag the
    destination is replaced and no backup is written. *)
Lemma forced_replace_makes_no_backup :
  let out := sync_from_repo demo_os scenario_config (Some backup_root)
               true ask true true (scenario []) in
  out.1 = inr 0%Z
  /\ lookup (fs out.2) dest_testfile = Some (File (Utf8 repo_content) 2)
  /\ ~ (exists m, lookup (fs out.2) backup_testfile
                  = Some (File (Utf8 system_content) m)).
Proof.
  split; [reflexivity|]. split; [reflexivity|].
  intros [m H]. vm_compute in H. discriminate H.
Qed.

(** C4, as the code has it.  In the scenario, a forced replace leaves the
    destination with the content of the repository and writes no backup;
    a replace without the force flag (chosen at the review and confirmed,
    or by the strategy "replace" without preview) leaves the destination
    with the content of the repository and a backup with the content, and
    the metadata, the destination had, at [.testfile] under the backup
    directory. *)
Theorem replace_scenario :
  (let out := sync_from_repo demo_os scenario_config (Some backup_root)
                true ask true true (scenario []) in
   out.1 = inr 0%Z
   /\ read_text (fs out.2) dest_testfile = inr repo_content
   /\ lookup (fs out.2) backup_testfile = None)
  /\ (let out := sync_from_repo demo_os scenario_config (Some backup_root)
                   true ask false true (scenario [T "r"; T "y"]) in
      out.1 = inr 0%Z
      /\ read_text (fs out.2) dest_testfile = inr repo_content
      /\ lookup (fs out.2) backup_testfile
         = Some (File (Utf8 system_content) 3))
  /\ (let out := main_sync_from_repo demo_os [T "repo"] (Some conf_path)
                   (Some backup_root) false true replace_all true
                   (scenario []) in
      out.1 = inr 0%Z
      /\ read_text (fs out.2) dest_testfile = inr repo_content
      /\ lookup (fs out.2) backup_testfile
         = Some (File (Utf8 system_content) 3)).
Proof. vm_compute. repeat split. Qed.

(** ** What [process_template_file] does to the template *)

Lemma bind_inv {A B} (m : M A) (k : A -> M B) (st : state) (r : exn + B)
    (s' : state) :
  bind m k st = (r, s') ->
  (exists e, m st = (inl e, s') /\ r = inl e)
  \/ (exists a s1, m st = (inr a, s1) /\ k a s1 = (r, s')).
Proof.
  unfold bind. destruct (m st) as [[e|a] s1].
  - intros [= <- <-]. left. eauto.
  - intros H. right. eauto.
Qed.

(** Validating the environment files only reads. *)
Lemma select_env_files_fs (env_files : list path) :
  steps (grows eq (fun _ => True)) (select_env_files env_files).
Proof.
  induction env_files as [|p rest IH]; cbn [select_env_files];
    unfold validate_env_file; steps_go.
Qed.

Lemma mkstemp_inv (os : oracle) (dir : path) (suffix : text) (st s' : state)
    (r : exn + path) :
  mkstemp os dir suffix st = (r, s') ->
  (exists e, r = inl e /\ fs s' = fs st)
  \/ (exists nm, r = inr (dir ++ [nm])
        /\ exists_ (fs st) (dir ++ [nm]) = false
        /\ put (fs st) (dir ++ [nm]) (File (Utf8 []) (stamp os)) = Some (fs s')).
Proof.
  unfold mkstemp, bind, get_fs, call, emit, store, set_fs, raise, ret. cbn.
  destruct (is_dir (fs st) dir); cbn.
  - destruct (exists_ (fs st) _) eqn:Ex; cbn.
    + intros [= <- <-]. left. eauto.
    + destruct (put (fs st) _ _) as [n|] eqn:Ep; cbn; intros [= <- <-].
      * right. eauto.
      * left. eauto.
  - intros [= <- <-]. left. eauto.
Qed.

Lemma write_text_inv (os : oracle) (p : path) (t : text) (st s' : state)
    (r : exn + unit) :
  write_text os p t st = (r, s') ->
  (exists e, r = inl e /\ fs s' = fs st)
  \/ (r = inr tt /\ put (fs st) p (File (Utf8 t) (stamp os)) = Some (fs s')).
Proof.
  unfold write_text, bind, get_fs, call, emit, store, set_fs, raise. cbn.
  destruct (is_dir (fs st) p); cbn; [intros [= <- <-]; left; eauto|].
  destruct (is_dir (fs st) (parent p)); cbn;
    [|intros [= <- <-]; left; eauto].
  destruct (put (fs st) p _) as [n|] eqn:Ep; cbn; intros [= <- <-].
  - right. eauto.
  - left. eauto.
Qed.

Lemma run_envsubst_inv (os : oracle) (vs : list path) (f tp : path)
    (st s' : state) (r : exn + Z) :
  run_envsubst os vs f tp st = (r, s') ->
  (exists e, r = inl e /\ fs s' = fs st)
  \/ (exists rc d, r = inr rc
         /\ shell os (fs st) vs f = ShellExited rc (Some d)
         /\ put (fs st) tp (File d (stamp os)) = Some (fs s'))
  \/ (exists rc, r = inr rc /\ exists_ (fs s') tp = false
         /\ (fs s' = fs st \/ remove (fs st) tp = Some (fs s'))).
Proof.
  unfold run_envsubst, bind, get_fs, call, emit, store, set_fs, raise, ret.
  cbn. destruct (shell os (fs st) vs f) as [e|rc [d|]]; cbn.
  - intros [= <- <-]. left. eauto.
  - destruct (put (fs st) tp _) as [n|] eqn:Ep; cbn; intros [= <- <-].
    + right. left. eauto.
    + left. eauto.
  - destruct (exists_ (fs st) tp) eqn:Ex; cbn.
    + destruct (remove (fs st) tp) as [n|] eqn:Er; cbn; intros [= <- <-].
      * right. right. exists rc. cbn. split; [reflexivity|].
        split; [|now right]. unfold exists_.
        now rewrite (FSFacts.lookup_remove_same _ _ _ Er).
      * left. eauto.
    + intros [= <- <-]. right. right. exists rc. cbn. auto.
Qed.

Lemma unlink_inv (p : path) (st s' : state) (r : exn + unit) :
  unlink p st = (r, s') ->
  (exists e, r = inl e /\ fs s' = fs st /\ is_file (fs st) p = false)
  \/ (r = inr tt /\ remove (fs st) p = Some (fs s'))
  \/ (exists e, r = inl e /\ fs s' = fs st /\ remove (fs st) p = None).
Proof.
  unfold unlink, bind, get_fs, call, emit, store, set_fs, raise, is_file. cbn.
  destruct (lookup (fs st) p) as [[d m|es]|]; cbn;
    try (intros [= <- <-]; left; eauto).
  destruct (remove (fs st) p) as [n|] eqn:Er; cbn; intros [= <- <-].
  - right. left. auto.
  - right. right. eauto.
Qed.

Lemma try_finally_inv {A} (m : M A) (c : M unit) (st s' : state)
    (r : exn + A) :
  try_finally m c st = (r, s') ->
  exists rm s1, m st = (rm, s1)
    /\ ((c s1 = (inr tt, s') /\ r = rm)
        \/ (exists e, c s1 = (inl e, s') /\ r = inl e)).
Proof.
  unfold try_finally. destruct (m st) as [rm s1]. intros H. exists rm, s1.
  split; [reflexivity|]. destruct (c s1) as [[e|[]] s2]; injection H as <- <-.
  - right. eauto.
  - left. auto.
Qed.

(** A temporary file made next to a file is neither above nor below it. *)
Lemma fresh_sibling (n n' : node) (f : path) (nm : name) (v : node) :
  is_file n f = true ->
  exists_ n (parent f ++ [nm]) = false ->
  put n (parent f ++ [nm]) v = Some n' ->
  is_prefix (parent f ++ [nm]) f = false
  /\ is_prefix f (parent f ++ [nm]) = false.
Proof.
  intros Hf Hex Hput.
  assert (Hne : f <> []).
  { intros ->. unfold is_file in Hf. cbn in Hf, Hput.
    destruct n; [discriminate Hput|discriminate Hf]. }
  assert (Hnm : nm <> basename f).
  { intros ->. rewrite <- FSFacts.parent_basename in Hex by assumption.
    unfold is_file in Hf. unfold exists_ in Hex.
    destruct (lookup n f); discriminate. }
  rewrite (FSFacts.parent_basename f Hne) at 2 3.
  split; apply FSFacts.is_prefix_siblings; congruence.
Qed.

Ltac bind_step H e a s Hm :=
  apply bind_inv in H as [(e & H & ->) | (a & s & Hm & H)].

(** X7.  [process_template_file] never raises.  When it returns [False]
    the template is as it was; when it returns [True] the shell command
    exited with status 0 and left an output that decodes, and the template
    holds that text, whatever its length. *)
Lemma process_template_file_outcome (os : oracle) (file_path : path)
    (env_files : list path) (st : state) :
  let out := process_template_file os file_path env_files st in
  (out.1 = inr false
   /\ lookup (fs out.2) file_path = lookup (fs st) file_path)
  \/ (out.1 = inr true
      /\ exists n vs t,
           shell os n vs file_path = ShellExited 0 (Some (Utf8 t))
           /\ lookup (fs out.2) file_path
              = Some (File (Utf8 (universal_newlines t)) (stamp os))).
Proof.
  unfold process_template_file.
  match goal with
  | |- context [try_except (try_except ?body _ _) _ _] => set (b := body)
  end.
  assert (Hb : forall r s1, b st = (r, s1) ->
    (r <> inr true /\ lookup (fs s1) file_path = lookup (fs st) file_path)
    \/ (r = inr true
        /\ exists n vs t,
             shell os n vs file_path = ShellExited 0 (Some (Utf8 t))
             /\ lookup (fs s1) file_path
                = Some (File (Utf8 (universal_newlines t)) (stamp os)))).
  { subst b. intros r s1.
    assert (Hstop : forall m, (bind (print m) (fun _ => ret false)) st = (r, s1) ->
      r <> inr true /\ lookup (fs s1) file_path = lookup (fs st) file_path).
    { intros m [= <- <-]. split; [discriminate|reflexivity]. }
    assert (Hraise : forall e, @raise bool e st = (r, s1) ->
      r <> inr true /\ lookup (fs s1) file_path = lookup (fs st) file_path).
    { intros e [= <- <-]. split; [discriminate|reflexivity]. }
    destruct (envsubst_help os) as [[]|];
      try (intros H; left; solve [eapply Hstop; eauto | eapply Hraise; eauto]).
    clear Hstop Hraise. intros H.
    bind_step H e n s0 Hm; [discriminate H|]. injection Hm as <- <-.
    destruct (negb (exists_ (fs st) file_path) || negb (is_file (fs st) file_path))
      eqn:Hc.
    { injection H as <- <-. left. split; [discriminate|reflexivity]. }
    apply orb_false_iff in Hc as [_ Hfile]. apply negb_false_iff in Hfile.
    (* the backup *)
    bind_step H e bp sA Hm.
    { apply mkstemp_inv in H as [(e' & _ & Hfs)|(nm & Habs & _)];
        [|discriminate]. left. split; [discriminate|now rewrite Hfs]. }
    apply mkstemp_inv in Hm as [(e & He & _)|(nm1 & [= ->] & Hex1 & Hput1)];
      [discriminate|].
    destruct (fresh_sibling _ _ _ _ _ Hfile Hex1 Hput1) as [Hp1 Hp2].
    assert (HA : lookup (fs sA) file_path = lookup (fs st) file_path)
      by (eapply FSFacts.lookup_put_other; eauto).
    bind_step H e n0 s0 Hm; [discriminate H|]. injection Hm as <- <-.
    bind_step H e original s0 Hm.
    { injection H as _ <-. left. split; [discriminate|assumption]. }
    injection Hm as _ <-.
    bind_step H e u sB Hm.
    { apply write_text_inv in H as [(e' & _ & Hfs)|[Habs _]]; [|discriminate].
      left. split; [discriminate|now rewrite Hfs]. }
    apply write_text_inv in Hm as [(e & He & _)|[_ HputB]]; [discriminate|].
    assert (HB : lookup (fs sB) file_path = lookup (fs st) file_path).
    { rewrite <- HA. eapply FSFacts.lookup_put_other; eauto. }
    clear dependent sA. clear Hp1 Hp2 Hex1 nm1 original u.
    (* the environment files *)
    assert (HC : forall rv sC, select_env_files env_files sB = (rv, sC) ->
                 fs sC = fs sB).
    { intros rv sC E. destruct (select_env_files_fs env_files sB) as [Hfs _].
      rewrite E in Hfs. now symmetry. }
    bind_step H e valid_env_files sC Hm.
    { left. split; [discriminate|]. now rewrite (HC _ _ H). }
    apply HC in Hm. rewrite <- Hm in HB. clear HC Hm sB.
    (* the output file *)
    assert (HfileC : is_file (fs sC) file_path = true).
    { unfold is_file in *. now rewrite HB. }
    bind_step H e tp sD Hm.
    { apply mkstemp_inv in H as [(e' & _ & Hfs)|(nm & Habs & _)];
        [|discriminate]. left. split; [discriminate|now rewrite Hfs]. }
    apply mkstemp_inv in Hm as [(e & He & _)|(nm2 & [= ->] & Hex2 & Hput2)];
      [discriminate|].
    destruct (fresh_sibling _ _ _ _ _ HfileC Hex2 Hput2) as [Hp1 Hp2].
    set (tp := parent file_path ++ [nm2]) in *.
    assert (Htp : tp <> []) by (subst tp; now destruct (parent file_path)).
    assert (HD : lookup (fs sD) file_path = lookup (fs st) file_path).
    { rewrite <- HB. eapply FSFacts.lookup_put_other; eauto. }
    assert (HtpD : is_file (fs sD) tp = true).
    { unfold is_file. now rewrite (FSFacts.lookup_put_same _ _ _ _ Hput2). }
    clear dependent sC. clear Hfile.
    apply try_finally_inv in H as (rm & sE & Hmain & Hfin).
    assert (HE : (exists_ (fs sE) tp = true -> is_file (fs sE) tp = true)
      /\ ((rm <> inr true
           /\ lookup (fs sE) file_path = lookup (fs st) file_path)
          \/ (rm = inr true
              /\ exists n vs t,
                   shell os n vs file_path = ShellExited 0 (Some (Utf8 t))
                   /\ lookup (fs sE) file_path
                      = Some (File (Utf8 (universal_newlines t)) (stamp os))))).
    { clear Hfin. bind_step Hmain e rc sR Hm.
      { apply run_envsubst_inv in Hmain
          as [(e' & _ & Hfs)|[(rc & d & Habs & _)|(rc & Habs & _)]];
          try discriminate.
        rewrite Hfs. split; [auto|]. left. split; [discriminate|assumption]. }
      assert (Hfail : forall m,
        (exists_ (fs sR) tp = true -> is_file (fs sR) tp = true) ->
        lookup (fs sR) file_path = lookup (fs st) file_path ->
        bind (print m) (fun _ => ret false) sR = (rm, sE) ->
        (exists_ (fs sE) tp = true -> is_file (fs sE) tp = true)
        /\ ((rm <> inr true
             /\ lookup (fs sE) file_path = lookup (fs st) file_path)
            \/ (rm = inr true
                /\ exists n vs t,
                     shell os n vs file_path = ShellExited 0 (Some (Utf8 t))
                     /\ lookup (fs sE) file_path
                        = Some (File (Utf8 (universal_newlines t))
                                  (stamp os))))).
      { intros m Ht Hl [= <- <-]. split; [exact Ht|]. left.
        split; [discriminate|exact Hl]. }
      apply run_envsubst_inv in Hm
        as [(e & He & _)|[(rc' & d & [= <-] & Hsh & Hput)
                         |(rc' & [= <-] & Hex & Hfs)]];
        [discriminate| |].
      - (* the command left an output *)
        assert (HR : lookup (fs sR) file_path = lookup (fs st) file_path).
        { rewrite <- HD. eapply FSFacts.lookup_put_other; eauto. }
        assert (HtpR : lookup (fs sR) tp = Some (File d (stamp os)))
          by (eapply FSFacts.lookup_put_same; eauto).
        assert (HfR : is_file (fs sR) tp = true)
          by (unfold is_file; now rewrite HtpR).
        destruct (rc =? 0)%Z eqn:Hrc; cbn [negb] in Hmain;
          [|eapply Hfail; eauto].
        apply Z.eqb_eq in Hrc as ->.
        bind_step Hmain e n1 s0 Hm; [discriminate Hmain|].
        injection Hm as <- <-. unfold exists_ in Hmain at 1.
        rewrite HtpR in Hmain. cbn [negb] in Hmain.
        unfold read_text in Hmain. rewrite HtpR in Hmain.
        destruct d as [t|bytes].
        + bind_step Hmain e content s0 Hm; [discriminate Hmain|].
          injection Hm as <- <-.
          bind_step Hmain e u sW Hm.
          { apply write_text_inv in Hmain as [(e' & _ & Hfs)|[Habs _]];
              [|discriminate]. rewrite Hfs. split; [auto|]. left.
            split; [discriminate|assumption]. }
          apply write_text_inv in Hm as [(e & He & _)|[_ HputW]];
            [discriminate|].
          injection Hmain as <- <-. cbn [fs]. split.
          * intros _. unfold is_file.
            rewrite (FSFacts.lookup_put_other _ _ _ _ _ HputW Hp2 Hp1).
            now rewrite HtpR.
          * right. split; [reflexivity|].
            exists (fs sD), valid_env_files, t. split; [assumption|].
            eapply FSFacts.lookup_put_same; eauto.
        + injection Hmain as <- <-. split; [auto|]. left.
          split; [discriminate|assumption].
      - (* the command left no output *)
        assert (HR : lookup (fs sR) file_path = lookup (fs st) file_path).
        { rewrite <- HD. destruct Hfs as [->|Hrm]; [reflexivity|].
          eapply FSFacts.lookup_remove_other; eauto. }
        assert (HfR : exists_ (fs sR) tp = true -> is_file (fs sR) tp = true)
          by (rewrite Hex; discriminate).
        destruct (rc =? 0)%Z eqn:Hrc; cbn [negb] in Hmain;
          [|eapply Hfail; eauto].
        bind_step Hmain e n1 s0 Hm; [discriminate Hmain|].
        injection Hm as <- <-. rewrite Hex in Hmain. cbn [negb] in Hmain.
        eapply Hfail; eauto. }
    destruct HE as [HtpE HE].
    (* the output file is removed *)
    assert (Hclean : forall rc,
      bind get_fs (fun n2 => if exists_ n2 tp then unlink tp else ret tt) sE
      = (rc, s1) ->
      rc = inr tt /\ lookup (fs s1) file_path = lookup (fs sE) file_path).
    { intros rc Hc. unfold bind, get_fs in Hc.
      destruct (exists_ (fs sE) tp) eqn:Hex;
        [|injection Hc as <- <-; auto].
      apply unlink_inv in Hc
        as [(e & -> & Hfs & Hnf)|[[-> Hrm]|(e & -> & Hfs & Hrm)]].
      - rewrite HtpE in Hnf by reflexivity. discriminate.
      - split; [reflexivity|]. eapply FSFacts.lookup_remove_other; eauto.
      - destruct (FSFacts.remove_succeeds (fs sE) tp Htp Hex) as [n' Hn'].
        congruence. }
    destruct Hfin as [[Hc ->]|(e & Hc & ->)]; apply Hclean in Hc as [Hrc Hl];
      [|discriminate].
    rewrite Hl. exact HE. }
  unfold try_except. destruct (b st) as [rb sb] eqn:Eb.
  destruct (Hb _ _ eq_refl) as [[Hr Hl]|[-> Hl]]; [|right; auto].
  left. destruct rb as [e|[]]; [| congruence | auto].
  destruct (is_TimeoutExpired e); cbn; auto.
Qed.

(** ** The status [sync_from_repo] returns *)

Lemma analyze_safe (os : oracle) (config : DotfilesConfig)
    (items : list (text * text)) :
  forallb (fun kv : text * text => safe_destination os kv.2) items = true ->
  forall to_sync identical st r s',
    analyze os config items to_sync identical st = (r, s') ->
    forall code, r <> inr (inl code).
Proof.
  induction items as [|[rp dp] rest IH]; cbn [analyze forallb].
  - intros _ to_sync identical st r s' [= <- <-] code. discriminate.
  - intros [Hsafe Hrest]%andb_true_iff to_sync identical st r s' H code.
    specialize (IH Hrest).
    unfold safe_destination in Hsafe. cbn [snd] in Hsafe.
    apply andb_true_iff in Hsafe as [Hne%negb_true_iff Hpre].
    bind_step H e src s0 Hm; [discriminate|]. destruct src as [sf rp'].
    bind_step H e n s2 Hm2; [discriminate|]. injection Hm2 as <- <-.
    rewrite Hne, Hpre in H. cbn [negb] in H.
    destruct (negb (exists_ (fs s0) sf)).
    { bind_step H e u s2 Hm2; [discriminate|]. eapply IH; eauto. }
    destruct (exists_ (fs s0) (joinpath (home os) dp));
      [destruct (compare_files _ _ _)|]; eapply IH; eauto.
Qed.

Ltac bind_ok H a s Hm :=
  apply bind_inv in H as [(? & _ & [=]) | (a & s & Hm & H)].

(** X19.  When every destination is under the home directory, a run of
    [sync_from_repo] that returns returns 0: a missing source and a
    template that failed change nothing to the status. *)
Lemma sync_from_repo_returns_zero (os : oracle) (config : DotfilesConfig)
    (backup_dir_arg : option path) (preview : bool) (strat : strategy)
    (force process_templates : bool) (st s' : state) (rc : Z) :
  forallb (fun kv : text * text => safe_destination os kv.2) (file_map config)
  = true ->
  sync_from_repo os config backup_dir_arg preview strat force
    process_templates st = (inr rc, s') ->
  rc = 0%Z.
Proof.
  intros Hsafe H. unfold sync_from_repo in H.
  bind_ok H u s0 Hm.
  bind_ok H analysis s1 Hm1.
  destruct analysis as [code|[files_to_sync files_identical]].
  { now destruct (analyze_safe _ _ _ Hsafe _ _ _ _ _ Hm1 code). }
  destruct (is_empty files_to_sync).
  { bind_ok H u' s2 Hm2. now injection H as <- _. }
  bind_ok H plan s2 Hm2.
  destruct plan as [actions|]; [|now injection H as <- _].
  unfold apply_and_finish in H.
  bind_ok H applied s3 Hm3.
  destruct applied as [files_skipped files_synced].
  bind_ok H k s4 Hm4.
  bind_ok H u' s5 Hm5. now injection H as <- _.
Qed.

(** ** Where the code departs from the specification *)

(** C1: the substitution step exits with status 0 and an empty output; the
    function returns [True] and the template is replaced by the empty
    text.  With a status other than 0, a time-out or no output file, it
    returns [False] and the template is as it was. *)
Theorem empty_output_replaces_template :
  let st := on_disk (Utf8 (T "${V}")) in
  (let out := process_template_file (env_with 0 (Some (Utf8 []))) only_file []
                st in
   out.1 = inr true
   /\ lookup (fs out.2) only_file = Some (File (Utf8 []) 9)
   /\ lookup (fs out.2) only_file <> lookup (fs st) only_file)
  /\ (let out := process_template_file (env_with 1 (Some (Utf8 []))) only_file
                   [] st in
      out.1 = inr false
      /\ lookup (fs out.2) only_file = lookup (fs st) only_file)
  /\ (let out := process_template_file (env_with 0 None) only_file [] st in
      out.1 = inr false
      /\ lookup (fs out.2) only_file = lookup (fs st) only_file)
  /\ (let out := process_template_file
                   {| home := [T "home"; T "u"]; stamp := 9;
                      tmpname := fun _ _ suffix => T "tmp" ++ suffix;
                      envsubst_help := None;
                      shell := fun _ _ _ => ShellRaised TimeoutExpired |}
                   only_file [] st in
      out.1 = inr false
      /\ lookup (fs out.2) only_file = lookup (fs st) only_file).
Proof. vm_compute. repeat split. discriminate. Qed.

(** C2: a call of [sync_from_repo] that met a missing source, and a run
    whose template failed (the function called as the test suite does, and
    the whole program), all return 0.  The program itself never reaches the
    sync with a missing source: its validation stops it, with status 1. *)
Theorem failures_still_return_zero :
  (let out := sync_from_repo demo_os missing_config (Some backup_root)
                true ask false true (scenario []) in
   out.1 = inr 0%Z
   /\ In (Printed (ErrSourceNotFound (T "missing/file"))) (journal out.2))
  /\ (let out := sync_from_repo (env_with 1 (Some (Utf8 []))) scenario_config
                   (Some backup_root) true ask true true
                   (mkState template_disk [] []) in
      out.1 = inr 0%Z
      /\ In (Printed (WarnTemplateFailed dest_testfile)) (journal out.2)
      /\ In (Printed (MsgTemplatesCompleted 0 1)) (journal out.2))
  /\ (let out := main_sync_from_repo (env_with 1 (Some (Utf8 []))) [T "repo"]
                   (Some conf_path) (Some backup_root) true false ask true
                   (mkState template_disk [] []) in
      out.1 = inr 0%Z
      /\ In (Printed (WarnTemplateFailed dest_testfile)) (journal out.2))
  /\ (let out := main_sync_from_repo demo_os [T "repo"] (Some conf_path)
                   (Some backup_root) true false ask true
                   (mkState missing_disk [] []) in
      out.1 = inr 1%Z /\ journal out.2 = [Printed (ErrValidation 1)]).
Proof. vm_compute. tauto. Qed.

(** * More of [config_parser.py] *)

(** ** What [parse_config] stores *)

Lemma lstrip_head (s : text) (c : char) (t : text) :
  lstrip s = c :: t -> isspace c = false.
Proof.
  induction s as [|x s IH]; simpl; [discriminate|].
  destruct (isspace x) eqn:Ex; [exact IH|]. now intros [= <- _].
Qed.

Lemma lstrip_id (s : text) :
  match s with c :: _ => isspace c = false | [] => True end -> lstrip s = s.
Proof. destruct s as [|c s]; simpl; [reflexivity|]. now intros ->. Qed.

Lemma lstrip_idem (s : text) : lstrip (lstrip s) = lstrip s.
Proof.
  apply lstrip_id. destruct (lstrip s) as [|c t] eqn:E; [exact I|].
  exact (lstrip_head _ _ _ E).
Qed.

Lemma rstrip_idem (s : text) : rstrip (rstrip s) = rstrip s.
Proof. unfold rstrip. now rewrite rev_involutive, lstrip_idem. Qed.

Lemma lstrip_rstrip (s : text) :
  match s with c :: _ => isspace c = false | [] => True end ->
  lstrip (rstrip s) = rstrip s.
Proof.
  intros H. apply lstrip_id. destruct (rstrip_prefix s) as [ws E].
  destruct (rstrip s) as [|c t]; [exact I|]. rewrite E in H. exact H.
Qed.

Lemma strip_idem (s : text) : strip (strip s) = strip s.
Proof.
  unfold strip. rewrite lstrip_rstrip.
  - apply rstrip_idem.
  - destruct (lstrip s) as [|c t] eqn:E; [exact I|].
    exact (lstrip_head _ _ _ E).
Qed.

Lemma forallb_isspace_rev (s : text) :
  forallb isspace (rev s) = forallb isspace s.
Proof.
  apply eq_true_iff_eq. rewrite !forallb_forall. split; intros H c Hc;
    apply H; [now apply in_rev in Hc | now apply in_rev].
Qed.

Lemma rstrip_nil (s : text) : rstrip s = [] <-> forallb isspace s = true.
Proof.
  unfold rstrip. rewrite <- forallb_isspace_rev, <- lstrip_nil. split.
  - intros E. apply (f_equal (@rev char)) in E. now rewrite rev_involutive in E.
  - now intros ->.
Qed.

Lemma strip_nil (s : text) : strip s = [] <-> forallb isspace s = true.
Proof.
  unfold strip. rewrite rstrip_nil. split.
  - intros H. destruct (lstrip s) as [|c t] eqn:E; [now apply lstrip_nil|].
    simpl in H. now rewrite (lstrip_head _ _ _ E) in H.
  - intros H. apply lstrip_nil in H. now rewrite H.
Qed.

(** The name kept for an overlay entry is the stripped name of the line. *)
Lemma custom_name_nonempty (custom_filename : text) :
  strip custom_filename <> [] ->
  strip (drop 7 (strip (T "custom:" ++ custom_filename))) <> [].
Proof.
  intros H. unfold strip at 2.
  change (lstrip (T "custom:" ++ custom_filename))
    with (T "custom:" ++ custom_filename).
  rewrite rstrip_app by now apply strip_nonempty_rstrip.
  change (drop 7 (T "custom:" ++ rstrip custom_filename))
    with (rstrip custom_filename).
  rewrite strip_nil. intros Hs. apply H, strip_nil.
  apply rstrip_nil in Hs. rewrite rstrip_idem in Hs. now apply rstrip_nil in Hs.
Qed.

Ltac parse_line_cases :=
  unfold parse_line;
  repeat match goal with
         | |- context [if ?b then _ else _] => destruct b eqn:?
         | |- context [match split_last ?a ?b with _ => _ end] =>
             destruct (split_last a b) as [[? ?]|] eqn:?
         | |- context [match split_first ?a ?b with _ => _ end] =>
             destruct (split_first a b) as [[? ?]|] eqn:?
         end; try discriminate.

Lemma eqb_text_false_neq (a b : text) : eqb_text a b = false -> a <> b.
Proof. intros H E. apply eqb_text_eq in E. congruence. Qed.

Lemma is_empty_false_inv {A} (l : list A) : is_empty l = false -> l <> [].
Proof. destruct l; [discriminate|congruence]. Qed.

Lemma parse_line_regular_inv (k : nat) (raw rp sp : text) :
  parse_line k raw = LineRegular rp sp ->
  rp <> [] /\ sp <> [] /\ strip rp = rp /\ strip sp = sp
  /\ contains (T "..") rp = false /\ contains (T "..") sp = false
  /\ sp <> T "/" /\ sp <> T "~" /\ startswith (T "custom:") rp = false.
Proof.
  parse_line_cases; intros [= <- <-];
    repeat match goal with
           | H : _ || _ = false |- _ => apply orb_false_iff in H as [? ?]
           end;
    repeat split; auto using strip_idem, eqb_text_false_neq;
    try match goal with
        | H : is_empty ?x = false |- _ <> [] => exact (is_empty_false_inv x H)
        end.
Qed.

Lemma split_first_inv (sep : char) (s a b : text) :
  split_first sep s = Some (a, b) -> s = a ++ sep :: b /\ ~ In sep a.
Proof.
  revert a; induction s as [|c s IH]; intros a; simpl; [discriminate|].
  destruct (N.eqb_spec c sep) as [->|Hne].
  - intros [= <- <-]. split; [reflexivity|intros []].
  - destruct (split_first sep s) as [[a' b']|]; [|discriminate].
    intros [= <- <-]. destruct (IH a' eq_refl) as [-> Hin].
    split; [reflexivity|]. intros [E|H]; [congruence|contradiction].
Qed.

(** The part before the first colon cannot begin with [custom:]. *)
Lemma split_first_not_custom (s a b : text) :
  split_first COLON s = Some (a, b) ->
  startswith (T "custom:") (strip a) = false.
Proof.
  intros [_ Hin]%split_first_inv.
  destruct (startswith (T "custom:") (strip a)) eqn:E; [|reflexivity].
  apply startswith_spec in E as [post E]. exfalso. apply Hin.
  apply strip_incl. rewrite E. vm_compute. tauto.
Qed.

Lemma parse_line_custom_inv (k : nat) (raw sp cp : text) :
  parse_line k raw = LineCustom sp cp ->
  cp <> [] /\ sp <> [] /\ strip cp = cp /\ strip sp = sp
  /\ contains (T "..") cp = false /\ contains (T "..") sp = false
  /\ sp <> T "/" /\ sp <> T "~".
Proof.
  parse_line_cases;
    try match goal with
        | H : split_first COLON _ = Some _,
          E : startswith (T "custom:") (strip _) = true |- _ =>
            apply split_first_not_custom in H; congruence
        end;
    intros [= <- <-];
    repeat match goal with
           | H : _ || _ = false |- _ => apply orb_false_iff in H as [? ?]
           end;
    repeat split; auto using strip_idem, eqb_text_false_neq;
    try match goal with
        | H : is_empty ?x = false |- _ <> [] => exact (is_empty_false_inv x H)
        end.
  apply custom_name_nonempty. now apply is_empty_false_inv.
Qed.

(** What holds of the object before the loop and is kept by every line
    that adds an entry holds of the object the loop ends with. *)
Lemma parse_lines_invariant (P : DotfilesConfig -> Prop) :
  (forall self k raw rp sp,
      P self -> parse_line k raw = LineRegular rp sp ->
      P (add_regular self rp sp)) ->
  (forall self k raw sp cp,
      P self -> parse_line k raw = LineCustom sp cp ->
      P (add_custom self sp cp)) ->
  forall lines self k, P self -> P (parse_lines self k lines).2.
Proof.
  intros Hreg Hcus. induction lines as [|l lines IH]; intros self k Hself;
    simpl; [assumption|].
  destruct (parse_line k l) as [|w|m e|sp cp|rp sp] eqn:El.
  - now apply IH.
  - specialize (IH self (S k) Hself).
    destruct (parse_lines self (S k) lines) as [[ms r] c]. exact IH.
  - assumption.
  - apply IH. eapply Hcus; eauto.
  - apply IH. eapply Hreg; eauto.
Qed.

Lemma parse_config_ok_inv (self c : DotfilesConfig) (st s' : state) :
  parse_config self st = (inr c, s') ->
  exists content ms,
    read_text (fs st) (config_file self) = inr content
    /\ parse_lines self 1 (file_lines content) = (ms, None, c)
    /\ s' = printed st ms.
Proof.
  unfold parse_config, bind, get_fs, lift, raise.
  destruct (exists_ (fs st) (config_file self)); cbn; [|discriminate].
  destruct (read_text (fs st) (config_file self)) as [e|content];
    [discriminate|].
  destruct (parse_lines self 1 (file_lines content)) as [[ms r] self'] eqn:E.
  rewrite print_all_run. destruct r; [discriminate|].
  intros [= <- <-]. exists content, ms. now rewrite E.
Qed.

Lemma in_dict_set {V} (k k0 : text) (v v0 : V) (d : list (text * V)) :
  In (k0, v0) (dict_set eqb_text k v d) ->
  (k0, v0) = (k, v) \/ In (k0, v0) d.
Proof.
  induction d as [|[k' v'] d IH]; simpl.
  - intros [H|[]]. left. now symmetry.
  - destruct (eqb_text k k').
    + intros [H|H]; [left; now symmetry | right; now right].
    + intros [H|H]; [right; now left|].
      destruct (IH H) as [E|E]; [now left | right; now right].
Qed.

(** X1.  In a configuration that [parse_config] returns, every repo path,
    overlay name and destination is non-empty, has no white space around
    it and no [..] in it; no destination is [/] or [~], and no repo path of
    a regular entry begins with [custom:]. *)
Theorem parse_config_stores_safe_paths
    (os : oracle) (script_dir : path) (config_arg : option path)
    (st s' : state) (c : DotfilesConfig) :
  parse_config (new_config os script_dir config_arg) st = (inr c, s') ->
  (forall rp sp, In (rp, sp) (file_map c) ->
     rp <> [] /\ sp <> [] /\ strip rp = rp /\ strip sp = sp
     /\ contains (T "..") rp = false /\ contains (T "..") sp = false
     /\ sp <> T "/" /\ sp <> T "~" /\ startswith (T "custom:") rp = false)
  /\ (forall sp cp, custom_map c !! sp = Some cp ->
        cp <> [] /\ sp <> [] /\ strip cp = cp /\ strip sp = sp
        /\ contains (T "..") cp = false /\ contains (T "..") sp = false
        /\ sp <> T "/" /\ sp <> T "~").
Proof.
  intros (content & ms & _ & Hrun & _)%parse_config_ok_inv.
  replace c with (parse_lines (new_config os script_dir config_arg) 1
                    (file_lines content)).2 by now rewrite Hrun.
  apply (parse_lines_invariant (fun c =>
    (forall rp sp, In (rp, sp) (file_map c) ->
       rp <> [] /\ sp <> [] /\ strip rp = rp /\ strip sp = sp
       /\ contains (T "..") rp = false /\ contains (T "..") sp = false
       /\ sp <> T "/" /\ sp <> T "~" /\ startswith (T "custom:") rp = false)
    /\ (forall sp cp, custom_map c !! sp = Some cp ->
          cp <> [] /\ sp <> [] /\ strip cp = cp /\ strip sp = sp
          /\ contains (T "..") cp = false /\ contains (T "..") sp = false
          /\ sp <> T "/" /\ sp <> T "~"))).
  - intros self k raw rp sp [Hf Hc] Hl. split; [|exact Hc].
    intros rp0 sp0 [[= -> ->]|Hin]%in_dict_set; [|now apply Hf].
    exact (parse_line_regular_inv _ _ _ _ Hl).
  - intros self k raw sp cp [Hf Hc] Hl. split; [exact Hf|].
    intros sp0 cp0. cbn [custom_map add_custom].
    destruct (decide (sp0 = sp)) as [->|Hne].
    + rewrite lookup_insert_eq. intros [= <-].
      exact (parse_line_custom_inv _ _ _ _ Hl).
    + rewrite lookup_insert_ne by congruence. apply Hc.
  - split; [intros ? ? []|]. intros sp cp. cbn. now rewrite lookup_empty.
Qed.

Lemma parse_config_stores_safe_paths_witness :
  T "HOME/testfile" <> [] /\ T ".testfile" <> []
  /\ strip (T "HOME/testfile") = T "HOME/testfile"
  /\ strip (T ".testfile") = T ".testfile"
  /\ contains (T "..") (T "HOME/testfile") = false
  /\ contains (T "..") (T ".testfile") = false
  /\ T ".testfile" <> T "/" /\ T ".testfile" <> T "~"
  /\ startswith (T "custom:") (T "HOME/testfile") = false.
Proof.
  refine (proj1 (parse_config_stores_safe_paths demo_os [T "repo"]
                   (Some conf_path) (scenario [])
                   (parse_config (new_config demo_os [T "repo"]
                                    (Some conf_path)) (scenario [])).2
                   scenario_config _) _ _ _).
  - vm_compute. reflexivity.
  - vm_compute. tauto.
Defined.

(** ** The dictionary [file_map] *)

Lemma existsb_eqb_text (k : text) (l : list text) :
  existsb (eqb_text k) l = true <-> In k l.
Proof.
  rewrite existsb_exists. split.
  - intros (x & Hx & E). apply eqb_text_eq in E. now subst.
  - intros H. exists k. split; [assumption|]. now apply eqb_text_eq.
Qed.

Lemma dict_set_keys {V} (k : text) (v : V) (d : list (text * V)) :
  map fst (dict_set eqb_text k v d)
  = map fst d ++ (if existsb (eqb_text k) (map fst d) then [] else [k]).
Proof.
  induction d as [|[k' v'] d IH]; simpl; [reflexivity|].
  destruct (eqb_text k k') eqn:E; simpl.
  - apply eqb_text_eq in E as <-. now rewrite app_nil_r.
  - now rewrite IH.
Qed.

Lemma dict_get_set_same {V} (k : text) (v : V) (d : list (text * V)) :
  dict_get eqb_text k (dict_set eqb_text k v d) = Some v.
Proof.
  induction d as [|[k' v'] d IH]; simpl.
  - now rewrite FSFacts.eqb_text_refl.
  - destruct (eqb_text k k') eqn:E; simpl.
    + now rewrite FSFacts.eqb_text_refl.
    + now rewrite E.
Qed.

Lemma dict_get_set_other {V} (k k0 : text) (v : V) (d : list (text * V)) :
  k0 <> k ->
  dict_get eqb_text k0 (dict_set eqb_text k v d) = dict_get eqb_text k0 d.
Proof.
  intros Hne. apply FSFacts.eqb_text_neq in Hne.
  induction d as [|[k' v'] d IH]; simpl.
  - now rewrite Hne.
  - destruct (eqb_text k k') eqn:E; simpl.
    + apply eqb_text_eq in E as <-. now rewrite Hne.
    + now rewrite IH.
Qed.

Lemma dict_get_in {V} (k : text) (d : list (text * V)) :
  In k (map fst d) <-> exists v, dict_get eqb_text k d = Some v.
Proof.
  induction d as [|[k' v'] d IH]; simpl.
  - split; [intros [] | intros [v E]; discriminate E].
  - destruct (eqb_text k k') eqn:E.
    + apply eqb_text_eq in E as <-. split; [eauto | now left].
    + rewrite <- IH. apply FSFacts.eqb_text_neq in E. split.
      * intros [H|H]; [congruence | assumption].
      * now right.
Qed.

(** The keys of [file_map] and the entries of [dotfiles] after the loop. *)
Lemma parse_lines_file_map_keys
    (os : oracle) (script_dir : path) (config_arg : option path)
    (lines : list text) :
  let c := (parse_lines (new_config os script_dir config_arg) 1 lines).2 in
  NoDup (map fst (file_map c))
  /\ (forall rp, In rp (dotfiles c) <-> In rp (map fst (file_map c)))
  /\ (length (file_map c) <= length (dotfiles c))%nat.
Proof.
  apply (parse_lines_invariant (fun c =>
    NoDup (map fst (file_map c))
    /\ (forall rp, In rp (dotfiles c) <-> In rp (map fst (file_map c)))
    /\ (length (file_map c) <= length (dotfiles c))%nat)).
  - intros self k raw rp sp (Hnd & Hkeys & Hlen) _.
    cbn [file_map dotfiles add_regular]. rewrite dict_set_keys.
    assert (Hl : length (dict_set eqb_text rp sp (file_map self))
                 = length (map fst (dict_set eqb_text rp sp (file_map self))))
      by now rewrite length_map.
    rewrite Hl, dict_set_keys, !length_app, length_map. clear Hl.
    destruct (existsb (eqb_text rp) (map fst (file_map self))) eqn:E.
    + rewrite app_nil_r. apply existsb_eqb_text in E.
      split; [assumption|]. split; [|simpl; lia].
      intros rp0. rewrite in_app_iff, Hkeys. split; [|tauto].
      intros [H|[<-|[]]]; assumption.
    + assert (Hnot : ~ In rp (map fst (file_map self))).
      { intros H. apply existsb_eqb_text in H. congruence. }
      split; [|split; [|simpl; lia]].
      * apply NoDup_app. split; [assumption|].
        split; [|apply NoDup_singleton].
        intros x Hx [->|[]]%list_elem_of_In. apply Hnot.
        now apply list_elem_of_In.
      * intros rp0. rewrite !in_app_iff, Hkeys. tauto.
  - intros self k raw sp cp H _. exact H.
  - cbn. split; [constructor|]. split; [tauto|lia].
Qed.

(** X2.  In a configuration that [parse_config] returns, [file_map] has
    exactly the repo paths of [dotfiles] as its keys, each of them once, so
    that looking up a repo path of [dotfiles] never fails. *)
Theorem parse_config_file_map_keys
    (os : oracle) (script_dir : path) (config_arg : option path)
    (st s' : state) (c : DotfilesConfig) :
  parse_config (new_config os script_dir config_arg) st = (inr c, s') ->
  NoDup (map fst (file_map c))
  /\ (forall rp, In rp (dotfiles c) <-> In rp (map fst (file_map c)))
  /\ (forall rp, In rp (dotfiles c) ->
        exists sp, dict_get eqb_text rp (file_map c) = Some sp)
  /\ (length (file_map c) <= length (dotfiles c))%nat.
Proof.
  intros (content & ms & _ & Hrun & _)%parse_config_ok_inv.
  pose proof (parse_lines_file_map_keys os script_dir config_arg
                (file_lines content)) as H.
  cbn zeta in H. rewrite Hrun in H. cbn [snd] in H.
  destruct H as (Hnd & Hkeys & Hlen). repeat split; try assumption;
    try apply Hkeys.
  intros rp Hin. apply dict_get_in, Hkeys, Hin.
Qed.

Lemma parse_config_file_map_keys_witness :
  exists sp,
    dict_get eqb_text (T "HOME/testfile") (file_map scenario_config) = Some sp.
Proof.
  refine (proj1 (proj2 (proj2
            (parse_config_file_map_keys demo_os [T "repo"]
               (Some conf_path) (scenario [])
               (parse_config (new_config demo_os [T "repo"]
                                (Some conf_path)) (scenario [])).2
               scenario_config _))) (T "HOME/testfile") _).
  - vm_compute. reflexivity.
  - vm_compute. tauto.
Defined.

(** The loop over two runs of lines: the second run starts from what the
    first one left, unless the first one raised. *)
Lemma parse_lines_app (a b : list text) (self : DotfilesConfig) (k : nat) :
  parse_lines self k (a ++ b)
  = let '(ms, r, c) := parse_lines self k a in
    match r with
    | Some e => (ms, Some e, c)
    | None =>
        let '(ms', r', c') := parse_lines c (k + length a) b in
        (ms ++ ms', r', c')
    end.
Proof.
  revert self k; induction a as [|l a IH]; intros self k.
  - cbn. rewrite Nat.add_0_r.
    now destruct (parse_lines self k b) as [[ms r] c].
  - cbn [app parse_lines length].
    replace (k + S (length a))%nat with (S k + length a)%nat by lia.
    destruct (parse_line k l) as [|w|m e|sp cp|rp sp]; try apply IH.
    + rewrite IH. destruct (parse_lines self (S k) a) as [[ms r] c].
      destruct r; [reflexivity|].
      now destruct (parse_lines c (S k + length a) b) as [[ms' r'] c'].
    + reflexivity.
Qed.

(** Lines that add no regular entry for [rp] leave its destination as it
    was. *)
Lemma parse_lines_keeps (rp : text) (lines : list text) :
  forall (self : DotfilesConfig) (k : nat),
  (forall j l sp, In l lines -> parse_line j l <> LineRegular rp sp) ->
  dict_get eqb_text rp (file_map (parse_lines self k lines).2)
  = dict_get eqb_text rp (file_map self).
Proof.
  induction lines as [|l lines IH]; intros self k Hno; [reflexivity|].
  assert (Hrest : forall j l0 sp, In l0 lines ->
                    parse_line j l0 <> LineRegular rp sp)
    by (intros j l0 sp Hin; apply Hno; now right).
  cbn [parse_lines].
  destruct (parse_line k l) as [|w|m e|sp cp|rp0 sp] eqn:El.
  - now apply IH.
  - specialize (IH self (S k) Hrest).
    now destruct (parse_lines self (S k) lines) as [[ms r] c].
  - reflexivity.
  - now rewrite IH.
  - rewrite IH by assumption. cbn [file_map add_regular].
    apply dict_get_set_other. intros ->. apply (Hno k l sp); [now left|].
    exact El.
Qed.

(** X3.  When the mapping file names a repo path on several regular lines,
    the destination of the last of them is the one [file_map] holds. *)
Theorem parse_config_last_line_wins
    (self c : DotfilesConfig) (st s' : state) (content : text)
    (before after : list text) (l rp sp : text) :
  read_text (fs st) (config_file self) = inr content ->
  file_lines content = before ++ l :: after ->
  parse_line (S (length before)) l = LineRegular rp sp ->
  (forall j l' sp', In l' after -> parse_line j l' <> LineRegular rp sp') ->
  parse_config self st = (inr c, s') ->
  dict_get eqb_text rp (file_map c) = Some sp /\ In rp (dotfiles c).
Proof.
  intros Hread Hsplit Hl Hafter Hrun.
  rewrite (parse_config_run self st content Hread) in Hrun.
  rewrite Hsplit, parse_lines_app in Hrun.
  destruct (parse_lines self 1 before) as [[ms0 r0] c0].
  destruct r0 as [e|]; [discriminate Hrun|].
  cbn [parse_lines] in Hrun. cbn [Nat.add] in Hrun. rewrite Hl in Hrun.
  pose proof (parse_lines_keeps rp after (add_regular c0 rp sp)
                (S (S (length before))) Hafter) as Hkeep.
  assert (Hdot : In rp (dotfiles (parse_lines (add_regular c0 rp sp)
                                    (S (S (length before))) after).2)).
  { apply (parse_lines_invariant (fun c => In rp (dotfiles c))).
    - intros s k raw rp0 sp0 H _. cbn. apply in_app_iff. now left.
    - intros s k raw sp0 cp0 H _. exact H.
    - cbn. apply in_app_iff. right. now left. }
  destruct (parse_lines (add_regular c0 rp sp) (S (S (length before))) after)
    as [[ms1 r1] c1].
  destruct r1; [discriminate Hrun|]. injection Hrun as <- _.
  cbn [snd] in *. split; [|exact Hdot].
  rewrite Hkeep. cbn [file_map add_regular]. apply dict_get_set_same.
Qed.

Lemma parse_config_last_line_wins_witness :
  let conf := T "a:x" ++ [LF] ++ T "a:y" ++ [LF] in
  let self := new_config demo_os [T "repo"] (Some conf_path) in
  let st := mkState (disk conf [] []) [] [] in
  dict_get eqb_text (T "a") (file_map (parse_lines self 1 (file_lines conf)).2)
  = Some (T "y").
Proof.
  intros conf self st.
  refine (proj1 (parse_config_last_line_wins self
                   (parse_lines self 1 (file_lines conf)).2 st
                   (parse_config self st).2 conf [T "a:x"] [[]] (T "a:y")
                   (T "a") (T "y") _ _ _ _ _)).
  - vm_compute. reflexivity.
  - vm_compute. reflexivity.
  - vm_compute. reflexivity.
  - intros j l' sp' [<-|[]]. vm_compute. discriminate.
  - vm_compute. reflexivity.
Defined.

(** ** Validation *)

Lemma has_duplicates_spec (l : list text) :
  has_duplicates l = false <-> NoDup l.
Proof.
  induction l as [|x l IH]; simpl.
  - split; [constructor|reflexivity].
  - rewrite orb_false_iff, IH. split.
    + intros [Hx Hl]. constructor; [|assumption].
      intros Hin%list_elem_of_In. apply existsb_eqb_text in Hin. congruence.
    + intros H. inversion H as [|? ? Hx Hl]; subst. split; [|assumption].
      destruct (existsb (eqb_text x) l) eqn:E; [|reflexivity].
      apply existsb_eqb_text in E. exfalso. apply Hx.
      now apply list_elem_of_In.
Qed.

Lemma flat_map_nil {A B} (f : A -> list B) (l : list A) :
  flat_map f l = [] <-> forall x, In x l -> f x = [].
Proof.
  induction l as [|a l IH]; simpl.
  - split; [intros _ x []|reflexivity].
  - split.
    + intros [Ha Hl]%app_eq_nil x [<-|Hx]; [assumption|]. now apply IH.
    + intros H. rewrite (H a) by now left. apply IH.
      intros x Hx. apply H. now right.
Qed.

(** X4.  [validate] reports no error exactly when the configuration has a
    regular entry, every repo path of [dotfiles] and every overlay file
    exists, and no repo path comes twice. *)
Theorem validate_passes_iff (self : DotfilesConfig) (n : node) :
  validate self n = []
  <-> dotfiles self <> [] /\ file_map self <> []
      /\ (forall rp, In rp (dotfiles self) ->
            exists_ n (joinpath (repo_dir self) rp) = true)
      /\ (forall sp cp, custom_map self !! sp = Some cp ->
            exists_ n (joinpath (custom_dir self) cp) = true)
      /\ NoDup (dotfiles self).
Proof.
  unfold validate. rewrite <- has_duplicates_spec.
  split.
  - intros (H1 & (H2 & (H3 & (H4 & H5)%app_eq_nil)%app_eq_nil)%app_eq_nil)
             %app_eq_nil.
    split; [now destruct (dotfiles self)|].
    split; [now destruct (file_map self)|].
    split; [|split].
    + intros rp Hin. pose proof (proj1 (flat_map_nil _ _) H3 rp Hin) as H.
      cbn beta in H. now destruct (exists_ n (joinpath (repo_dir self) rp)).
    + intros sp cp Hl.
      assert (Hin : In (sp, cp) (map_to_list (custom_map self)))
        by now apply list_elem_of_In, elem_of_map_to_list.
      pose proof (proj1 (flat_map_nil _ _) H4 (sp, cp) Hin) as H.
      cbn in H. now destruct (exists_ n (joinpath (custom_dir self) cp)).
    + now destruct (has_duplicates (dotfiles self)).
  - intros (H1 & H2 & H3 & H4 & H5).
    rewrite (is_empty_false _ H1), (is_empty_false _ H2), H5. cbn [app].
    rewrite app_nil_r.
    match goal with
    | |- flat_map ?f ?a ++ flat_map ?g ?b = [] =>
        assert (Ha : flat_map f a = []); [|assert (Hb : flat_map g b = [])]
    end.
    + apply flat_map_nil. intros rp Hin. now rewrite (H3 rp Hin).
    + apply flat_map_nil. intros [sp cp] Hin. cbn.
      apply list_elem_of_In, elem_of_map_to_list in Hin.
      now rewrite (H4 sp cp Hin).
    + now rewrite Ha, Hb.
Qed.

(** ** The prompt and the review of one file *)

Lemma review_loop_body (lines : list text) :
  review_loop lines
  = match prompt_loop lines with
    | (inr view, rest) => review_loop rest
    | r => r
    end.
Proof.
  rewrite review_loop_equation_1.
  destruct (Logic.inspect (prompt_loop lines)) as [[[e|c] rest] E].
  - simp review_loop. now rewrite E.
  - destruct c; simp review_loop; rewrite E; try reflexivity.
    symmetry. apply review_loop_equation_1.
Qed.

Lemma review_loop_skip (x : text) (lines : list text) :
  read_answer x = None \/ read_answer x = Some view ->
  review_loop (x :: lines) = review_loop lines.
Proof.
  intros H. rewrite review_loop_body. cbn [prompt_loop].
  destruct H as [-> | ->]; [|reflexivity].
  symmetry. apply review_loop_body.
Qed.

(** X5.  The review of a modified file reads lines until one is a decision:
    lines that are no valid choice make the prompt ask again, the answer
    [v] shows the diff again, and the first other valid answer is the
    result.  What was typed before it is used up, what comes after it is
    left for the next prompt.  When the lines run out first, the review
    ends with [EOFError]. *)
Theorem review_first_decision (st : state) (skipped : list text) :
  Forall (fun x => read_answer x = None \/ read_answer x = Some view)
    skipped ->
  (forall l rest c,
      stdin st = skipped ++ l :: rest ->
      read_answer l = Some c -> c <> view ->
      review st = (inr c, mkState (fs st) (journal st) rest))
  /\ (stdin st = skipped ->
      review st = (inl EOFError, mkState (fs st) (journal st) [])).
Proof.
  intros Hskip. split.
  - intros l rest c Hin Hl Hc. unfold review. rewrite Hin.
    replace (review_loop (skipped ++ l :: rest)) with (inr c : exn + choice, rest);
      [reflexivity|].
    clear Hin. induction Hskip as [|x skipped Hx _ IH]; cbn [app].
    + rewrite review_loop_body. cbn [prompt_loop]. rewrite Hl.
      now destruct c.
    + now rewrite review_loop_skip.
  - intros Hin. unfold review. rewrite Hin.
    replace (review_loop skipped) with (inl EOFError : exn + choice, @nil text);
      [reflexivity|].
    clear Hin. induction Hskip as [|x skipped Hx _ IH].
    + now rewrite review_loop_body.
    + now rewrite review_loop_skip.
Qed.

Lemma review_first_decision_witness :
  review (mkState (Dir []) [] [T "x"; T " V "; T "R"; T "zzz"])
  = (inr replace, mkState (Dir []) [] [T "zzz"]).
Proof.
  refine (proj1 (review_first_decision
                   (mkState (Dir []) [] [T "x"; T " V "; T "R"; T "zzz"])
                   [T "x"; T " V "] _) (T "R") [T "zzz"] replace _ _ _).
  - constructor; [left; reflexivity|].
    constructor; [right; reflexivity|constructor].
  - reflexivity.
  - reflexivity.
  - discriminate.
Defined.

(** ** The environment files given to the shell *)

Lemma validate_env_file_run (p : path) (st : state) :
  exists evs,
    validate_env_file p st
    = (inr match read_text (fs st) p with
           | inr t => verdict_ok (classify_env_content t)
           | inl _ => false
           end,
       mkState (fs st) (journal st ++ evs) (stdin st))
    /\ Forall (fun ev => exists m, ev = Printed m) evs.
Proof.
  unfold validate_env_file, try_except, bind, get_fs, lift, read_text,
    exists_, is_file, print, emit, ret.
  destruct st as [n jr inp]. cbn [fs journal stdin].
  destruct (lookup n p) as [[[t|b] m|es]|]; cbn.
  - destruct (classify_env_content (universal_newlines t)); cbn;
      try (eexists [_]; split; [reflexivity|repeat constructor; eauto]).
    exists []. rewrite app_nil_r. split; [reflexivity|constructor].
  - eexists [_]. split; [reflexivity|repeat constructor; eauto].
  - exists []. rewrite app_nil_r. split; [reflexivity|constructor].
  - exists []. rewrite app_nil_r. split; [reflexivity|constructor].
Qed.

Lemma calls_printed (evs : list event) :
  Forall (fun ev => exists m, ev = Printed m) evs -> calls evs = [].
Proof.
  induction 1 as [|ev evs [m ->] _ IH]; [reflexivity|exact IH].
Qed.

Lemma select_env_files_run (env_files : list path) (st : state) :
  exists evs,
    select_env_files env_files st
    = (inr (List.filter
              (fun p => match read_text (fs st) p with
                        | inr t => verdict_ok (classify_env_content t)
                        | inl _ => false
                        end) env_files),
       mkState (fs st) (journal st ++ evs) (stdin st))
    /\ Forall (fun ev => exists m, ev = Printed m) evs.
Proof.
  revert st; induction env_files as [|p rest IH]; intros st;
    cbn [select_env_files List.filter].
  - exists []. rewrite app_nil_r. split; [now destruct st|constructor].
  - assert (Hok : exists evs,
      (if exists_ (fs st) p then validate_env_file p else ret false) st
      = (inr match read_text (fs st) p with
             | inr t => verdict_ok (classify_env_content t)
             | inl _ => false
             end,
         mkState (fs st) (journal st ++ evs) (stdin st))
      /\ Forall (fun ev => exists m, ev = Printed m) evs).
    { destruct (exists_ (fs st) p) eqn:Ex; [apply validate_env_file_run|].
      exists []. rewrite app_nil_r. unfold ret, read_text.
      unfold exists_ in Ex. destruct (lookup (fs st) p); [discriminate|].
      split; [now destruct st|constructor]. }
    destruct Hok as (evs & Hrun & Hevs).
    unfold bind, get_fs. rewrite Hrun.
    set (ok := match read_text (fs st) p with
               | inr t => verdict_ok (classify_env_content t)
               | inl _ => false
               end).
    assert (Hwarn : exists evs',
      (if negb ok && exists_ (fs st) p then print (WarnUnsafeEnvFile p)
       else ret tt) (mkState (fs st) (journal st ++ evs) (stdin st))
      = (inr tt, mkState (fs st) (journal st ++ evs') (stdin st))
      /\ Forall (fun ev => exists m, ev = Printed m) evs').
    { destruct (negb ok && exists_ (fs st) p).
      - exists (evs ++ [Printed (WarnUnsafeEnvFile p)]).
        rewrite app_assoc. split; [reflexivity|].
        apply Forall_app. split; [assumption|]. repeat constructor. eauto.
      - now exists evs. }
    destruct Hwarn as (evs' & Hw & Hevs'). rewrite Hw.
    destruct (IH (mkState (fs st) (journal st ++ evs') (stdin st)))
      as (evs2 & Hrest & Hevs2).
    rewrite Hrest. cbn [fs journal stdin ret].
    exists (evs' ++ evs2). rewrite app_assoc.
    split; [now destruct ok|]. apply Forall_app. now split.
Qed.

(** X6.  Of the environment files in the list, [process_template_file]
    keeps for the shell those that exist, decode and pass the checks of
    [validate_env_file], in the order of the list; choosing them changes
    nothing on the file system. *)
Theorem select_env_files_keeps_valid (env_files : list path) (st : state) :
  let out := select_env_files env_files st in
  out.1 = inr (List.filter
                 (fun p => match read_text (fs st) p with
                           | inr t => verdict_ok (classify_env_content t)
                           | inl _ => false
                           end) env_files)
  /\ fs out.2 = fs st /\ stdin out.2 = stdin st
  /\ calls (journal out.2) = calls (journal st).
Proof.
  destruct (select_env_files_run env_files st) as (evs & -> & Hevs).
  cbn. repeat split. rewrite calls_app, (calls_printed evs Hevs).
  apply app_nil_r.
Qed.

(** ** The status of a sync *)

Lemma sync_from_repo_returns_zero_witness :
  (sync_from_repo demo_os missing_config (Some backup_root) true ask false
     true (scenario [])).1 = inr 0%Z.
Proof.
  refine (f_equal inr
            (sync_from_repo_returns_zero demo_os missing_config
               (Some backup_root) true ask false true (scenario [])
               (sync_from_repo demo_os missing_config (Some backup_root) true
                  ask false true (scenario [])).2 0%Z _ _)).
  - vm_compute. reflexivity.
  - vm_compute. reflexivity.
Defined.

(** The first pass gives a status at once only to refuse a destination,
    and the status is 1. *)
Lemma analyze_refusal (os : oracle) (config : DotfilesConfig)
    (items : list (text * text)) :
  forall to_sync identical st code s',
    analyze os config items to_sync identical st = (inr (inl code), s') ->
    code = 1%Z
    /\ (In (Printed ErrRefuseHome) (journal s')
        \/ exists d, In (Printed (ErrOutsideHome d)) (journal s')).
Proof.
  induction items as [|[rp dp] rest IH]; cbn [analyze];
    intros to_sync identical st code s' H.
  - discriminate H.
  - bind_ok H src s0 Hm. destruct src as [sf rp'].
    bind_ok H n s2 Hm2. injection Hm2 as <- <-.
    destruct (negb (exists_ (fs s0) sf)).
    { bind_ok H u s2 Hm2. eapply IH; eauto. }
    destruct (eqb_path (joinpath (home os) dp) (home os)).
    { injection H as <- <-. split; [reflexivity|]. left. cbn.
      apply in_app_iff. right. now left. }
    destruct (negb (is_prefix (home os) (joinpath (home os) dp))).
    { injection H as <- <-. split; [reflexivity|]. right.
      exists (joinpath (home os) dp). cbn. apply in_app_iff. right. now left. }
    destruct (exists_ (fs s0) (joinpath (home os) dp));
      [destruct (compare_files _ _ _)|]; eapply IH; eauto.
Qed.

(** X8.  [sync_from_repo] returns a status other than 0 only when the first
    pass refuses a destination that is the home directory or lies outside
    it; the status is then 1, and the run has made the backup directory
    and nothing else: no file was backed up, copied or removed. *)
Theorem sync_from_repo_refusal
    (os : oracle) (config : DotfilesConfig) (backup_dir_arg : option path)
    (preview : bool) (strat : strategy) (force process_templates : bool)
    (st s' : state) (rc : Z) :
  sync_from_repo os config backup_dir_arg preview strat force
    process_templates st = (inr rc, s') ->
  rc <> 0%Z ->
  let backup := match backup_dir_arg with
                | Some b => b
                | None => backup_dir config
                end in
  rc = 1%Z
  /\ mkdir_p (fs st) backup = Some (fs s')
  /\ calls (journal s') = calls (journal st) ++ [OpMkdir backup]
  /\ (In (Printed ErrRefuseHome) (journal s')
      \/ exists d, In (Printed (ErrOutsideHome d)) (journal s')).
Proof.
  intros H Hrc backup. unfold sync_from_repo in H. fold backup in H.
  bind_ok H u s0 Hm. rewrite mkdir_run in Hm.
  destruct (mkdir_p (fs st) backup) as [n|] eqn:Hmk; [|discriminate Hm].
  injection Hm as _ <-.
  bind_ok H analysis s1 Hm1.
  pose proof (readonly_analyze os config (file_map config) [] []
                (called st (OpMkdir backup) n)) as Hro.
  rewrite Hm1 in Hro. destruct Hro as [Hfs (evs & Hj & Hev)].
  cbn [snd fs called journal] in Hfs, Hj.
  destruct analysis as [code|[files_to_sync files_identical]].
  - injection H as <- <-.
    destruct (analyze_refusal _ _ _ _ _ _ _ _ Hm1) as [-> Hprinted].
    split; [reflexivity|]. split; [now rewrite <- Hfs|].
    split; [|exact Hprinted].
    rewrite Hj, !calls_app. rewrite (no_call_calls evs); [apply app_nil_r|].
    eapply Forall_impl; [exact Hev|]. now intros ev [Hnc _].
  - exfalso. apply Hrc.
    destruct (is_empty files_to_sync).
    { bind_ok H u' s2 Hm2. now injection H as <- _. }
    bind_ok H plan s2 Hm2.
    destruct plan as [actions|]; [|now injection H as <- _].
    unfold apply_and_finish in H.
    bind_ok H applied s3 Hm3.
    destruct applied as [files_skipped files_synced].
    bind_ok H k s4 Hm4.
    bind_ok H u' s5 Hm5. now injection H as <- _.
Qed.

Lemma sync_from_repo_refusal_witness :
  let config := add_regular (new_config demo_os [T "repo"] (Some conf_path))
                  (T "HOME/testfile") (T "/etc/passwd") in
  let out := sync_from_repo demo_os config (Some backup_root) true ask false
               true (scenario []) in
  out.1 = inr 1%Z /\ calls (journal out.2) = [OpMkdir backup_root].
Proof.
  intros config out. split; [vm_compute; reflexivity|].
  refine (proj1 (proj2 (proj2
            (sync_from_repo_refusal demo_os config (Some backup_root) true
               ask false true (scenario []) out.2 1%Z _ _)))).
  - vm_compute. reflexivity.
  - discriminate.
Defined.

(** ** The strategy [skip] *)

Lemma preview_loop_skip_all (os : oracle) (config : DotfilesConfig)
    (files : list (text * text * status)) :
  forall (actions : gmap text choice) (st : state),
  (forall k v, actions !! k = Some v -> v = keep) ->
  exists actions',
    preview_loop os config skip_all files actions st = (inr (Some actions'), st)
    /\ (forall k v, actions' !! k = Some v -> v = keep).
Proof.
  induction files as [|[[rp dp] s] rest IH]; intros actions st Hkeep;
    cbn [preview_loop].
  - now exists actions.
  - assert (Hins : forall k v, <[rp := keep]> actions !! k = Some v -> v = keep).
    { intros k v. destruct (decide (k = rp)) as [->|Hne].
      - rewrite lookup_insert_eq. now intros [= <-].
      - rewrite lookup_insert_ne by congruence. apply Hkeep. }
    destruct s; apply IH; exact Hins.
Qed.

Lemma default_actions_skip_all (files : list (text * text * status)) :
  forall k v, default_actions skip_all files !! k = Some v -> v = keep.
Proof.
  unfold default_actions.
  assert (H : forall (actions : gmap text choice),
    (forall k v, actions !! k = Some v -> v = keep) ->
    forall k v,
      foldl (fun actions (e : text * text * status) =>
               <[e.1.1 := keep]> actions) actions files !! k = Some v ->
      v = keep).
  { induction files as [|e rest IH]; intros actions Hkeep; [exact Hkeep|].
    cbn [foldl]. apply IH. intros k v.
    destruct (decide (k = e.1.1)) as [->|Hne].
    - rewrite lookup_insert_eq. now intros [= <-].
    - rewrite lookup_insert_ne by congruence. apply Hkeep. }
  apply H. intros k v. now rewrite lookup_empty.
Qed.

Lemma apply_changes_all_kept (os : oracle) (config : DotfilesConfig)
    (backup : path) (force : bool) (actions : gmap text choice)
    (files : list (text * text * status)) :
  (forall k v, actions !! k = Some v -> v = keep) ->
  forall skipped synced st,
    apply_changes os config backup force actions files skipped synced st
    = (inr (skipped ++ map (fun e : text * text * status => e.1.1) files,
            synced), st).
Proof.
  intros Hkeep. induction files as [|[[rp dp] s] rest IH];
    intros skipped synced st; cbn [apply_changes map].
  - now rewrite app_nil_r.
  - assert (Ha : default keep (actions !! rp) = keep).
    { destruct (actions !! rp) as [v|] eqn:E; [|reflexivity].
      cbn. exact (Hkeep _ _ E). }
    rewrite Ha, IH. cbn. now rewrite <- app_assoc.
Qed.

(** X9.  With the strategy [skip], whatever the other options, a sync
    writes nothing: it makes the backup directory and no other call to the
    file system, no destination is backed up, replaced or removed, and no
    template is processed. *)
Theorem sync_from_repo_skip_writes_nothing
    (os : oracle) (config : DotfilesConfig) (backup_dir_arg : option path)
    (preview force process_templates : bool) (st : state) :
  let backup := match backup_dir_arg with
                | Some b => b
                | None => backup_dir config
                end in
  let out := sync_from_repo os config backup_dir_arg preview skip_all force
               process_templates st in
  calls (journal out.2) = calls (journal st) ++ [OpMkdir backup]
  /\ fs out.2 = default (fs st) (mkdir_p (fs st) backup).
Proof.
  intros backup out.
  destruct out as [r s'] eqn:H. subst out. cbn [snd].
  unfold sync_from_repo in H. fold backup in H.
  assert (Hprint : forall (s : state) m (z : Z) r s',
    bind (print m) (fun _ => ret z) s = (r, s') ->
    calls (journal s') = calls (journal s) /\ fs s' = fs s).
  { intros s m z r0 s0 [= <- <-]. cbn. rewrite calls_app. cbn.
    now rewrite app_nil_r. }
  apply bind_inv in H as [(e & H & ->) | ([] & s0 & Hm & H)];
    rewrite mkdir_run in *;
    destruct (mkdir_p (fs st) backup) as [n|] eqn:Hmk; try discriminate.
  { injection H as _ <-. cbn. now rewrite calls_app. }
  injection Hm as <-.
  destruct (readonly_analyze os config (file_map config) [] []
              (called st (OpMkdir backup) n)) as [Hfs (evs & Hj & Hev)].
  assert (Hcalls : forall r1 s1,
    analyze os config (file_map config) [] [] (called st (OpMkdir backup) n)
    = (r1, s1) ->
    calls (journal s1) = calls (journal st) ++ [OpMkdir backup]
    /\ fs s1 = n).
  { intros r1 s1 E. rewrite E in Hfs, Hj. cbn in Hfs, Hj. split; [|easy].
    rewrite Hj, !calls_app, (no_call_calls evs); [apply app_nil_r|].
    eapply Forall_impl; [exact Hev|]. now intros ev [Hnc _]. }
  clear Hfs Hj Hev evs. cbn [default].
  bind_step H e analysis s1 Hm; [exact (Hcalls _ _ H)|].
  apply Hcalls in Hm as [Hc Hfs]. clear Hcalls.
  destruct analysis as [code|[files_to_sync files_identical]].
  { injection H as _ <-. auto. }
  destruct (is_empty files_to_sync).
  { apply Hprint in H as [-> ->]. auto. }
  assert (Hplan : exists actions,
    plan_changes os config (if force then false else preview) skip_all force
      files_to_sync s1 = (inr (Some actions), s1)
    /\ (forall k v, actions !! k = Some v -> v = keep)).
  { unfold plan_changes. destruct (_ && _).
    - destruct (preview_loop_skip_all os config files_to_sync ∅ s1)
        as (actions & Hrun & Hk).
      { intros k v. now rewrite lookup_empty. }
      exists actions. unfold bind. rewrite Hrun. cbn. auto.
    - eexists. split; [reflexivity|]. apply default_actions_skip_all. }
  destruct Hplan as (actions & Hplan & Hkeep).
  bind_step H e plan s2 Hm; rewrite Hplan in *; [discriminate H|].
  injection Hm as <- <-.
  unfold apply_and_finish in H.
  bind_step H e applied s2 Hm;
    rewrite (apply_changes_all_kept os config backup force actions
               files_to_sync Hkeep) in *; [discriminate H|].
  injection Hm as <- <-. cbn [app is_empty negb] in H.
  rewrite andb_false_r in H.
  bind_step H e k s2 Hm; [discriminate H|]. injection Hm as _ <-.
  apply Hprint in H as [-> ->]. auto.
Qed.

(** ** What a run reads from the terminal *)

(** Computations whose every run is related by a preorder on states. *)
Section Steps.

Variable R : state -> state -> Prop.
Hypothesis R_refl : forall s, R s s.
Hypothesis R_trans : forall a b c, R a b -> R b c -> R a c.

Lemma steps_ret {A} (a : A) : steps R (ret a).
Proof. intros st. apply R_refl. Qed.

Lemma steps_raise {A} (e : exn) : steps R (@raise A e).
Proof. intros st. apply R_refl. Qed.

Lemma steps_lift {A} (r : exn + A) : steps R (lift r).
Proof. intros st. apply R_refl. Qed.

Lemma steps_get_fs : steps R get_fs.
Proof. intros st. apply R_refl. Qed.

Lemma steps_bind {A B} (m : M A) (k : A -> M B) :
  steps R m -> (forall a, steps R (k a)) -> steps R (bind m k).
Proof.
  intros Hm Hk st. unfold bind. specialize (Hm st).
  destruct (m st) as [[e|a] st']; [exact Hm|].
  eapply R_trans; [exact Hm | apply Hk].
Qed.

Lemma steps_try_except {A} (m : M A) (handles : exn -> bool) (h : exn -> M A) :
  steps R m -> (forall e, steps R (h e)) -> steps R (try_except m handles h).
Proof.
  intros Hm Hh st. unfold try_except. specialize (Hm st).
  destruct (m st) as [[e|a] st']; [|exact Hm].
  destruct (handles e); [|exact Hm].
  eapply R_trans; [exact Hm | apply Hh].
Qed.

Lemma steps_try_finally {A} (m : M A) (c : M unit) :
  steps R m -> steps R c -> steps R (try_finally m c).
Proof.
  intros Hm Hc st. unfold try_finally. specialize (Hm st).
  destruct (m st) as [r st']. specialize (Hc st').
  destruct (c st') as [[e|u] st'']; eapply R_trans; eauto.
Qed.

End Steps.

Lemma silent_refl (s : state) : silent s s.
Proof. reflexivity. Qed.

Lemma silent_trans (a b c : state) : silent a b -> silent b c -> silent a c.
Proof. unfold silent. congruence. Qed.

Lemma reads_refl (s : state) : reads s s.
Proof. now exists []. Qed.

Lemma reads_trans (a b c : state) : reads a b -> reads b c -> reads a c.
Proof.
  intros [u1 E1] [u2 E2]. exists (u1 ++ u2). now rewrite E1, E2, app_assoc.
Qed.

Lemma silent_reads (s s' : state) : silent s s' -> reads s s'.
Proof. intros H. exists []. now rewrite H. Qed.

Create HintDb silent.
Create HintDb reads.

Ltac steps_rel R Rrefl Rtrans solver :=
  repeat first
    [ solve [solver]
    | apply (steps_ret R Rrefl)
    | apply (steps_raise R Rrefl)
    | apply (steps_lift R Rrefl)
    | apply (steps_get_fs R Rrefl)
    | apply (steps_bind R Rtrans); [ | intros ?]
    | apply (steps_try_except R Rtrans); [ | intros ?]
    | apply (steps_try_finally R Rtrans); [ | ]
    | match goal with
      | |- steps _ (match ?x with _ => _ end) => destruct x
      end ].

Ltac silent_go :=
  steps_rel silent silent_refl silent_trans ltac:(auto with silent).
Ltac reads_go :=
  steps_rel reads reads_refl reads_trans ltac:(auto with reads).

Lemma silent_emit (ev : event) : steps silent (emit ev).
Proof. intros st. reflexivity. Qed.

Lemma silent_set_fs (n : node) : steps silent (set_fs n).
Proof. intros st. reflexivity. Qed.

#[export] Hint Resolve silent_emit silent_set_fs : silent.

Lemma silent_print (m : message) : steps silent (print m).
Proof. apply silent_emit. Qed.

Lemma silent_call (op : fsop) : steps silent (call op).
Proof. apply silent_emit. Qed.

Lemma silent_store (r : option node) (e : exn) : steps silent (store r e).
Proof. destruct r; [apply silent_set_fs | silent_go]. Qed.

#[export] Hint Resolve silent_print silent_call silent_store : silent.

Lemma silent_mkdir (p : path) : steps silent (mkdir p).
Proof. unfold mkdir. silent_go. Qed.

Lemma silent_copy2 (src dst : path) : steps silent (copy2 src dst).
Proof. unfold copy2. silent_go. Qed.

Lemma silent_copytree (src dst : path) : steps silent (copytree src dst).
Proof. unfold copytree. silent_go. Qed.

Lemma silent_rmtree (p : path) : steps silent (rmtree p).
Proof. unfold rmtree. silent_go. Qed.

Lemma silent_unlink (p : path) : steps silent (unlink p).
Proof. unfold unlink. silent_go. Qed.

Lemma silent_write_text (os : oracle) (p : path) (t : text) :
  steps silent (write_text os p t).
Proof. unfold write_text. silent_go. Qed.

Lemma silent_mkstemp (os : oracle) (dir : path) (suffix : text) :
  steps silent (mkstemp os dir suffix).
Proof. unfold mkstemp. silent_go. Qed.

#[export] Hint Resolve silent_mkdir silent_copy2 silent_copytree silent_rmtree
  silent_unlink silent_write_text silent_mkstemp : silent.

Lemma silent_validate_env_file (p : path) : steps silent (validate_env_file p).
Proof. unfold validate_env_file. silent_go. Qed.

#[export] Hint Resolve silent_validate_env_file : silent.

Lemma silent_select_env_files (env_files : list path) :
  steps silent (select_env_files env_files).
Proof.
  induction env_files as [|p rest IH]; cbn [select_env_files]; silent_go.
Qed.

#[export] Hint Resolve silent_select_env_files : silent.

Lemma silent_run_envsubst (os : oracle) (vs : list path) (f o : path) :
  steps silent (run_envsubst os vs f o).
Proof. unfold run_envsubst. silent_go. Qed.

#[export] Hint Resolve silent_run_envsubst : silent.

Lemma silent_process_template_file (os : oracle) (f : path) (env : list path) :
  steps silent (process_template_file os f env).
Proof. unfold process_template_file. silent_go. Qed.

#[export] Hint Resolve silent_process_template_file : silent.

Lemma silent_scan_templates (os : oracle) (synced : list (text * text))
    (found : list (path * gset text)) (rb : list (path * path)) :
  steps silent (scan_templates os synced found rb).
Proof.
  revert found rb; induction synced as [|[rp dp] rest IH]; intros found rb;
    cbn [scan_templates]; silent_go.
Qed.

Lemma silent_process_found (os : oracle) (env : list path)
    (found : list (path * gset text)) (k : nat) (failed : list path) :
  steps silent (process_found os env found k failed).
Proof.
  revert k failed; induction found as [|[f vs] rest IH]; intros k failed;
    cbn [process_found]; silent_go.
Qed.

Lemma silent_report_rollbacks (failed : list path) (rb : list (path * path)) :
  steps silent (report_rollbacks failed rb).
Proof.
  induction failed as [|f rest IH]; cbn [report_rollbacks]; silent_go.
Qed.

Lemma silent_cleanup_rollbacks (failed : list path) (rb : list (path * path)) :
  steps silent (cleanup_rollbacks failed rb).
Proof.
  induction rb as [|[f r] rest IH]; cbn [cleanup_rollbacks]; silent_go.
Qed.

#[export] Hint Resolve silent_scan_templates silent_process_found
  silent_report_rollbacks silent_cleanup_rollbacks : silent.

Lemma silent_process_synced_templates (os : oracle)
    (synced : list (text * text)) :
  steps silent (process_synced_templates os synced).
Proof. unfold process_synced_templates. silent_go. Qed.

Lemma silent_backup_existing (os : oracle) (backup : path) (force : bool)
    (dest_path : text) (st : status) (action : choice) :
  steps silent (backup_existing os backup force dest_path st action).
Proof. unfold backup_existing. silent_go. Qed.

Lemma silent_copy_to_destination (os : oracle) (config : DotfilesConfig)
    (repo_path dest_path : text) :
  steps silent (copy_to_destination os config repo_path dest_path).
Proof. unfold copy_to_destination. silent_go. Qed.

#[export] Hint Resolve silent_process_synced_templates silent_backup_existing
  silent_copy_to_destination : silent.

Lemma silent_apply_changes (os : oracle) (config : DotfilesConfig)
    (backup : path) (force : bool) (actions : gmap text choice)
    (files : list (text * text * status)) (skipped : list text)
    (synced : list (text * text)) :
  steps silent
    (apply_changes os config backup force actions files skipped synced).
Proof.
  revert skipped synced; induction files as [|[[rp dp] st] rest IH];
    intros skipped synced; cbn [apply_changes]; silent_go.
Qed.

Lemma silent_resolve_source (config : DotfilesConfig) (rp dp : text) :
  steps silent (resolve_source config rp dp).
Proof. unfold resolve_source. silent_go. Qed.

#[export] Hint Resolve silent_apply_changes silent_resolve_source : silent.

Lemma silent_analyze (os : oracle) (config : DotfilesConfig)
    (items : list (text * text)) (to_sync : list (text * text * status))
    (identical : list (text * text)) :
  steps silent (analyze os config items to_sync identical).
Proof.
  revert to_sync identical; induction items as [|[rp dp] rest IH];
    intros to_sync identical; cbn [analyze]; silent_go.
Qed.

Lemma silent_apply_and_finish (os : oracle) (config : DotfilesConfig)
    (backup : path) (force pt : bool) (actions : gmap text choice)
    (files : list (text * text * status)) :
  steps silent (apply_and_finish os config backup force pt actions files).
Proof. unfold apply_and_finish. silent_go. Qed.

#[export] Hint Resolve silent_analyze silent_apply_and_finish : silent.

Lemma prompt_loop_suffix (lines : list text) :
  exists used, lines = used ++ (prompt_loop lines).2.
Proof.
  induction lines as [|l lines [used IH]]; cbn [prompt_loop].
  - now exists [].
  - destruct (read_answer l).
    + now exists [l].
    + exists (l :: used). cbn. now rewrite <- IH.
Qed.

Lemma prompt_loop_answer (lines rest : list text) (c : choice) :
  prompt_loop lines = (inr c, rest) -> (length rest < length lines)%nat.
Proof.
  induction lines as [|l lines IH]; cbn [prompt_loop]; [discriminate|].
  destruct (read_answer l).
  - intros [= _ <-]. cbn. lia.
  - intros H. specialize (IH H). cbn. lia.
Qed.

Lemma review_loop_suffix (lines : list text) :
  exists used, lines = used ++ (review_loop lines).2.
Proof.
  induction lines as [lines IH] using (induction_ltof1 _ (@length text)).
  rewrite review_loop_body.
  destruct (prompt_loop_suffix lines) as [used Hused].
  destruct (prompt_loop lines) as [[e|c] rest] eqn:E; cbn [snd] in Hused.
  - now exists used.
  - destruct c; try (now exists used).
    destruct (IH rest (prompt_loop_answer _ _ _ E)) as [used' Hused'].
    exists (used ++ used'). now rewrite <- app_assoc, <- Hused'.
Qed.

Lemma reads_emit (ev : event) : steps reads (emit ev).
Proof. intros st. now exists []. Qed.

Lemma reads_review : steps reads review.
Proof.
  intros st. unfold review. destruct (review_loop_suffix (stdin st)) as [u E].
  destruct (review_loop (stdin st)) as [r rest]. now exists u.
Qed.

Lemma reads_input : steps reads input.
Proof.
  intros st. unfold input. destruct (stdin st) as [|l rest] eqn:E.
  - exists []. now rewrite E.
  - exists [l]. now rewrite E.
Qed.

#[export] Hint Resolve reads_emit reads_review reads_input : reads.

Lemma reads_print (m : message) : steps reads (print m).
Proof. apply reads_emit. Qed.

#[export] Hint Resolve reads_print : reads.

Lemma reads_preview_loop (os : oracle) (config : DotfilesConfig)
    (strat : strategy) (files : list (text * text * status))
    (actions : gmap text choice) :
  steps reads (preview_loop os config strat files actions).
Proof.
  revert actions; induction files as [|[[rp dp] s] rest IH]; intros actions;
    cbn [preview_loop]; reads_go.
Qed.

(** In interactive mode a plan comes only after the user typed [y] at the
    confirmation. *)
Lemma plan_changes_consent (os : oracle) (config : DotfilesConfig)
    (files : list (text * text * status)) (st s' : state)
    (actions : gmap text choice) :
  plan_changes os config true ask false files st = (inr (Some actions), s') ->
  exists before l,
    stdin st = before ++ l :: stdin s' /\ strip (lower l) = T "y".
Proof.
  unfold plan_changes. cbn [andb negb]. intros H.
  bind_ok H plan s1 Hm.
  pose proof (reads_preview_loop os config ask files ∅ st) as [before Hb].
  rewrite Hm in Hb. cbn [snd] in Hb.
  destruct plan as [actions0|]; [|discriminate H].
  bind_ok H go s2 Hgo. injection H as Hact <-.
  destruct go; [|discriminate Hact].
  unfold confirm, bind, input in Hgo.
  destruct (stdin s1) as [|l rest] eqn:Hin; [discriminate Hgo|].
  destruct (eqb_text (strip (lower l)) (T "y")) eqn:Hy;
    [|discriminate Hgo].
  injection Hgo as <-. exists before, l. cbn [stdin].
  split; [assumption|]. now apply eqb_text_eq.
Qed.

(** X10.  In interactive mode (a preview with the strategy [ask], without
    [force]), a run that makes any call to the file system beyond creating
    the backup directory has read the answer [y] (in any case, with any
    white space around it) from the terminal: nothing is backed up, copied
    or removed before the user has agreed. *)
Theorem sync_from_repo_asks_before_writing
    (os : oracle) (config : DotfilesConfig) (backup_dir_arg : option path)
    (process_templates : bool) (st : state) :
  let backup := match backup_dir_arg with
                | Some b => b
                | None => backup_dir config
                end in
  let out := sync_from_repo os config backup_dir_arg true ask false
               process_templates st in
  calls (journal out.2) <> calls (journal st) ++ [OpMkdir backup] ->
  exists before l after,
    stdin st = before ++ l :: after /\ strip (lower l) = T "y".
Proof.
  intros backup out.
  destruct out as [r s'] eqn:H. subst out. cbn [snd]. intros Hcalls.
  unfold sync_from_repo in H. fold backup in H. cbn [negb] in H.
  assert (Hprint : forall (s : state) m (z : Z) r s',
    bind (print m) (fun _ => ret z) s = (r, s') ->
    calls (journal s') = calls (journal s)).
  { intros s m z r0 s0 [= <- <-]. cbn. rewrite calls_app. cbn.
    now rewrite app_nil_r. }
  apply bind_inv in H as [(e & H & ->) | ([] & s0 & Hm & H)];
    rewrite mkdir_run in *;
    destruct (mkdir_p (fs st) backup) as [n|] eqn:Hmk; try discriminate.
  { injection H as _ <-. exfalso. apply Hcalls. cbn. now rewrite calls_app. }
  injection Hm as <-.
  destruct (readonly_analyze os config (file_map config) [] []
              (called st (OpMkdir backup) n)) as [_ (evs & Hj & Hev)].
  pose proof (silent_analyze os config (file_map config) [] []
              (called st (OpMkdir backup) n)) as Hin.
  assert (Han : forall r1 s1,
    analyze os config (file_map config) [] [] (called st (OpMkdir backup) n)
    = (r1, s1) ->
    calls (journal s1) = calls (journal st) ++ [OpMkdir backup]
    /\ stdin s1 = stdin st).
  { intros r1 s1 E. rewrite E in Hj, Hin. cbn in Hj. split; [|exact Hin].
    rewrite Hj, !calls_app, (no_call_calls evs); [apply app_nil_r|].
    eapply Forall_impl; [exact Hev|]. now intros ev [Hnc _]. }
  clear Hj Hev evs Hin.
  bind_step H e analysis s1 Hm; [now apply Han in H|].
  apply Han in Hm as [Hc Hin]. clear Han.
  destruct analysis as [code|[files_to_sync files_identical]].
  { injection H as _ <-. contradiction. }
  destruct (is_empty files_to_sync).
  { apply Hprint in H. congruence. }
  bind_step H e plan s2 Hm.
  { apply plan_changes_cancel in H as [_ (evs & Hj & Hnc & _)].
    exfalso. apply Hcalls. rewrite Hj, calls_app, (no_call_calls evs Hnc).
    now rewrite app_nil_r. }
  destruct plan as [actions|].
  - apply plan_changes_consent in Hm as (before & l & Hb & Hy).
    exists before, l, (stdin s2). split; [congruence|assumption].
  - injection H as _ <-.
    apply plan_changes_cancel in Hm as [_ (evs & Hj & Hnc & _)].
    exfalso. apply Hcalls. rewrite Hj, calls_app, (no_call_calls evs Hnc).
    now rewrite app_nil_r.
Qed.

Lemma sync_from_repo_asks_before_writing_witness :
  exists before l after,
    stdin (scenario [T "r"; T "Y "]) = before ++ l :: after
    /\ strip (lower l) = T "y".
Proof.
  refine (sync_from_repo_asks_before_writing demo_os scenario_config
            (Some backup_root) true (scenario [T "r"; T "Y "]) _).
  vm_compute. discriminate.
Defined.

(** X11.  A run with [force], without a preview, or with a strategy other
    than [ask] never reads the terminal. *)
Theorem sync_from_repo_never_prompts
    (os : oracle) (config : DotfilesConfig) (backup_dir_arg : option path)
    (preview : bool) (strat : strategy) (force process_templates : bool)
    (st : state) :
  force = true \/ preview = false \/ strat <> ask ->
  stdin (sync_from_repo os config backup_dir_arg preview strat force
           process_templates st).2 = stdin st.
Proof.
  intros Hmode.
  enough (H : steps silent
                (sync_from_repo os config backup_dir_arg preview strat force
                   process_templates)) by apply H.
  unfold sync_from_repo.
  assert (Hplan : forall files,
    steps silent (plan_changes os config (if force then false else preview)
                    strat force files)).
  { intros files. unfold plan_changes.
    destruct ((if force then false else preview) && negb force) eqn:E;
      [|silent_go].
    assert (Hs : strat <> ask).
    { destruct force; [discriminate E|]. destruct preview; [|discriminate E].
      destruct Hmode as [H|[H|H]]; [discriminate H|discriminate H|exact H]. }
    assert (Hloop : forall actions,
      steps silent (preview_loop os config strat files actions)).
    { induction files as [|[[rp dp] s] rest IH]; intros actions;
        cbn [preview_loop]; [silent_go|].
      destruct s, strat; try congruence; apply IH. }
    apply (steps_bind silent silent_trans); [apply Hloop|].
    intros [actions|]; [|silent_go].
    apply (steps_bind silent silent_trans); [|intros ?; silent_go].
    destruct strat; [congruence| |]; cbn [confirm]; silent_go. }
  silent_go.
Qed.

Lemma sync_from_repo_never_prompts_witness :
  stdin (sync_from_repo demo_os scenario_config (Some backup_root) true ask
           true true (scenario [T "q"])).2 = [T "q"].
Proof.
  refine (sync_from_repo_never_prompts demo_os scenario_config
            (Some backup_root) true ask true true (scenario [T "q"]) _).
  now left.
Defined.

(** ** The shell arrays *)

Lemma rstrip_incl (c : char) (s : text) : In c (rstrip s) -> In c s.
Proof. unfold rstrip. intros H. now apply in_rev, lstrip_incl, in_rev in H. Qed.

(** The text [custom:] stays in front when what follows it is stripped on
    the right. *)
Lemma custom_prefix_kept (t : text) :
  startswith (T "custom:") (strip (T "custom:" ++ t)) = true.
Proof.
  unfold strip.
  change (lstrip (T "custom:" ++ t)) with (T "custom:" ++ t).
  destruct (rstrip t) as [|c r] eqn:E.
  - replace (rstrip (T "custom:" ++ t)) with (T "custom:"); [reflexivity|].
    unfold rstrip in *. rewrite rev_app_distr.
    apply (f_equal (@rev char)) in E. rewrite rev_involutive in E. cbn in E.
    apply lstrip_nil in E.
    assert (H : forall a b, forallb isspace a = true ->
                            lstrip (a ++ b) = lstrip b).
    { intros a b. induction a as [|x a IH]; cbn; [reflexivity|].
      destruct (isspace x); [exact IH|discriminate]. }
    rewrite (H _ _ E). reflexivity.
  - rewrite rstrip_app by (rewrite E; discriminate). reflexivity.
Qed.

(** The characters of a stored path are characters of its line. *)
Lemma parse_line_regular_chars (k : nat) (raw rp sp : text) (c : char) :
  parse_line k raw = LineRegular rp sp ->
  In c rp \/ In c sp -> In c raw.
Proof.
  parse_line_cases;
    try match goal with
        | E : startswith (T "custom:") (strip (T "custom:" ++ _)) = false
          |- _ => rewrite custom_prefix_kept in E; discriminate E
        end.
  intros [= <- <-].
  match goal with
  | H : split_first COLON _ = Some _ |- _ =>
      apply split_first_inv in H as [H _]
  end.
  intros Hc. apply strip_incl. 
  match goal with H : strip raw = _ |- _ => rewrite H end.
  apply in_app_iff. destruct Hc as [Hc|Hc]; apply strip_incl in Hc;
    [now left | right; now right].
Qed.

Lemma split_single (sep : char) (a : text) :
  ~ In sep a -> split sep a = [a].
Proof.
  induction a as [|c a IH]; cbn; [reflexivity|]. intros H.
  destruct (N.eqb_spec c sep) as [->|_]; [exfalso; apply H; now left|].
  rewrite IH; [reflexivity|]. intros Hin. apply H. now right.
Qed.

Lemma split_app_sep (sep : char) (a b : text) :
  ~ In sep a -> split sep (a ++ sep :: b) = a :: split sep b.
Proof.
  induction a as [|c a IH]; cbn; intros H.
  - now rewrite N.eqb_refl.
  - destruct (N.eqb_spec c sep) as [->|_]; [exfalso; apply H; now left|].
    rewrite IH; [reflexivity|]. intros Hin. apply H. now right.
Qed.

Lemma in_join (sep : text) (items : list text) (c : char) :
  In c (join sep items) -> In c sep \/ exists x, In x items /\ In c x.
Proof.
  induction items as [|x [|y rest] IH]; cbn [join].
  - intros [].
  - intros H. right. exists x. split; [now left|assumption].
  - intros [H|[H|H]%in_app_iff]%in_app_iff.
    + right. exists x. split; [now left|assumption].
    + now left.
    + destruct (IH H) as [Hs|(z & Hz & Hc)]; [now left|].
      right. exists z. split; [now right|assumption].
Qed.

Lemma dests_of_spec (fm : list (text * text)) (dotfiles : list text) :
  (forall rp, In rp dotfiles -> exists sp, dict_get eqb_text rp fm = Some sp) ->
  exists dests,
    dests_of fm dotfiles = inr dests
    /\ Forall2 (fun rp d => dict_get eqb_text rp fm = Some d) dotfiles dests.
Proof.
  induction dotfiles as [|rp rest IH]; intros H; cbn [dests_of].
  - exists []. split; [reflexivity|constructor].
  - destruct (H rp) as [sp Hsp]; [now left|]. rewrite Hsp.
    destruct IH as (dests & -> & Hf); [intros x Hx; apply H; now right|].
    exists (sp :: dests). split; [reflexivity|]. now constructor.
Qed.

Lemma dict_get_In {V} (k : text) (v : V) (d : list (text * V)) :
  dict_get eqb_text k d = Some v -> In (k, v) d.
Proof.
  induction d as [|[k' v'] d IH]; cbn; [discriminate|].
  destruct (eqb_text k k') eqn:E.
  - apply eqb_text_eq in E as <-. intros [= <-]. now left.
  - intros H. right. now apply IH.
Qed.

Lemma parse_lines_invariant_in (P : DotfilesConfig -> Prop)
    (lines : list text) :
  (forall self k raw rp sp,
      In raw lines -> P self -> parse_line k raw = LineRegular rp sp ->
      P (add_regular self rp sp)) ->
  (forall self k raw sp cp,
      In raw lines -> P self -> parse_line k raw = LineCustom sp cp ->
      P (add_custom self sp cp)) ->
  forall self k, P self -> P (parse_lines self k lines).2.
Proof.
  induction lines as [|l lines IH]; intros Hreg Hcus self k Hself;
    simpl; [assumption|].
  assert (IH' : forall self k, P self -> P (parse_lines self k lines).2).
  { apply IH.
    - intros s j raw rp sp Hin. apply Hreg. now right.
    - intros s j raw sp cp Hin. apply Hcus. now right. }
  destruct (parse_line k l) as [|w|m e|sp cp|rp sp] eqn:El.
  - now apply IH'.
  - specialize (IH' self (S k) Hself).
    destruct (parse_lines self (S k) lines) as [[ms r] c]. exact IH'.
  - assumption.
  - apply IH'. eapply Hcus; eauto. now left.
  - apply IH'. eapply Hreg; eauto. now left.
Qed.

(** X12.  On a configuration that [parse_config] returned,
    [generate_shell_arrays] for [bash] or [zsh] (in any case) never fails
    on a missing key: it returns two lines, an array of the repo paths of
    [dotfiles] and an array of as many destinations, the i-th being the
    one [file_map] holds for the i-th repo path.  For any other shell it
    raises. *)
Theorem generate_shell_arrays_parsed
    (os : oracle) (script_dir : path) (config_arg : option path)
    (st s' : state) (c : DotfilesConfig) (shell : text) :
  parse_config (new_config os script_dir config_arg) st = (inr c, s') ->
  (existsb (eqb_text (lower shell)) [T "zsh"; T "bash"] = true ->
   exists dests,
     Forall2 (fun rp d => dict_get eqb_text rp (file_map c) = Some d)
       (dotfiles c) dests
     /\ generate_shell_arrays c shell
        = inr (T "DOTFILES_REPO_PATHS=("
               ++ join (T " ") (List.map quoted (dotfiles c)) ++ T ")" ++ [LF]
               ++ T "DOTFILES_DEST_PATHS=("
               ++ join (T " ") (List.map quoted dests) ++ T ")" ++ [LF])
     /\ forall out, generate_shell_arrays c shell = inr out ->
          split LF out
          = [T "DOTFILES_REPO_PATHS=("
             ++ join (T " ") (List.map quoted (dotfiles c)) ++ T ")";
             T "DOTFILES_DEST_PATHS=("
             ++ join (T " ") (List.map quoted dests) ++ T ")"; []])
  /\ (existsb (eqb_text (lower shell)) [T "zsh"; T "bash"] = false ->
      generate_shell_arrays c shell = inl (UnsupportedShell shell)).
Proof.
  intros Hparse. split; [|intros Hsh; unfold generate_shell_arrays;
                          now rewrite Hsh].
  intros Hsh.
  destruct (parse_config_ok_inv _ _ _ _ Hparse)
    as (content & ms & _ & Hrun & _).
  (* no stored path holds a line feed *)
  assert (Hlf : (forall rp, In rp (dotfiles c) -> ~ In LF rp)
                /\ (forall rp sp, In (rp, sp) (file_map c) -> ~ In LF sp)).
  { replace c with (parse_lines (new_config os script_dir config_arg) 1
                      (file_lines content)).2 by now rewrite Hrun.
    apply (parse_lines_invariant_in (fun c =>
      (forall rp, In rp (dotfiles c) -> ~ In LF rp)
      /\ (forall rp sp, In (rp, sp) (file_map c) -> ~ In LF sp))).
    - intros self k raw rp sp Hraw [Hd Hf] Hl.
      assert (Hno : forall x, In x rp \/ In x sp -> x <> LF).
      { intros x Hx ->.
        apply (split_no_sep LF content raw Hraw).
        exact (parse_line_regular_chars _ _ _ _ _ Hl Hx). }
      split.
      + intros rp0 [Hin|[<-|[]]]%in_app_iff; [now apply Hd|].
        intros Hc. apply (Hno LF); [now left|reflexivity].
      + intros rp0 sp0 [[= -> ->]|Hin]%in_dict_set; [|exact (Hf _ _ Hin)].
        intros Hc. apply (Hno LF); [now right|reflexivity].
    - intros self k raw sp cp _ H _. exact H.
    - cbn. split; [intros ? []|intros ? ? []]. }
  destruct Hlf as [Hd Hf].
  assert (Hkeys : forall rp, In rp (dotfiles c) ->
                    exists sp, dict_get eqb_text rp (file_map c) = Some sp).
  { pose proof (parse_lines_file_map_keys os script_dir config_arg
                  (file_lines content)) as H.
    cbn zeta in H. rewrite Hrun in H. cbn [snd] in H.
    destruct H as (_ & Hk & _). intros rp Hin. apply dict_get_in, Hk, Hin. }
  destruct (dests_of_spec (file_map c) (dotfiles c) Hkeys)
    as (dests & Hdests & Hall).
  exists dests. split; [exact Hall|].
  assert (Hout : generate_shell_arrays c shell
    = inr (T "DOTFILES_REPO_PATHS=("
           ++ join (T " ") (List.map quoted (dotfiles c)) ++ T ")" ++ [LF]
           ++ T "DOTFILES_DEST_PATHS=("
           ++ join (T " ") (List.map quoted dests) ++ T ")" ++ [LF])).
  { unfold generate_shell_arrays. rewrite Hsh, Hdests.
    now rewrite <- !app_assoc. }
  split; [exact Hout|].
  intros out Ho. rewrite Hout in Ho.
  assert (E : forall x y : text,
               @inr shell_arrays_error text x = inr y -> x = y)
    by (intros x y H; congruence).
  apply E in Ho. subst out. clear E.
  assert (Hq : forall items, (forall x, In x items -> ~ In LF x) ->
                 forall pre, ~ In LF (T pre) ->
                 ~ In LF (T pre ++ join (T " ") (List.map quoted items)
                          ++ T ")")).
  { intros items Hitems pre Hpre
      [H|[H|H]%in_app_iff]%in_app_iff; [contradiction| |].
    - apply in_join in H as [H|(q & (x & <- & Hx)%in_map_iff & Hc)].
      + vm_compute in H. intuition discriminate.
      + unfold quoted in Hc.
        apply in_app_iff in Hc as [Hc|[Hc|Hc]%in_app_iff].
        * vm_compute in Hc. intuition discriminate.
        * exact (Hitems x Hx Hc).
        * vm_compute in Hc. intuition discriminate.
    - vm_compute in H. intuition discriminate. }
  assert (Hdl : forall d, In d dests -> ~ In LF d).
  { intros d Hin. clear -Hall Hf Hin.
    induction Hall as [|rp d0 rest dests' Hg _ IH]; [destruct Hin|].
    destruct Hin as [->|Hin]; [|now apply IH].
    eapply Hf. apply dict_get_In. exact Hg. }
  set (a := T "DOTFILES_REPO_PATHS=("
            ++ join (T " ") (List.map quoted (dotfiles c)) ++ T ")").
  set (b := T "DOTFILES_DEST_PATHS=("
            ++ join (T " ") (List.map quoted dests) ++ T ")").
  assert (Ha : ~ In LF a)
    by (apply Hq; [exact Hd|]; vm_compute; intuition discriminate).
  assert (Hb : ~ In LF b)
    by (apply Hq; [exact Hdl|]; vm_compute; intuition discriminate).
  replace (T "DOTFILES_REPO_PATHS=("
           ++ join (T " ") (List.map quoted (dotfiles c)) ++ T ")" ++ [LF]
           ++ T "DOTFILES_DEST_PATHS=("
           ++ join (T " ") (List.map quoted dests) ++ T ")" ++ [LF])
    with (a ++ LF :: (b ++ LF :: []))
    by (subst a b; repeat rewrite <- app_assoc; reflexivity).
  rewrite (split_app_sep LF a _ Ha), (split_app_sep LF b _ Hb). reflexivity.
Qed.

Lemma generate_shell_arrays_parsed_witness :
  exists dests,
    Forall2 (fun rp d => dict_get eqb_text rp (file_map scenario_config) = Some d)
      (dotfiles scenario_config) dests
    /\ generate_shell_arrays scenario_config (T "BASH")
       = inr (T "DOTFILES_REPO_PATHS=("
              ++ join (T " ") (List.map quoted (dotfiles scenario_config))
              ++ T ")" ++ [LF]
              ++ T "DOTFILES_DEST_PATHS=("
              ++ join (T " ") (List.map quoted dests) ++ T ")" ++ [LF]).
Proof.
  destruct (proj1 (generate_shell_arrays_parsed demo_os [T "repo"]
                     (Some conf_path) (scenario [])
                     (parse_config (new_config demo_os [T "repo"]
                                      (Some conf_path)) (scenario [])).2
                     scenario_config (T "BASH") eq_refl) eq_refl)
    as (dests & H1 & H2 & _).
  exists dests. split; assumption.
Defined.

(** ** What [sync_to_repo] leaves alone *)

Lemma keeps_refl (q : path) (s : state) : keeps q s s.
Proof. reflexivity. Qed.

Lemma keeps_trans (q : path) (a b c : state) :
  keeps q a b -> keeps q b c -> keeps q a c.
Proof. unfold keeps. congruence. Qed.

Create HintDb keeps.

Ltac keeps_go q :=
  steps_rel (keeps q) (keeps_refl q) (keeps_trans q) ltac:(auto with keeps).

Lemma keeps_emit (q : path) (ev : event) : steps (keeps q) (emit ev).
Proof. intros st. reflexivity. Qed.

#[export] Hint Resolve keeps_emit : keeps.

Lemma keeps_print (q : path) (m : message) : steps (keeps q) (print m).
Proof. apply keeps_emit. Qed.

Lemma keeps_call (q : path) (op : fsop) : steps (keeps q) (call op).
Proof. apply keeps_emit. Qed.

#[export] Hint Resolve keeps_print keeps_call : keeps.

Lemma keeps_store (q : path) (st : state) (r : option node) (e : exn) :
  (forall n', r = Some n' -> lookup n' q = lookup (fs st) q) ->
  keeps q st (store r e st).2.
Proof.
  intros H. destruct r as [n'|]; cbn; [|reflexivity]. now apply H.
Qed.

Lemma call_then {A} (op : fsop) (k : node -> M A) (st : state) :
  bind (call op) (fun _ => bind get_fs k) st
  = k (fs st) (mkState (fs st) (journal st ++ [Called op]) (stdin st)).
Proof. reflexivity. Qed.

Lemma keeps_rmtree (q p : path) : apart q p -> steps (keeps q) (rmtree p).
Proof.
  intros [H1 H2] st. unfold rmtree. rewrite call_then. cbn [fs].
  destruct (lookup (fs st) p) as [[d m|es]|]; try reflexivity.
  apply (keeps_store q (mkState _ _ _)). intros n' Hn'.
  now apply (FSFacts.lookup_remove_other _ _ _ _ Hn').
Qed.

Lemma keeps_mkdir_parent (q p : path) :
  is_prefix q p = false -> steps (keeps q) (mkdir (parent p)).
Proof.
  intros H st. unfold mkdir. rewrite call_then. cbn [fs].
  apply (keeps_store q (mkState _ _ _)). intros n' Hn'.
  apply (FSFacts.lookup_mkdir_p_other _ _ _ _ Hn').
  now apply FSFacts.is_prefix_parent.
Qed.

Lemma keeps_copytree (q src p : path) :
  apart q p -> steps (keeps q) (copytree src p).
Proof.
  intros [H1 H2] st. unfold copytree. rewrite call_then. cbn [fs].
  destruct (lookup (fs st) src) as [[d m|es]|]; try reflexivity.
  destruct (exists_ (fs st) p); [reflexivity|].
  destruct (mkdir_p (fs st) (parent p)) as [n1|] eqn:Hmk; [|reflexivity].
  apply (keeps_store q (mkState _ _ _)). intros n' Hn'. cbn [fs].
  rewrite (FSFacts.lookup_put_other _ _ _ _ _ Hn') by assumption.
  apply (FSFacts.lookup_mkdir_p_other _ _ _ _ Hmk).
  now apply FSFacts.is_prefix_parent.
Qed.

Lemma is_prefix_app_l (p q x : path) :
  is_prefix (p ++ x) q = true -> is_prefix p q = true.
Proof.
  revert q; induction p as [|a p IH]; intros q; [reflexivity|].
  destruct q as [|b q]; cbn; [discriminate|].
  intros [-> H]%andb_true_iff. now rewrite (IH _ H).
Qed.

Lemma is_prefix_snoc (q p : path) (x : name) :
  is_prefix q (p ++ [x]) = true ->
  is_prefix q p = true \/ is_prefix p q = true.
Proof.
  revert p; induction q as [|a q IH]; intros p; [now left|].
  destruct p as [|b p]; cbn.
  - intros _. now right.
  - intros [E H]%andb_true_iff. apply eqb_text_eq in E as ->.
    rewrite FSFacts.eqb_text_refl. cbn. now apply IH.
Qed.

Lemma apart_snoc (q p : path) (x : name) : apart q p -> apart q (p ++ [x]).
Proof.
  intros [H1 H2]. split.
  - destruct (is_prefix q (p ++ [x])) eqn:E; [|reflexivity].
    apply is_prefix_snoc in E as [E|E]; congruence.
  - destruct (is_prefix (p ++ [x]) q) eqn:E; [|reflexivity].
    apply is_prefix_app_l in E. congruence.
Qed.

Lemma keeps_copy2 (q src p : path) :
  apart q p -> steps (keeps q) (copy2 src p).
Proof.
  intros Hp st. unfold copy2. rewrite call_then. cbn [fs].
  destruct (lookup (fs st) src) as [[d m|es]|]; try reflexivity.
  set (target := if is_dir (fs st) p then p ++ [basename src] else p).
  assert (Ht : apart q target).
  { subst target. destruct (is_dir (fs st) p); [now apply apart_snoc|exact Hp]. }
  destruct (eqb_path src target); [reflexivity|].
  destruct (is_dir (fs st) target); [reflexivity|].
  destruct (negb (is_dir (fs st) (parent target))); [reflexivity|].
  apply (keeps_store q (mkState _ _ _)). intros n' Hn'. cbn [fs].
  destruct Ht as [H1 H2].
  now apply (FSFacts.lookup_put_other _ _ _ _ _ Hn').
Qed.

Lemma keeps_collect (os : oracle) (config : DotfilesConfig) (q : path)
    (items : list (text * text)) :
  (forall rp dp, In (rp, dp) items ->
     apart q (joinpath (repo_dir config) rp)) ->
  steps (keeps q) (collect os config items).
Proof.
  induction items as [|[rp dp] rest IH]; intros Hq; cbn [collect];
    [keeps_go q|].
  assert (Hp : apart q (joinpath (repo_dir config) rp))
    by (apply (Hq rp dp); now left).
  assert (Hrest : steps (keeps q) (collect os config rest))
    by (apply IH; intros rp0 dp0 Hin; apply (Hq rp0 dp0); now right).
  pose proof (keeps_rmtree q _ Hp).
  pose proof (fun src => keeps_copytree q src _ Hp).
  pose proof (fun src => keeps_copy2 q src _ Hp).
  pose proof (keeps_mkdir_parent q _ (proj1 Hp)).
  keeps_go q.
Qed.

(** X13.  [sync_to_repo] changes nothing at a path that lies apart from
    the repository paths of the mapping: not above one, not below one and
    not one of them.  System files in particular are only read, unless the
    mapping places a repository path on them. *)
Theorem sync_to_repo_frame (os : oracle) (config : DotfilesConfig)
    (st : state) (q : path) :
  (forall rp dp, In (rp, dp) (file_map config) ->
     apart q (joinpath (repo_dir config) rp)) ->
  lookup (fs (sync_to_repo os config st).2) q = lookup (fs st) q.
Proof.
  intros Hq.
  enough (H : steps (keeps q) (sync_to_repo os config)) by apply H.
  unfold sync_to_repo. pose proof (keeps_collect os config q _ Hq).
  keeps_go q.
Qed.

Lemma sync_to_repo_frame_witness :
  lookup (fs (sync_to_repo demo_os scenario_config (scenario [])).2)
    dest_testfile
  = lookup scenario_disk dest_testfile.
Proof.
  refine (sync_to_repo_frame demo_os scenario_config (scenario [])
            dest_testfile _).
  intros rp dp [[= <- <-]|[]]. vm_compute. auto.
Defined.

(** ** What [sync_to_repo] collects *)

Lemma mkdir_ok (p : path) (st st' : state) :
  mkdir p st = (inr tt, st') ->
  mkdir_p (fs st) p = Some (fs st').
Proof.
  rewrite mkdir_run. destruct (mkdir_p (fs st) p); [|discriminate].
  now intros [= <-].
Qed.

Lemma apart_sym (p q : path) : apart p q -> apart q p.
Proof. intros [H1 H2]. now split. Qed.

Lemma lookup_nil_is_dir (n : node) (p : path) :
  p = [] -> is_dir n p = false -> mkdir_p n (parent p) = None.
Proof.
  intros -> H. unfold is_dir in H. cbn in *. now destruct n.
Qed.

(** One turn of the loop, for an entry whose system file exists. *)
Lemma collect_step (os : oracle) (config : DotfilesConfig)
    (rp dp : text) (rest : list (text * text)) (st s' : state) :
  let src := joinpath (home os) dp in
  let tgt := joinpath (repo_dir config) rp in
  collect os config ((rp, dp) :: rest) st = (inr tt, s') ->
  exists_ (fs st) src = true ->
  apart src tgt ->
  is_dir (fs st) src = true \/ is_dir (fs st) tgt = false ->
  exists s1,
    collect os config rest s1 = (inr tt, s')
    /\ lookup (fs s1) tgt = lookup (fs st) src
    /\ forall q, apart q tgt -> lookup (fs s1) q = lookup (fs st) q.
Proof.
  intros src tgt H Hex Hapart Hcase. cbn [collect] in H.
  fold src tgt in H.
  bind_ok H n s0 Hm. injection Hm as <- <-. rewrite Hex in H. cbn [negb] in H.
  bind_ok H u s1 Hstep. destruct u. exists s1. split; [exact H|]. clear H.
  assert (Hframe : forall q, apart q tgt -> lookup (fs s1) q = lookup (fs st) q).
  { intros q Hq.
    assert (Hs : steps (keeps q)
      (if is_dir (fs st) src
       then bind (if exists_ (fs st) tgt then rmtree tgt else ret tt)
              (fun _ => copytree src tgt)
       else bind (mkdir (parent tgt)) (fun _ => copy2 src tgt))).
    { pose proof (keeps_rmtree q _ Hq).
      pose proof (fun s => keeps_copytree q s _ Hq).
      pose proof (fun s => keeps_copy2 q s _ Hq).
      pose proof (keeps_mkdir_parent q _ (proj1 Hq)).
      keeps_go q. }
    specialize (Hs st). rewrite Hstep in Hs. exact Hs. }
  split; [|exact Hframe].
  destruct (is_dir (fs st) src) eqn:Hd.
  - (* a directory *)
    bind_ok Hstep u' s2 Hrm. destruct u'.
    apply copytree_ok in Hstep as (es & n1 & n2 & Hsrc & Hmk & Hput & ->).
    cbn [fs called].
    rewrite (FSFacts.lookup_put_same _ _ _ _ Hput).
    assert (Hk : lookup (fs s2) src = lookup (fs st) src).
    { destruct (exists_ (fs st) tgt).
      - pose proof (keeps_rmtree src tgt Hapart st) as Hk.
        now rewrite Hrm in Hk.
      - now injection Hrm as <-. }
    now rewrite <- Hk, Hsrc.
  - (* a file *)
    destruct Hcase as [Hc|Hnd]; [discriminate Hc|].
    bind_ok Hstep u' s2 Hmk. destruct u'. apply mkdir_ok in Hmk.
    assert (Htgt : tgt <> []).
    { intros E. rewrite (lookup_nil_is_dir _ _ E Hnd) in Hmk. discriminate. }
    assert (Hnd2 : is_dir (fs s2) tgt = false).
    { unfold is_dir in *.
      rewrite (FSFacts.lookup_mkdir_p_other _ _ _ _ Hmk); [exact Hnd|].
      now apply is_prefix_self_parent. }
    assert (Hsrc2 : lookup (fs s2) src = lookup (fs st) src).
    { apply (FSFacts.lookup_mkdir_p_other _ _ _ _ Hmk).
      apply FSFacts.is_prefix_parent. exact (proj1 Hapart). }
    apply copy2_ok in Hstep as (d & m & n2 & Hsrc & Hput & ->).
    rewrite Hnd2 in Hput. cbn [fs called].
    rewrite (FSFacts.lookup_put_same _ _ _ _ Hput). congruence.
Qed.

(** X14.  When the repository paths of the mapping lie apart from one
    another and from the system files, a [sync_to_repo] that completes
    leaves at every repository path what its system file held, data and
    metadata, for every entry whose system file exists (a directory, or a
    file whose repository path is not a directory). *)
Theorem sync_to_repo_collects (os : oracle) (config : DotfilesConfig)
    (st s' : state) (rc : Z) :
  sync_to_repo os config st = (inr rc, s') ->
  pairwise_apart
    (List.map (fun e : text * text => joinpath (repo_dir config) e.1)
       (file_map config)) ->
  (forall e e', In e (file_map config) -> In e' (file_map config) ->
     apart (joinpath (home os) e.2) (joinpath (repo_dir config) e'.1)) ->
  rc = 0%Z
  /\ forall rp dp,
       In (rp, dp) (file_map config) ->
       let src := joinpath (home os) dp in
       let tgt := joinpath (repo_dir config) rp in
       exists_ (fs st) src = true ->
       is_dir (fs st) src = true \/ is_dir (fs st) tgt = false ->
       lookup (fs s') tgt = lookup (fs st) src.
Proof.
  unfold sync_to_repo. intros H Hpair Hsrc.
  bind_ok H u s1 Hrun. destruct u. injection H as <- <-.
  split; [reflexivity|].
  revert st Hrun Hpair Hsrc.
  generalize (file_map config) as items.
  induction items as [|[rp0 dp0] rest IH]; intros st Hrun Hpair Hsrc rp dp Hin;
    [destruct Hin|].
  cbn [map pairwise_apart fst] in Hpair. destruct Hpair as [Hhead Hpair].
  intros Hex Hcase.
  set (src := joinpath (home os) dp) in Hex, Hcase |- *.
  set (tgt := joinpath (repo_dir config) rp) in Hcase |- *.
  assert (Hrest_src : forall e e', In e rest -> In e' rest ->
            apart (joinpath (home os) e.2) (joinpath (repo_dir config) e'.1))
    by (intros e e' He He'; apply Hsrc; now right).
  assert (Hkeep_rest : forall q s2,
            collect os config rest s2 = (inr tt, s1) ->
            (forall e, In e rest -> apart q (joinpath (repo_dir config) e.1)) ->
            lookup (fs s1) q = lookup (fs s2) q).
  { intros q s2 Hc Hq.
    pose proof (keeps_collect os config q rest
                  (fun rp1 dp1 Hi => Hq (rp1, dp1) Hi) s2) as Hk.
    now rewrite Hc in Hk. }
  destruct (exists_ (fs st) (joinpath (home os) dp0)) eqn:Hex0.
  - (* the first entry is collected *)
    destruct Hin as [[= -> ->]|Hin].
    + destruct (collect_step os config rp dp rest st s1 Hrun Hex
                  (Hsrc (rp, dp) (rp, dp) (or_introl eq_refl)
                     (or_introl eq_refl)) Hcase)
        as (s2 & Hc & Htgt & _).
      fold src tgt in Htgt. rewrite <- Htgt.
      apply (Hkeep_rest tgt s2 Hc). intros e He.
      rewrite Forall_forall in Hhead. apply Hhead, list_elem_of_In.
      apply in_map_iff. now exists e.
    + (* the first entry runs, whatever it is; the rest sees the same
         sources and targets *)
      cbn [collect] in Hrun.
      bind_ok Hrun n s0 Hm. injection Hm as <- <-. rewrite Hex0 in Hrun.
      cbn [negb] in Hrun. bind_ok Hrun u' s2 Hstep. destruct u'.
      assert (Hframe : forall q,
        apart q (joinpath (repo_dir config) rp0) ->
        lookup (fs s2) q = lookup (fs st) q).
      { intros q Hq.
        assert (Hs : steps (keeps q)
          (if is_dir (fs st) (joinpath (home os) dp0)
           then bind (if exists_ (fs st) (joinpath (repo_dir config) rp0)
                      then rmtree (joinpath (repo_dir config) rp0)
                      else ret tt)
                  (fun _ => copytree (joinpath (home os) dp0)
                              (joinpath (repo_dir config) rp0))
           else bind (mkdir (parent (joinpath (repo_dir config) rp0)))
                  (fun _ => copy2 (joinpath (home os) dp0)
                              (joinpath (repo_dir config) rp0)))).
        { pose proof (keeps_rmtree q _ Hq).
          pose proof (fun s => keeps_copytree q s _ Hq).
          pose proof (fun s => keeps_copy2 q s _ Hq).
          pose proof (keeps_mkdir_parent q _ (proj1 Hq)).
          keeps_go q. }
        specialize (Hs st). rewrite Hstep in Hs. exact Hs. }
      assert (Hs : lookup (fs s2) src = lookup (fs st) src).
      { apply Hframe. apply (Hsrc (rp, dp) (rp0, dp0)); [now right|now left]. }
      assert (Ht : lookup (fs s2) tgt = lookup (fs st) tgt).
      { apply Hframe. apply apart_sym.
        rewrite Forall_forall in Hhead. apply Hhead, list_elem_of_In.
        apply in_map_iff. now exists (rp, dp). }
      rewrite <- Hs.
      apply (IH s2 Hrun Hpair Hrest_src rp dp Hin).
      * unfold exists_ in *. fold src. now rewrite Hs.
      * unfold is_dir in *. fold src tgt. now rewrite Hs, Ht.
  - (* the first entry is skipped *)
    cbn [collect] in Hrun.
    bind_ok Hrun n s0 Hm. injection Hm as <- <-. rewrite Hex0 in Hrun.
    cbn [negb] in Hrun.
    destruct Hin as [[= -> ->]|Hin].
    + subst src. congruence.
    + now apply (IH st Hrun Hpair Hrest_src rp dp Hin).
Qed.

Lemma sync_to_repo_collects_witness :
  lookup (fs (sync_to_repo demo_os scenario_config (scenario [])).2)
    [T "repo"; T "HOME"; T "testfile"]
  = Some (File (Utf8 system_content) 3).
Proof.
  refine (proj2 (sync_to_repo_collects demo_os scenario_config (scenario [])
                   (sync_to_repo demo_os scenario_config (scenario [])).2
                   0%Z _ _ _) (T "HOME/testfile") (T ".testfile") _ _ _).
  - vm_compute. reflexivity.
  - vm_compute. split; [constructor|exact I].
  - intros e e' [<-|[]] [<-|[]]. vm_compute. auto.
  - now left.
  - reflexivity.
  - right. reflexivity.
Defined.

(** ** The program run with [--sync-from-repo] *)

Lemma sync_from_repo_status01
    (os : oracle) (config : DotfilesConfig) (backup_dir_arg : option path)
    (preview : bool) (strat : strategy) (force process_templates : bool)
    (st s' : state) (rc : Z) :
  sync_from_repo os config backup_dir_arg preview strat force
    process_templates st = (inr rc, s') ->
  rc = 0%Z \/ rc = 1%Z.
Proof.
  intros H. unfold sync_from_repo in H.
  bind_ok H u s0 Hm.
  bind_ok H analysis s1 Hm1.
  destruct analysis as [code|[files_to_sync files_identical]].
  { injection H as <- _. right.
    now destruct (analyze_refusal _ _ _ _ _ _ _ _ Hm1). }
  left. destruct (is_empty files_to_sync).
  { bind_ok H u' s2 Hm2. now injection H as <- _. }
  bind_ok H plan s2 Hm2.
  destruct plan as [actions|]; [|now injection H as <- _].
  unfold apply_and_finish in H.
  bind_ok H applied s3 Hm3.
  destruct applied as [files_skipped files_synced].
  bind_ok H k s4 Hm4.
  bind_ok H u' s5 Hm5. now injection H as <- _.
Qed.

Lemma parse_config_reads_only (self : DotfilesConfig) (st : state) :
  fs (parse_config self st).2 = fs st
  /\ calls (journal (parse_config self st).2) = calls (journal st).
Proof.
  unfold parse_config, bind, get_fs, lift, raise.
  destruct (exists_ (fs st) (config_file self)); cbn; [|auto].
  destruct (read_text (fs st) (config_file self)) as [e|content]; [auto|].
  destruct (parse_lines self 1 (file_lines content)) as [[ms r] self'].
  rewrite print_all_run.
  assert (Hc : calls (journal (printed st ms)) = calls (journal st)).
  { unfold printed. cbn. rewrite calls_app.
    replace (calls (List.map Printed ms)) with (@nil fsop);
      [apply app_nil_r|].
    induction ms as [|m ms IH]; [reflexivity|exact IH]. }
  destruct r; cbn [snd]; auto.
Qed.

(** X15.  The program run with [--sync-from-repo] always ends with the
    status 0 or 1, whatever is raised on the way.  It ends with status 0,
    or makes any call to the file system, only for a mapping file that
    [parse_config] accepts and [validate] finds no error in: on any other
    configuration nothing is created, copied or removed. *)
Theorem main_sync_from_repo_needs_valid_config
    (os : oracle) (script_dir : path) (config_arg backup_arg : option path)
    (arg_force arg_no_preview : bool) (strat : strategy)
    (process_templates : bool) (st : state) :
  let out := main_sync_from_repo os script_dir config_arg backup_arg
               arg_force arg_no_preview strat process_templates st in
  (out.1 = inr 0%Z \/ out.1 = inr 1%Z)
  /\ (out.1 = inr 0%Z \/ calls (journal out.2) <> calls (journal st)
      \/ fs out.2 <> fs st ->
      exists c s1,
        parse_config (new_config os script_dir config_arg) st = (inr c, s1)
        /\ validate c (fs st) = []).
Proof.
  intros out. destruct out as [r s'] eqn:H. subst out. cbn [fst snd].
  unfold main_sync_from_repo, try_except in H.
  destruct (parse_config_reads_only (new_config os script_dir config_arg) st)
    as [Hfs Hcalls].
  assert (Hprint : forall (s : state) m (z : Z),
    bind (print m) (fun _ => ret z) s
    = (inr z, mkState (fs s) (journal s ++ [Printed m]) (stdin s)))
    by reflexivity.
  assert (Hpc : forall (s : state) m,
    calls (journal s ++ [Printed m]) = calls (journal s)).
  { intros s m. rewrite calls_app. apply app_nil_r. }
  unfold bind at 1 in H.
  destruct (parse_config (new_config os script_dir config_arg) st)
    as [[e|c] s1] eqn:Hparse; cbn [snd] in Hfs, Hcalls.
  - (* the mapping file is refused *)
    cbn [all_exceptions] in H. rewrite Hprint in H. injection H as <- <-.
    cbn [fs journal]. rewrite Hpc. split; [now right|].
    intros [H|[H|H]]; [discriminate H|congruence|congruence].
  - unfold bind at 1 in H. cbn [get_fs] in H. unfold get_fs in H.
    destruct (negb (is_empty (validate c (fs s1)))) eqn:Hv.
    + (* validation finds errors *)
      rewrite Hprint in H. injection H as <- <-.
      cbn [fs journal]. rewrite Hpc. split; [now right|].
      intros [H|[H|H]]; [discriminate H|congruence|congruence].
    + assert (Hvalid : validate c (fs st) = []).
      { rewrite <- Hfs. destruct (validate c (fs s1)); [reflexivity|].
        discriminate Hv. }
      split; [|intros _; now exists c, s1].
      destruct (sync_from_repo os c backup_arg
                  (negb (arg_force || arg_no_preview)) strat arg_force
                  process_templates s1) as [[e|rc] s2] eqn:Hsync.
      * cbn [all_exceptions] in H. rewrite Hprint in H.
        injection H as <- _. now right.
      * injection H as <- _.
        destruct (sync_from_repo_status01 _ _ _ _ _ _ _ _ _ _ Hsync)
          as [->| ->]; auto.
Qed.

(** ** Template processing after a sync *)

Lemma scan_templates_plain (os : oracle) (synced : list (text * text))
    (found : list (path * gset text)) (rb : list (path * path))
    (st : state) :
  (forall rp dp, In (rp, dp) synced ->
     detect_template_variables (fs st) (joinpath (home os) dp) = ∅) ->
  scan_templates os synced found rb st = (inr (found, rb), st).
Proof.
  revert found rb; induction synced as [|[rp dp] rest IH]; intros found rb H;
    cbn [scan_templates]; [reflexivity|].
  unfold bind at 1. cbn [get_fs]. unfold get_fs.
  assert (Hrest : scan_templates os rest found rb st = (inr (found, rb), st)).
  { apply IH. intros rp0 dp0 Hin. apply (H rp0 dp0). now right. }
  destruct (negb (exists_ (fs st) (joinpath (home os) dp))
            || is_dir (fs st) (joinpath (home os) dp)); [exact Hrest|].
  rewrite (H rp dp) by now left.
  rewrite bool_decide_eq_true_2 by reflexivity. exact Hrest.
Qed.

(** X16.  When none of the synced files holds a placeholder,
    [process_synced_templates] does nothing at all: it returns 0, makes no
    temporary file, runs no command and leaves every file as it is. *)
Theorem process_synced_templates_plain_files
    (os : oracle) (synced : list (text * text)) (st : state) :
  (forall rp dp, In (rp, dp) synced ->
     detect_template_variables (fs st) (joinpath (home os) dp) = ∅) ->
  process_synced_templates os synced st = (inr 0%nat, st).
Proof.
  intros H. unfold process_synced_templates.
  destruct synced as [|e rest]; [reflexivity|]. cbn [is_empty].
  unfold bind. now rewrite (scan_templates_plain os (e :: rest) [] [] st H).
Qed.

Lemma process_synced_templates_plain_files_witness :
  process_synced_templates demo_os [(T "HOME/testfile", T ".testfile")]
    (scenario [])
  = (inr 0%nat, scenario []).
Proof.
  refine (process_synced_templates_plain_files demo_os
            [(T "HOME/testfile", T ".testfile")] (scenario []) _).
  intros rp dp [[= <- <-]|[]]. vm_compute. reflexivity.
Defined.

(** ** What [process_template_file] touches *)

Lemma is_prefix_spec (p q : path) :
  is_prefix p q = true <-> exists x, q = p ++ x.
Proof.
  revert q; induction p as [|a p IH]; intros q; cbn.
  - split; [intros _; now exists q | reflexivity].
  - destruct q as [|b q].
    + split; [discriminate | intros [x E]; discriminate E].
    + rewrite andb_true_iff, eqb_text_eq, IH. split.
      * intros [-> [x ->]]. now exists x.
      * intros [x [= -> ->]]. split; [reflexivity | now exists x].
Qed.

Lemma lookup_app (n : node) (p x : path) :
  lookup n (p ++ x)
  = match lookup n p with Some c => lookup c x | None => None end.
Proof.
  revert n; induction p as [|a p IH]; intros n; cbn; [reflexivity|].
  destruct n as [d m|es]; [reflexivity|].
  destruct (assoc a es) as [c|]; [apply IH|reflexivity].
Qed.

(** What lies above an existing path is a directory. *)
Lemma lookup_below_dir (n : node) (p x : path) :
  exists_ n (p ++ x) = true -> x <> [] -> is_dir n p = true.
Proof.
  unfold exists_, is_dir. rewrite lookup_app.
  destruct (lookup n p) as [[d m|es]|]; try discriminate; [|reflexivity].
  destruct x; [congruence|discriminate].
Qed.

Lemma put_below_dir (n n' : node) (p x : path) (v : node) :
  put n (p ++ x) v = Some n' -> x <> [] -> is_dir n p = true.
Proof.
  unfold is_dir. revert n n'; induction p as [|a p IH]; intros n n' H Hx.
  - cbn in *. destruct x as [|b x]; [congruence|]. cbn in H.
    now destruct n.
  - cbn [app] in H. cbn [put] in H. destruct n as [d m|es]; [discriminate|].
    cbn [lookup].
    destruct (p ++ x) as [|b y] eqn:E.
    + destruct p; [|discriminate E]. destruct x; [congruence|discriminate E].
    + destruct (assoc a es) as [c|]; [|discriminate].
      destruct (put c (b :: y) v) as [c'|] eqn:Ec; [|discriminate].
      exact (IH c c' Ec Hx).
Qed.

Lemma remove_exists (n n' : node) (p : path) :
  remove n p = Some n' -> exists_ n p = true.
Proof.
  unfold exists_. revert n n'; induction p as [|a p IH]; intros n n';
    cbn; [discriminate|].
  destruct n as [d m|es]; [discriminate|].
  destruct (assoc a es) as [c|]; [|discriminate].
  destruct p as [|b p]; [reflexivity|].
  destruct (remove c (b :: p)) as [c'|] eqn:E; [|discriminate].
  intros _. exact (IH c c' E).
Qed.

(** A change at a path that is no directory leaves every other file as it
    is. *)
Lemma file_apart (n : node) (p q : path) (d : data) (m : meta) :
  lookup n q = Some (File d m) -> q <> p -> is_dir n p = false ->
  (forall x, p = q ++ x -> x <> [] -> is_dir n q = true) ->
  apart p q.
Proof.
  intros Hq Hne Hp Hbelow. split.
  - destruct (is_prefix p q) eqn:E; [|reflexivity].
    apply is_prefix_spec in E as [x ->].
    assert (Hx : x <> []) by (intros ->; rewrite app_nil_r in Hne; congruence).
    assert (Hex : exists_ n (p ++ x) = true) by (unfold exists_; now rewrite Hq).
    rewrite (lookup_below_dir n p x Hex Hx) in Hp. discriminate.
  - destruct (is_prefix q p) eqn:E; [|reflexivity].
    apply is_prefix_spec in E as [x ->].
    assert (Hx : x <> []) by (intros ->; rewrite app_nil_r in Hne; congruence).
    specialize (Hbelow x eq_refl Hx). unfold is_dir in Hbelow.
    rewrite Hq in Hbelow. discriminate.
Qed.

Lemma put_keeps_file (n n' : node) (p q : path) (v : node) (d : data)
    (m : meta) :
  put n p v = Some n' ->
  lookup n q = Some (File d m) -> q <> p -> is_dir n p = false ->
  lookup n' q = Some (File d m).
Proof.
  intros Hput Hq Hne Hp.
  destruct (file_apart n p q d m Hq Hne Hp) as [H1 H2].
  { intros x -> Hx. exact (put_below_dir _ _ _ _ _ Hput Hx). }
  now rewrite (FSFacts.lookup_put_other _ _ _ _ _ Hput H1 H2).
Qed.

Lemma remove_keeps_file (n n' : node) (p q : path) (d : data) (m : meta) :
  remove n p = Some n' ->
  lookup n q = Some (File d m) -> q <> p -> is_dir n p = false ->
  lookup n' q = Some (File d m).
Proof.
  intros Hrm Hq Hne Hp.
  destruct (file_apart n p q d m Hq Hne Hp) as [H1 H2].
  { intros x -> Hx. apply remove_exists in Hrm.
    exact (lookup_below_dir _ _ _ Hrm Hx). }
  now rewrite (FSFacts.lookup_remove_other _ _ _ _ Hrm H1 H2).
Qed.

(** A file put at a path adds at most this path. *)
Lemma put_file_new (n n' : node) (p q : path) (d : data) (m : meta) :
  put n p (File d m) = Some n' ->
  exists_ n' q = true -> exists_ n q = true \/ q = p.
Proof.
  intros Hput Hq.
  destruct (is_prefix p q) eqn:E1.
  - apply is_prefix_spec in E1 as [x ->]. destruct x as [|a x].
    + right. apply app_nil_r.
    + exfalso. unfold exists_ in Hq. rewrite lookup_app in Hq.
      rewrite (FSFacts.lookup_put_same _ _ _ _ Hput) in Hq. discriminate Hq.
  - destruct (is_prefix q p) eqn:E2.
    + apply is_prefix_spec in E2 as [x ->]. left.
      destruct x as [|a x].
      * rewrite app_nil_r in E1. 
        assert (is_prefix q q = true) by (apply is_prefix_spec; exists [];
                                          now rewrite app_nil_r).
        congruence.
      * assert (Hd : is_dir n q = true)
          by (eapply put_below_dir; [exact Hput|discriminate]).
        unfold is_dir in Hd. unfold exists_.
        now destruct (lookup n q).
    + left. unfold exists_ in *.
      now rewrite <- (FSFacts.lookup_put_other _ _ _ _ _ Hput E1 E2).
Qed.

Lemma remove_no_new (n n' : node) (p q : path) :
  remove n p = Some n' ->
  exists_ n' q = true -> exists_ n q = true /\ q <> p.
Proof.
  intros Hrm Hq.
  assert (Hne : q <> p).
  { intros ->. unfold exists_ in Hq.
    now rewrite (FSFacts.lookup_remove_same _ _ _ Hrm) in Hq. }
  split; [|exact Hne].
  destruct (is_prefix p q) eqn:E1.
  - apply is_prefix_spec in E1 as [x ->]. exfalso.
    unfold exists_ in Hq. rewrite lookup_app in Hq.
    now rewrite (FSFacts.lookup_remove_same _ _ _ Hrm) in Hq.
  - destruct (is_prefix q p) eqn:E2.
    + apply is_prefix_spec in E2 as [x ->].
      destruct x as [|a x]; [now rewrite app_nil_r in Hne|].
      assert (Hd : is_dir n q = true).
      { apply (lookup_below_dir n q (a :: x)); [|discriminate].
        exact (remove_exists _ _ _ Hrm). }
      unfold is_dir in Hd. unfold exists_. now destruct (lookup n q).
    + unfold exists_ in *.
      now rewrite <- (FSFacts.lookup_remove_other _ _ _ _ Hrm E1 E2).
Qed.

Lemma untouched_start (n0 : node) : untouched n0 [] [] n0.
Proof. repeat split; auto. Qed.

Lemma untouched_fresh (n0 n n' : node) (temps : list path)
    (p : path) (d : data) (m : meta) :
  untouched n0 [] temps n ->
  exists_ n p = false ->
  put n p (File d m) = Some n' ->
  untouched n0 [] (p :: temps) n'.
Proof.
  intros (Hkeep & Hnew & Htemps) Hfresh Hput.
  assert (Hnd : is_dir n p = false).
  { unfold exists_ in Hfresh. unfold is_dir. now destruct (lookup n p). }
  split; [|split].
  - intros q d0 m0 Hq Hnw.
    apply (put_keeps_file _ _ _ _ _ _ _ Hput (Hkeep _ _ _ Hq Hnw)); [|exact Hnd].
    intros ->. unfold exists_ in Hfresh.
    now rewrite (Hkeep _ _ _ Hq Hnw) in Hfresh.
  - intros q Hq. destruct (put_file_new _ _ _ _ _ _ Hput Hq) as [H| ->].
    + destruct (Hnew q H) as [H0|H0]; [now left|right; now right].
    + right. now left.
  - constructor; [|exact Htemps].
    destruct (is_file n0 p) eqn:E; [|reflexivity]. exfalso.
    unfold is_file in E.
    destruct (lookup n0 p) as [[d0 m0|es]|] eqn:El; try discriminate.
    unfold exists_ in Hfresh.
    now rewrite (Hkeep _ _ _ El (fun H => H)) in Hfresh.
Qed.

Lemma untouched_temp_put (n0 n n' : node) (written temps : list path)
    (p : path) (d : data) (m : meta) :
  untouched n0 written temps n ->
  In p temps -> is_dir n p = false ->
  put n p (File d m) = Some n' ->
  untouched n0 written temps n'.
Proof.
  intros (Hkeep & Hnew & Htemps) Hin Hnd Hput.
  split; [|split; [|exact Htemps]].
  - intros q d0 m0 Hq Hnw.
    apply (put_keeps_file _ _ _ _ _ _ _ Hput (Hkeep _ _ _ Hq Hnw)); [|exact Hnd].
    intros ->. rewrite Forall_forall in Htemps.
    apply list_elem_of_In in Hin. specialize (Htemps _ Hin).
    unfold is_file in Htemps. now rewrite Hq in Htemps.
  - intros q Hq. destruct (put_file_new _ _ _ _ _ _ Hput Hq) as [H| ->].
    + now apply Hnew.
    + now right.
Qed.

Lemma untouched_temp_remove (n0 n n' : node) (written temps : list path)
    (p : path) :
  untouched n0 written temps n ->
  In p temps -> is_dir n p = false ->
  remove n p = Some n' ->
  untouched n0 written temps n'.
Proof.
  intros (Hkeep & Hnew & Htemps) Hin Hnd Hrm.
  split; [|split; [|exact Htemps]].
  - intros q d0 m0 Hq Hnw.
    apply (remove_keeps_file _ _ _ _ _ _ Hrm (Hkeep _ _ _ Hq Hnw)); [|exact Hnd].
    intros ->. rewrite Forall_forall in Htemps.
    apply list_elem_of_In in Hin. specialize (Htemps _ Hin).
    unfold is_file in Htemps. now rewrite Hq in Htemps.
  - intros q Hq. destruct (remove_no_new _ _ _ _ Hrm Hq) as [H _].
    now apply Hnew.
Qed.

Lemma untouched_write (n0 n n' : node) (temps : list path)
    (p : path) (d : data) (m : meta) :
  untouched n0 [] temps n ->
  exists_ n0 p = true -> is_dir n p = false ->
  put n p (File d m) = Some n' ->
  untouched n0 [p] temps n'.
Proof.
  intros (Hkeep & Hnew & Htemps) Hex Hnd Hput.
  split; [|split; [|exact Htemps]].
  - intros q d0 m0 Hq Hnw.
    apply (put_keeps_file _ _ _ _ _ _ _ Hput (Hkeep _ _ _ Hq (fun H => H)));
      [|exact Hnd].
    intros ->. apply Hnw. now left.
  - intros q Hq. destruct (put_file_new _ _ _ _ _ _ Hput Hq) as [H| ->].
    + now apply Hnew.
    + now left.
Qed.

Lemma untouched_weaken (n0 n : node) (temps : list path) (p : path) :
  untouched n0 [] temps n -> untouched n0 [p] temps n.
Proof.
  intros (Hkeep & Hnew & Htemps). split; [|split; assumption].
  intros q d m Hq _. apply (Hkeep _ _ _ Hq). intros [].
Qed.

Lemma mkstemp_ok (os : oracle) (dir : path) (suffix : text) (st s' : state)
    (p : path) :
  mkstemp os dir suffix st = (inr p, s') ->
  p = dir ++ [tmpname os (fs st) dir suffix]
  /\ exists_ (fs st) p = false
  /\ put (fs st) p (File (Utf8 []) (stamp os)) = Some (fs s').
Proof.
  unfold mkstemp, bind, get_fs, call, emit, store, set_fs, raise, ret. cbn.
  destruct (is_dir (fs st) dir); cbn; [|discriminate].
  destruct (exists_ (fs st) _) eqn:Ex; cbn; [discriminate|].
  destruct (put (fs st) _ _) as [n|] eqn:Ep; cbn; [|discriminate].
  intros [= <- <-]. cbn. auto.
Qed.

Lemma mkstemp_err (os : oracle) (dir : path) (suffix : text) (st s' : state)
    (e : exn) :
  mkstemp os dir suffix st = (inl e, s') -> fs s' = fs st.
Proof.
  intros H. apply mkstemp_inv in H as [(e' & _ & Hfs)|(nm & Habs & _)];
    [assumption|discriminate].
Qed.

Lemma write_text_ok (os : oracle) (p : path) (t : text) (st s' : state) :
  write_text os p t st = (inr tt, s') ->
  is_dir (fs st) p = false
  /\ put (fs st) p (File (Utf8 t) (stamp os)) = Some (fs s').
Proof.
  unfold write_text, bind, get_fs, call, emit, store, set_fs, raise. cbn.
  destruct (is_dir (fs st) p); cbn; [discriminate|].
  destruct (is_dir (fs st) (parent p)); cbn; [|discriminate].
  destruct (put (fs st) p _) as [n|] eqn:Ep; cbn; [|discriminate].
  intros [= <-]. auto.
Qed.

Lemma write_text_err (os : oracle) (p : path) (t : text) (st s' : state)
    (e : exn) :
  write_text os p t st = (inl e, s') -> fs s' = fs st.
Proof.
  intros H. apply write_text_inv in H as [(e' & _ & Hfs)|[Habs _]];
    [assumption|discriminate].
Qed.

Lemma unlink_ok (p : path) (st s' : state) :
  unlink p st = (inr tt, s') ->
  is_file (fs st) p = true /\ remove (fs st) p = Some (fs s').
Proof.
  unfold unlink, bind, get_fs, call, emit, store, set_fs, raise, is_file. cbn.
  destruct (lookup (fs st) p) as [[d m|es]|]; cbn; try discriminate.
  destruct (remove (fs st) p) as [n|] eqn:Er; cbn; [|discriminate].
  intros [= <-]. auto.
Qed.

Lemma is_file_not_dir (n : node) (p : path) :
  is_file n p = true -> is_dir n p = false.
Proof. unfold is_file, is_dir. now destruct (lookup n p) as [[]|]. Qed.

Lemma is_file_exists (n : node) (p : path) :
  is_file n p = true -> exists_ n p = true.
Proof. unfold is_file, exists_. now destruct (lookup n p) as [[]|]. Qed.

(** X17.  [process_template_file] touches nothing but the template: every
    other file is afterwards as it was, and the only path it leaves behind
    is the backup it made beside the template (the temporary output file
    is always removed).  When it returns [True], that backup holds the
    text the template had. *)
Theorem process_template_file_effects (os : oracle) (file_path : path)
    (env_files : list path) (st : state) :
  let out := process_template_file os file_path env_files st in
  let backup_path :=
    parent file_path
    ++ [tmpname os (fs st) (parent file_path) (T ".template_backup")] in
  (forall q d m, lookup (fs st) q = Some (File d m) -> q <> file_path ->
                 lookup (fs out.2) q = Some (File d m))
  /\ (forall q, exists_ (fs out.2) q = true ->
                exists_ (fs st) q = true \/ q = backup_path)
  /\ (out.1 = inr true ->
      forall original, read_text (fs st) file_path = inr original ->
        exists_ (fs st) backup_path = false
        /\ lookup (fs out.2) backup_path
           = Some (File (Utf8 original) (stamp os))).
Proof.
  intros out bp. subst out. unfold process_template_file.
  match goal with
  | |- context [try_except (try_except ?body _ _) _ _] => set (b := body)
  end.
  (* what has to hold where the body ends *)
  set (G := fun (r : exn + bool) (s : state) =>
    (forall q d m, lookup (fs st) q = Some (File d m) -> q <> file_path ->
                   lookup (fs s) q = Some (File d m))
    /\ (forall q, exists_ (fs s) q = true ->
                  exists_ (fs st) q = true \/ q = bp)
    /\ (r = inr true ->
        forall original, read_text (fs st) file_path = inr original ->
          exists_ (fs st) bp = false
          /\ lookup (fs s) bp = Some (File (Utf8 original) (stamp os)))).
  assert (Hexit : forall r s w temps,
    untouched (fs st) w temps (fs s) ->
    (forall q, In q w -> q = file_path) ->
    (forall q, In q temps -> q = bp \/ exists_ (fs s) q = false) ->
    r <> inr true -> G r s).
  { intros r s w temps (Hkeep & Hnew & _) Hw Htemps Hr. split; [|split].
    - intros q d m Hq Hne. apply (Hkeep _ _ _ Hq). intros Hin.
      now apply Hne, Hw.
    - intros q Hq. destruct (Hnew q Hq) as [H|H]; [now left|].
      destruct (Htemps q H) as [->|Hno]; [now right|congruence].
    - intros ->. now destruct Hr. }
  assert (Hsame : forall r s, fs s = fs st -> r <> inr true -> G r s).
  { intros r s Hfs Hr. apply (Hexit r s [] []); [|intros ? []|intros ? []|exact Hr].
    rewrite Hfs. apply untouched_start. }
  assert (Hb : forall r s1, b st = (r, s1) -> G r s1).
  { subst b. intros r s1.
    assert (Hstop : forall m,
      (bind (print m) (fun _ => ret false)) st = (r, s1) -> G r s1).
    { intros m [= <- <-]. now apply Hsame. }
    assert (Hraise : forall e, @raise bool e st = (r, s1) -> G r s1).
    { intros e [= <- <-]. now apply Hsame. }
    destruct (envsubst_help os) as [[]|];
      try (intros H; solve [eapply Hstop; eauto | eapply Hraise; eauto]).
    clear Hstop Hraise. intros H.
    bind_step H e n s0 Hm; [discriminate H|]. injection Hm as <- <-.
    destruct (negb (exists_ (fs st) file_path)
              || negb (is_file (fs st) file_path)) eqn:Hc.
    { injection H as <- <-. now apply Hsame. }
    apply orb_false_iff in Hc as [_ Hfile]. apply negb_false_iff in Hfile.
    (* the backup *)
    bind_step H e bp' sA Hm.
    { apply mkstemp_err in H. now apply Hsame. }
    apply mkstemp_ok in Hm as (-> & Hex1 & Hput1). fold bp in Hex1, Hput1 |- *.
    pose proof (untouched_fresh _ _ _ _ _ _ _ (untouched_start (fs st))
                  Hex1 Hput1) as UA.
    destruct (fresh_sibling _ _ _ _ _ Hfile Hex1 Hput1) as [Hbf1 Hbf2].
    fold bp in Hbf1, Hbf2.
    assert (HfA : lookup (fs sA) file_path = lookup (fs st) file_path)
      by (eapply FSFacts.lookup_put_other; eauto).
    assert (Hbp : forall r s, untouched (fs st) [] [bp] (fs s) ->
                    r <> inr true -> G r s).
    { intros r0 s U Hr. apply (Hexit r0 s [] [bp] U); [intros ? []| |exact Hr].
      intros q [<-|[]]. now left. }
    bind_step H e n0 s0 Hm; [discriminate H|]. injection Hm as <- <-.
    bind_step H e original s0 Hm.
    { injection H as _ <-. now apply Hbp. }
    injection Hm as Horig <-.
    assert (Horig0 : read_text (fs st) file_path = inr original).
    { unfold read_text in *. now rewrite <- HfA. }
    bind_step H e u sB Hm.
    { apply write_text_err in H. apply Hbp; [now rewrite H|discriminate]. }
    destruct u. apply write_text_ok in Hm as [HndA HputB].
    assert (UB : untouched (fs st) [] [bp] (fs sB)).
    { eapply untouched_temp_put; [exact UA|now left|exact HndA|exact HputB]. }
    assert (HfB : lookup (fs sB) file_path = lookup (fs st) file_path).
    { rewrite <- HfA. eapply FSFacts.lookup_put_other; eauto. }
    assert (HbB : lookup (fs sB) bp = Some (File (Utf8 original) (stamp os)))
      by (eapply FSFacts.lookup_put_same; eauto).
    clear dependent sA.
    (* the environment files *)
    assert (HC : forall rv sC, select_env_files env_files sB = (rv, sC) ->
                 fs sC = fs sB).
    { intros rv sC E. destruct (select_env_files_fs env_files sB) as [Hfs _].
      rewrite E in Hfs. now symmetry. }
    bind_step H e valid_env_files sC Hm.
    { apply HC in H. apply Hbp; [now rewrite H|discriminate]. }
    apply HC in Hm. rewrite <- Hm in UB, HfB, HbB. clear HC Hm sB.
    (* the output file *)
    assert (HfileC : is_file (fs sC) file_path = true).
    { unfold is_file in *. now rewrite HfB. }
    bind_step H e tp sD Hm.
    { apply mkstemp_err in H. apply Hbp; [now rewrite H|discriminate]. }
    apply mkstemp_ok in Hm as (Htp & Hex2 & Hput2).
    set (nm2 := tmpname os (fs sC) (parent file_path) (T ".tmp")) in Htp.
    destruct (fresh_sibling _ _ _ _ _ HfileC
                (eq_ind _ (fun p => exists_ (fs sC) p = false) Hex2 _ Htp)
                (eq_ind _ (fun p => put (fs sC) p _ = Some (fs sD)) Hput2 _ Htp))
      as [Htf1 Htf2].
    rewrite <- Htp in Htf1, Htf2.
    assert (Htb : apart tp bp).
    { assert (Hne : nm2 <> tmpname os (fs st) (parent file_path)
                             (T ".template_backup")).
      { intros E. unfold exists_ in Hex2. rewrite Htp, E in Hex2.
        fold bp in Hex2. now rewrite HbB in Hex2. }
      rewrite Htp. unfold bp.
      split; apply FSFacts.is_prefix_siblings; congruence. }
    destruct Htb as [Htb1 Htb2].
    assert (UD : untouched (fs st) [] [tp; bp] (fs sD))
      by (eapply untouched_fresh; eauto).
    assert (HfD : lookup (fs sD) file_path = lookup (fs st) file_path).
    { rewrite <- HfB. eapply FSFacts.lookup_put_other; eauto. }
    assert (HbD : lookup (fs sD) bp = Some (File (Utf8 original) (stamp os))).
    { rewrite <- HbB. eapply FSFacts.lookup_put_other; eauto. }
    assert (HtD : is_file (fs sD) tp = true).
    { unfold is_file. now rewrite (FSFacts.lookup_put_same _ _ _ _ Hput2). }
    assert (Htne : tp <> []) by (rewrite Htp; now destruct (parent file_path)).
    clear dependent sC. clear Hbp.
    apply try_finally_inv in H as (rm & sE & Hmain & Hfin).
    (* where the protected part ends *)
    assert (HE : exists w,
      untouched (fs st) w [tp; bp] (fs sE)
      /\ (forall q, In q w -> q = file_path)
      /\ (exists_ (fs sE) tp = true -> is_file (fs sE) tp = true)
      /\ lookup (fs sE) bp = Some (File (Utf8 original) (stamp os))).
    { clear Hfin.
      assert (Hstay : forall s, fs s = fs sD -> exists w,
        untouched (fs st) w [tp; bp] (fs s)
        /\ (forall q, In q w -> q = file_path)
        /\ (exists_ (fs s) tp = true -> is_file (fs s) tp = true)
        /\ lookup (fs s) bp = Some (File (Utf8 original) (stamp os))).
      { intros s ->. exists []. split; [exact UD|].
        split; [intros ? []|]. split; [intros _; exact HtD|exact HbD]. }
      bind_step Hmain e rc sR Hm.
      { apply run_envsubst_inv in Hmain
          as [(e' & _ & Hfs)|[(rc & d & Habs & _)|(rc & Habs & _)]];
          try discriminate. now apply Hstay. }
      assert (HR : exists w,
        untouched (fs st) w [tp; bp] (fs sR)
        /\ (forall q, In q w -> q = file_path)
        /\ (exists_ (fs sR) tp = true -> is_file (fs sR) tp = true)
        /\ lookup (fs sR) bp = Some (File (Utf8 original) (stamp os))).
      { apply run_envsubst_inv in Hm
          as [(e & He & _)|[(rc' & d & _ & _ & Hput)|(rc' & _ & Hex & Hfs)]];
          [discriminate| |].
        - exists []. split; [|split; [intros ? []|split]].
          + eapply untouched_temp_put;
              [exact UD|now left|now apply is_file_not_dir|exact Hput].
          + intros _. unfold is_file.
            now rewrite (FSFacts.lookup_put_same _ _ _ _ Hput).
          + rewrite <- HbD. eapply FSFacts.lookup_put_other; eauto.
        - destruct Hfs as [Hfs|Hrm]; [now apply Hstay|].
          exists []. split; [|split; [intros ? []|split]].
          + eapply untouched_temp_remove;
              [exact UD|now left|now apply is_file_not_dir|exact Hrm].
          + rewrite Hex. discriminate.
          + rewrite <- HbD. eapply FSFacts.lookup_remove_other; eauto. }
      assert (HfR : lookup (fs sR) file_path = lookup (fs st) file_path).
      { apply run_envsubst_inv in Hm
          as [(e & He & _)|[(rc' & d & _ & _ & Hput)|(rc' & _ & Hex & Hfs)]];
          [discriminate| |].
        - rewrite <- HfD. eapply FSFacts.lookup_put_other; eauto.
        - rewrite <- HfD. destruct Hfs as [->|Hrm]; [reflexivity|].
          eapply FSFacts.lookup_remove_other; eauto. }
      clear Hm.
      assert (Hfail : forall m,
        bind (print m) (fun _ => ret false) sR = (rm, sE) ->
        exists w,
          untouched (fs st) w [tp; bp] (fs sE)
          /\ (forall q, In q w -> q = file_path)
          /\ (exists_ (fs sE) tp = true -> is_file (fs sE) tp = true)
          /\ lookup (fs sE) bp = Some (File (Utf8 original) (stamp os))).
      { intros m [= _ <-]. exact HR. }
      destruct (negb (rc =? 0)%Z); [eapply Hfail; eauto|].
      bind_step Hmain e n1 s0 Hm; [discriminate Hmain|].
      injection Hm as <- <-.
      destruct (negb (exists_ (fs sR) tp)); [eapply Hfail; eauto|].
      bind_step Hmain e content s0 Hm.
      { injection Hmain as _ <-. exact HR. }
      injection Hm as _ <-.
      bind_step Hmain e u sW Hm.
      { apply write_text_err in Hmain. rewrite Hmain. exact HR. }
      destruct u. apply write_text_ok in Hm as [HndR HputW].
      injection Hmain as _ <-. cbn [fs].
      destruct HR as (w & UR & Hw & HtR & HbR).
      exists [file_path]. split; [|split; [|split]].
      - assert (UR0 : untouched (fs st) [] [tp; bp] (fs sR)).
        { destruct UR as (Hk & Hn & Ht). split; [|split; assumption].
          intros q d m Hq _.
          destruct (decide (q = file_path)) as [->|Hne].
          - rewrite HfR. exact Hq.
          - apply (Hk _ _ _ Hq). intros Hin. now apply Hne, Hw. }
        eapply untouched_write;
          [exact UR0|now apply is_file_exists|exact HndR|exact HputW].
      - intros q [<-|[]]. reflexivity.
      - intros Hex. unfold is_file, exists_ in *.
        rewrite (FSFacts.lookup_put_other _ _ _ _ _ HputW Htf2 Htf1) in *.
        now apply HtR.
      - rewrite <- HbR. eapply FSFacts.lookup_put_other; eauto. }
    destruct HE as (w & UE & Hw & HtE & HbE).
    (* the output file is removed *)
    assert (Hclean : forall rc,
      bind get_fs (fun n2 => if exists_ n2 tp then unlink tp else ret tt) sE
      = (rc, s1) ->
      rc = inr tt
      /\ untouched (fs st) w [tp; bp] (fs s1)
      /\ exists_ (fs s1) tp = false
      /\ lookup (fs s1) bp = Some (File (Utf8 original) (stamp os))).
    { intros rc Hc. unfold bind, get_fs in Hc.
      destruct (exists_ (fs sE) tp) eqn:Hex;
        [|injection Hc as <- <-; auto].
      pose proof (HtE eq_refl) as HfE.
      destruct rc as [e|[]].
      - exfalso. apply unlink_inv in Hc
          as [(e' & _ & _ & Hnf)|[[Habs _]|(e' & _ & _ & Hrm)]];
          [congruence|discriminate|].
        destruct (FSFacts.remove_succeeds (fs sE) tp Htne Hex) as [n' Hn'].
        congruence.
      - apply unlink_ok in Hc as [_ Hrm]. split; [reflexivity|].
        split; [|split].
        + eapply untouched_temp_remove;
            [exact UE|now left|now apply is_file_not_dir|exact Hrm].
        + unfold exists_. now rewrite (FSFacts.lookup_remove_same _ _ _ Hrm).
        + rewrite <- HbE. eapply FSFacts.lookup_remove_other; eauto. }
    destruct Hfin as [[Hc ->]|(e & Hc & ->)];
      apply Hclean in Hc as (Hrc & U1 & Ht1 & Hb1); [|discriminate].
    destruct U1 as (Hkeep & Hnew & _).
    split; [|split].
    - intros q d m Hq Hne. apply (Hkeep _ _ _ Hq). intros Hin.
      now apply Hne, Hw.
    - intros q Hq. destruct (Hnew q Hq) as [H|[<-|[<-|[]]]]; auto.
      congruence.
    - intros _ original' Ho. split; [exact Hex1|].
      rewrite Ho in Horig0. injection Horig0 as <-. exact Hb1. }
  (* the handlers only print *)
  unfold try_except, all_exceptions. destruct (b st) as [rb sb] eqn:Eb.
  destruct (Hb _ _ eq_refl) as (H1 & H2 & H3).
  destruct rb as [e|v].
  - destruct (is_TimeoutExpired e); cbn; (split; [exact H1|split; [exact H2|]]);
      discriminate.
  - cbn. auto.
Qed.

(** ** What the apply loop of [sync_from_repo] leaves behind *)










